(** * ByteSeeker: the probing engine, embedded and verified

    The repository holds three variants of the scanner:
    - the root package ([scan.go], [main.go] and two further files holding
      [loadPaths], the DNS cache, [defaultUserAgents] and [ScannerConfig]),
      modules [Scan], [Pool], [Dns] and [Paths] below;
    - a single-file variant with the same worker pool and DNS cache, whose
      tasks send strings, module [Single];
    - [cmd/main.go], which spawns one goroutine per path, module [Cmd].

    The embedding keeps the shape of the Go code.  A goroutine body is a
    program in a small monad [Prog] whose operations are the effects the
    code performs (random draw, HTTP round trip, load and store of the
    shared delay, sleep, channel send, wait-group and atomic counter
    updates).  A program is run either alone ([exec], the code as one worker
    executes it) or interleaved with the other goroutines of [runScanner]
    ([step], [run]).

    Modules [Root], [CmdDns] and [CmdPool] hold the code around the tasks:
    [main] of [main.go] and the writing of the results by [runScanner];
    the cache of [cmd/main.go]; and [main] of [cmd/main.go], its
    goroutines interleaved. *)

From Stdlib Require Import ZArith String List Ascii Lia Bool Sorting.Sorted
  DecimalString.
From stdpp Require Import base gmap strings list.

Open Scope string_scope.
Open Scope Z_scope.

(** ** Pieces of the Go runtime and standard library the code relies on *)

Module Go.

(** [int64] arithmetic wraps around; [time.Duration] is an [int64] count
    of nanoseconds. *)
Definition MinInt64 : Z := - 2 ^ 63.
Definition MaxInt64 : Z := 2 ^ 63 - 1.
Definition wrap64 (x : Z) : Z := (x + 2 ^ 63) mod 2 ^ 64 - 2 ^ 63.

Definition Millisecond : Z := 1000000.
Definition Second : Z := 1000 * Millisecond.
Definition Minute : Z := 60 * Second.

(** [Time.Sub] saturates at the ends of [Duration]. *)
Definition saturate64 (x : Z) : Z := Z.max MinInt64 (Z.min MaxInt64 x).

Definition nl : string := String "010"%char "".
Definition cr : ascii := "013"%char.
Definition lf : ascii := "010"%char.

(** [strings.HasPrefix]. *)
Fixpoint HasPrefix (s prefix : string) {struct prefix} : bool :=
  match prefix with
  | EmptyString => true
  | String p prefix' =>
      match s with
      | EmptyString => false
      | String c s' => Ascii.eqb c p && HasPrefix s' prefix'
      end
  end.

(** [strings.Contains]. *)
Fixpoint Contains (s substr : string) : bool :=
  HasPrefix s substr ||
  match s with
  | EmptyString => false
  | String _ s' => Contains s' substr
  end.

(** [strings.LastIndex]: the index of the last occurrence of [substr] in
    [s], or -1.  [lastIndexFrom i] scans the suffix that starts at byte
    offset [i]. *)
Fixpoint lastIndexFrom (i : Z) (s substr : string) : Z :=
  match s with
  | EmptyString => if HasPrefix s substr then i else -1
  | String _ s' =>
      let later := lastIndexFrom (i + 1) s' substr in
      if 0 <=? later then later
      else if HasPrefix s substr then i else -1
  end.

Definition LastIndex (s substr : string) : Z := lastIndexFrom 0 s substr.

Definition len (s : string) : Z := Z.of_nat (String.length s).

(** Slice expressions [s[:hi]] and [s[lo:]] are bounds-checked: an index
    outside [0 .. len(s)] is a run-time panic, here [None]. *)
Definition slice_to (s : string) (hi : Z) : option string :=
  if (0 <=? hi) && (hi <=? len s)
  then Some (String.substring 0 (Z.to_nat hi) s) else None.

Definition slice_from (s : string) (lo : Z) : option string :=
  if (0 <=? lo) && (lo <=? len s)
  then Some (String.substring (Z.to_nat lo) (String.length s - Z.to_nat lo) s)
  else None.

(** [http.StatusOK], [http.StatusNotFound], [http.StatusTooManyRequests]. *)
Definition StatusOK : Z := 200.
Definition StatusNotFound : Z := 404.
Definition StatusTooManyRequests : Z := 429.

End Go.

(** ** Data model *)

(** [ScanResult] of [scan.go]; absent fields hold Go's zero values. *)
Record ScanResult := {
  URL : string;
  StatusCode : Z;
  Status : string;
  ErrorMessage : string
}.

(** [ScannerConfig] of the root package. *)
Record ScannerConfig := {
  baseURL : string;
  pathsFile : string;
  concurrent : Z;
  timeout : Z;
  userAgents : list string;
  adaptiveDelay : Z;
  outputFormat : string;
  outputFile : string
}.

Definition set_adaptiveDelay (d : Z) (c : ScannerConfig) : ScannerConfig :=
  {| baseURL := baseURL c; pathsFile := pathsFile c;
     concurrent := concurrent c; timeout := timeout c;
     userAgents := userAgents c; adaptiveDelay := d;
     outputFormat := outputFormat c; outputFile := outputFile c |}.

(** [defaultUserAgents], the pool [main] puts in the configuration. *)
Definition defaultUserAgents : list string := [
  "Mozilla/5.0 (Windows NT 10.0; Win64; x64) AppleWebKit/537.36 (KHTML, like Gecko) Chrome/58.0.3029.110 Safari/537.3";
  "Mozilla/5.0 (Macintosh; Intel Mac OS X 10_15_7) AppleWebKit/605.1.15 (KHTML, like Gecko) Version/14.0.3 Safari/605.1.15";
  "Mozilla/5.0 (iPad; CPU OS 13_2_3 like Mac OS X) AppleWebKit/605.1.15 (KHTML, like Gecko) Version/13.0.3 Mobile/15E148 Safari/604.1";
  "Mozilla/5.0 (iPhone; CPU iPhone OS 13_2_3 like Mac OS X) AppleWebKit/605.1.15 (KHTML, like Gecko) Version/13.0.3 Mobile/15E148 Safari/604.1";
  "Mozilla/5.0 (Linux; Android 10; SM-G975F) AppleWebKit/537.36 (KHTML, like Gecko) Chrome/77.0.3865.92 Mobile Safari/537.36";
  "Mozilla/5.0 (Linux; Android 10; SM-A505FN) AppleWebKit/537.36 (KHTML, like Gecko) Chrome/77.0.3865.92 Mobile Safari/537.36";
  "Mozilla/5.0 (X11; Linux x86_64) AppleWebKit/537.36 (KHTML, like Gecko) Chrome/77.0.3865.90 Safari/537.36";
  "Mozilla/5.0 (X11; Ubuntu; Linux x86_64; rv:68.0) Gecko/20100101 Firefox/68.0";
  "Mozilla/5.0 (Windows NT 6.1; WOW64; rv:54.0) Gecko/20100101 Firefox/54.0";
  "Mozilla/5.0 (Windows NT 10.0; WOW64; Trident/7.0; rv:11.0) like Gecko";
  "Mozilla/5.0 (compatible; MSIE 10.0; Windows NT 6.2)";
  "Mozilla/5.0 (Windows NT 10.0; Win64; x64; rv:78.0) Gecko/20100101 Firefox/78.0";
  "Mozilla/5.0 (Macintosh; Intel Mac OS X 10_14_6) AppleWebKit/537.36 (KHTML, like Gecko) Chrome/78.0.3904.97 Safari/537.36";
  "Mozilla/5.0 (Windows NT 10.0; Win64; x64) AppleWebKit/537.36 (KHTML, like Gecko) Chrome/88.0.4324.150 Safari/537.36 Edge/88.0.705.50";
  "Mozilla/5.0 (Linux; Android 9; SM-G960F Build/PPR1.180610.011) AppleWebKit/537.36 (KHTML, like Gecko) Chrome/70.0.3538.110 Mobile Safari/537.36";
  "Mozilla/5.0 (Linux; U; Android 4.4; en-us; Nexus 5 Build/KRT16M) AppleWebKit/537.36 (KHTML, like Gecko) Version/4.4 Mobile Safari/537.36";
  "Mozilla/5.0 (compatible; Googlebot/2.1; +http://www.google.com/bot.html)";
  "Mozilla/5.0 (compatible; Bingbot/2.0; +http://www.bing.com/bingbot.htm)";
  "Mozilla/5.0 (compatible; Yahoo! Slurp; http://help.yahoo.com/help/us/ysearch/slurp)";
  "Mozilla/5.0 (compatible; Baiduspider/2.0; +http://www.baidu.com/search/spider.html)"
].

(** What [client.Do] returns: a response (its status code) or nil, and an
    error (its text) or nil.  [net/http] returns both non-nil only when a
    redirect policy fails. *)
Record DoResult := {
  do_resp : option Z;
  do_err : option string
}.

Definition respond (code : Z) : DoResult :=
  {| do_resp := Some code; do_err := None |}.
Definition fail (e : string) : DoResult :=
  {| do_resp := None; do_err := Some e |}.

(** Library functions whose results depend only on their arguments:
    the error of [http.NewRequest] for a URL ([None]: a request is built),
    and [strings.TrimSpace]. *)
Record Lib := {
  NewRequest : string -> option string;
  TrimSpace : string -> string
}.

(** ** Goroutine bodies as programs over their effects *)

(** A program that sends values of type [R] and returns an [A].  [Panic]
    is a run-time panic: no goroutine recovers from one, so it ends the
    process and nothing that follows it is run. *)
Inductive Prog (R A : Type) : Type :=
| Ret (a : A)
| Panic (msg : string)
| RandIntn (n : Z) (k : Z -> Prog R A)
| ClientDo (url ua : string) (k : DoResult -> Prog R A)
| LoadDelay (k : Z -> Prog R A)
| StoreDelay (d : Z) (k : Prog R A)
| Sleep (d : Z) (k : Prog R A)
| Send (r : R) (k : Prog R A)
| AtomicAdd (delta : Z) (k : Prog R A)
| WgDone (k : Prog R A).

Arguments Ret {R A} a.
Arguments Panic {R A} msg.
Arguments RandIntn {R A} n k.
Arguments ClientDo {R A} url ua k.
Arguments LoadDelay {R A} k.
Arguments StoreDelay {R A} d k.
Arguments Sleep {R A} d k.
Arguments Send {R A} r k.
Arguments AtomicAdd {R A} delta k.
Arguments WgDone {R A} k.

Fixpoint bind {R A B} (p : Prog R A) (f : A -> Prog R B) : Prog R B :=
  match p with
  | Ret a => f a
  | Panic msg => Panic msg
  | RandIntn n k => RandIntn n (fun i => bind (k i) f)
  | ClientDo url ua k => ClientDo url ua (fun r => bind (k r) f)
  | LoadDelay k => LoadDelay (fun d => bind (k d) f)
  | StoreDelay d k => StoreDelay d (bind k f)
  | Sleep d k => Sleep d (bind k f)
  | Send r k => Send r (bind k f)
  | AtomicAdd delta k => AtomicAdd delta (bind k f)
  | WgDone k => WgDone (bind k f)
  end.

Declare Scope prog_scope.
Delimit Scope prog_scope with prog.
Notation "x <- p ;; q" := (bind p (fun x => q))
  (at level 100, p at next level, q at level 200, right associativity)
  : prog_scope.
Notation "p ;; q" := (bind p (fun _ => q))
  (at level 100, q at level 200, right associativity) : prog_scope.
Open Scope prog_scope.

Section Ops.
Context {R : Type}.

(** [rand.Intn(n)] *)
Definition randIntn (n : Z) : Prog R Z := RandIntn n Ret.
(** [client.Do(req)] for a GET of [url] with header [User-Agent: ua] *)
Definition clientDo (url ua : string) : Prog R DoResult := ClientDo url ua Ret.
(** a read of [*adaptiveDelay] *)
Definition loadDelay : Prog R Z := LoadDelay Ret.
(** a write of [*adaptiveDelay] *)
Definition storeDelay (d : Z) : Prog R unit := StoreDelay d (Ret tt).
(** [time.Sleep(d)] *)
Definition sleep (d : Z) : Prog R unit := Sleep d (Ret tt).
(** [results <- r] *)
Definition send (r : R) : Prog R unit := Send r (Ret tt).
(** [atomic.AddInt32(concurrent, delta)] *)
Definition atomicAdd (delta : Z) : Prog R unit := AtomicAdd delta (Ret tt).
(** [wg.Done()] *)
Definition wgDone : Prog R unit := WgDone (Ret tt).

(** [xs[i]], bounds-checked. *)
Definition elem_at (xs : list string) (i : Z) : Prog R string :=
  if i <? 0 then Panic "index out of range"
  else match xs !! Z.to_nat i with
       | Some x => Ret x
       | None => Panic "index out of range"
       end.
End Ops.

(** ** [scanTarget] of [scan.go] *)

Module Scan.
Import Go.

(** The variables [resp] and [err] declared at function scope. *)
Record Vars := { resp : option Z; err : option string }.

(** How one iteration of [for i := 0; i < 3; i++] ends. *)
Inductive Ctl :=
| Continue (v : Vars)
| Break (v : Vars)
| Return.

Definition creating_error (baseURL path e : string) : ScanResult :=
  {| URL := baseURL ++ path; StatusCode := 0; Status := "";
     ErrorMessage := "Error creating request for " ++ path ++ ": " ++ e ++ nl |}.

Definition scanning_error (baseURL path e : string) : ScanResult :=
  {| URL := baseURL ++ path; StatusCode := 0; Status := "";
     ErrorMessage := "Error scanning " ++ path ++ ": " ++ e ++ nl |}.

(** The [switch] over the status code. *)
Definition status_of (code : Z) : string :=
  if code =? StatusOK then "Found"
  else if code =? StatusTooManyRequests then "Rate limited"
  else "Unknown".

Definition found (baseURL path : string) (code : Z) : ScanResult :=
  {| URL := baseURL ++ path; StatusCode := code; Status := status_of code;
     ErrorMessage := "" |}.

(** The loop body.  [req, err := http.NewRequestWithContext(...)] declares
    a new [err] in the scope of the body, and [resp, err = client.Do(req)]
    assigns the function-scope [resp] and that block-scope [err]: the
    function-scope [err] of [Vars] is never assigned. *)
Definition loop_body (lib : Lib) (baseURL path userAgent : string) (v : Vars)
  : Prog ScanResult Ctl :=
  match NewRequest lib (baseURL ++ path) with
  | Some e =>
      (if negb (Contains e "404")
       then send (creating_error baseURL path e) else Ret tt) ;;
      Ret Return
  | None =>
      r <- clientDo (baseURL ++ path) userAgent ;;
      let v := {| resp := do_resp r; err := err v |} in
      match do_err r, do_resp r with
      | None, Some code =>
          if negb (code =? StatusNotFound) then Ret (Break v)
          else Ret (Continue v)
      | _, _ =>
          d <- loadDelay ;;
          sleep d ;;
          d <- loadDelay ;;
          storeDelay (wrap64 (d * 2)) ;;
          Ret (Continue v)
      end
  end.

(** [n] iterations of the loop; [None] when the body returned from the
    function. *)
Fixpoint loop (lib : Lib) (baseURL path userAgent : string) (n : nat) (v : Vars)
  : Prog ScanResult (option Vars) :=
  match n with
  | O => Ret (Some v)
  | S n' =>
      c <- loop_body lib baseURL path userAgent v ;;
      match c with
      | Continue v' => loop lib baseURL path userAgent n' v'
      | Break v' => Ret (Some v')
      | Return => Ret None
      end
  end.

(** The code after the loop. *)
Definition after_loop (baseURL path : string) (v : Vars) : Prog ScanResult unit :=
  match err v with
  | Some e =>
      if negb (Contains e "404")
      then send (scanning_error baseURL path e) else Ret tt
  | None =>
      match resp v with
      | Some code =>
          if negb (code =? StatusNotFound)
          then send (found baseURL path code) else Ret tt
      | None => Ret tt
      end
  end.

(** [scanTarget]; the deferred [wg.Done()] runs when the body is left. *)
Definition scanTarget (lib : Lib) (baseURL path : string)
    (userAgents : list string) : Prog ScanResult unit :=
  (i <- randIntn (Z.of_nat (length userAgents)) ;;
   userAgent <- elem_at userAgents i ;;
   o <- loop lib baseURL path userAgent 3 {| resp := None; err := None |} ;;
   match o with
   | Some v => after_loop baseURL path v
   | None => Ret tt
   end) ;;
  wgDone.

End Scan.

(** ** [scanTarget] of [cmd/main.go] *)

Module Cmd.
Import Go.

(** [ScannerConfig] of [cmd/main.go]. *)
Record ScannerConfig := {
  BaseURL : string;
  PathsFile : string;
  Concurrent : Z;
  Timeout : Z;
  AdaptiveDelay : Z
}.

Definition set_AdaptiveDelay (d : Z) (c : ScannerConfig) : ScannerConfig :=
  {| BaseURL := BaseURL c; PathsFile := PathsFile c;
     Concurrent := Concurrent c; Timeout := Timeout c; AdaptiveDelay := d |}.

(** How one iteration ends; [delay] is the local variable. *)
Inductive Ctl :=
| Continue (delay : Z)
| Break.

Definition create_failed (fullURL e : string) : string :=
  "[ERROR] Failed to create request for " ++ fullURL ++ ": " ++ e ++ nl.
Definition scan_failed (baseURL path e : string) : string :=
  "[ERROR] Failed to scan " ++ baseURL ++ path ++ ": " ++ e ++ nl.
Definition success (baseURL path : string) : string :=
  "[SUCCESS] Found " ++ baseURL ++ path ++ nl.
(** Only reached with [statusCode == 429], which [%d] prints as 429. *)
Definition rate_limit (baseURL path : string) : string :=
  "[RATE LIMIT] Too Many Requests " ++ baseURL ++ path ++ " (Status: 429)" ++ nl.

Definition loop_body (lib : Lib) (baseURL path : string)
    (userAgents : list string) (delay : Z) : Prog string Ctl :=
  let fullURL := TrimSpace lib (baseURL ++ path) in
  match NewRequest lib fullURL with
  | Some e =>
      send (create_failed fullURL e) ;;
      Ret (Continue delay)
  | None =>
      i <- randIntn (Z.of_nat (length userAgents)) ;;
      agent <- elem_at userAgents i ;;
      r <- clientDo fullURL agent ;;
      match do_err r with
      | Some e =>
          (match do_resp r with
           | None => send (scan_failed baseURL path e)
           | Some _ => Ret tt
           end) ;;
          sleep delay ;;
          Ret (Continue (wrap64 (delay * 2)))
      | None =>
          match do_resp r with
          | None => Panic "nil pointer dereference"
          | Some statusCode =>
              if (200 <=? statusCode) && (statusCode <? 300)
              then send (success baseURL path) ;; Ret Break
              else if statusCode =? StatusTooManyRequests
              then send (rate_limit baseURL path) ;; Ret Break
              else sleep delay ;; Ret (Continue (wrap64 (delay * 2)))
          end
      end
  end.

Fixpoint loop (lib : Lib) (baseURL path : string) (userAgents : list string)
    (n : nat) (delay : Z) : Prog string unit :=
  match n with
  | O => Ret tt
  | S n' =>
      c <- loop_body lib baseURL path userAgents delay ;;
      match c with
      | Continue delay' => loop lib baseURL path userAgents n' delay'
      | Break => Ret tt
      end
  end.

(** [scanTarget]: [delay := *adaptiveDelay] copies the configured delay;
    the deferred calls run last in, first out. *)
Definition scanTarget (lib : Lib) (baseURL path : string)
    (userAgents : list string) : Prog string unit :=
  atomicAdd (-1) ;;
  delay <- loadDelay ;;
  loop lib baseURL path userAgents 3 delay ;;
  atomicAdd 1 ;;
  wgDone.

End Cmd.

(** ** [scanTarget] of the single-file variant *)

Module Single.
Import Go.

(** [ScannerConfig] of the single-file variant. *)
Record ScannerConfig := {
  baseURL : string;
  pathsFile : string;
  concurrent : Z;
  timeout : Z;
  userAgents : list string;
  adaptiveDelay : Z
}.

Definition set_adaptiveDelay (d : Z) (c : ScannerConfig) : ScannerConfig :=
  {| baseURL := baseURL c; pathsFile := pathsFile c;
     concurrent := concurrent c; timeout := timeout c;
     userAgents := userAgents c; adaptiveDelay := d |}.

(** The variables [resp] and [err] declared at function scope. *)
Record Vars := { resp : option Z; err : option string }.

Inductive Ctl :=
| Continue (v : Vars)
| Break (v : Vars)
| Return.

Definition creating_error (path e : string) : string :=
  "Error creating request for " ++ path ++ ": " ++ e ++ nl.
Definition scanning_error (path e : string) : string :=
  "Error scanning " ++ path ++ ": " ++ e ++ nl.
Definition found (baseURL path : string) : string :=
  "Found: " ++ baseURL ++ path ++ nl.
Definition rate_limited (baseURL path : string) : string :=
  "Rate limited on " ++ baseURL ++ path ++ nl.

(** The loop body, with the same two [err] variables as in [scan.go]; every
    response without error leaves the loop. *)
Definition loop_body (lib : Lib) (baseURL path userAgent : string) (v : Vars)
  : Prog string Ctl :=
  match NewRequest lib (baseURL ++ path) with
  | Some e =>
      send (creating_error path e) ;;
      Ret Return
  | None =>
      r <- clientDo (baseURL ++ path) userAgent ;;
      let v := {| resp := do_resp r; err := err v |} in
      match do_err r, do_resp r with
      | None, Some _ => Ret (Break v)
      | _, _ =>
          d <- loadDelay ;;
          sleep d ;;
          d <- loadDelay ;;
          storeDelay (wrap64 (d * 2)) ;;
          Ret (Continue v)
      end
  end.

Fixpoint loop (lib : Lib) (baseURL path userAgent : string) (n : nat) (v : Vars)
  : Prog string (option Vars) :=
  match n with
  | O => Ret (Some v)
  | S n' =>
      c <- loop_body lib baseURL path userAgent v ;;
      match c with
      | Continue v' => loop lib baseURL path userAgent n' v'
      | Break v' => Ret (Some v')
      | Return => Ret None
      end
  end.

(** The code after the loop: a line for 200 and for 429, nothing for any
    other status. *)
Definition after_loop (baseURL path : string) (v : Vars) : Prog string unit :=
  match err v with
  | Some e => send (scanning_error path e)
  | None =>
      match resp v with
      | Some code =>
          if code =? StatusOK then send (found baseURL path)
          else if code =? StatusTooManyRequests then send (rate_limited baseURL path)
          else Ret tt
      | None => Ret tt
      end
  end.

Definition scanTarget (lib : Lib) (baseURL path : string)
    (userAgents : list string) : Prog string unit :=
  (i <- randIntn (Z.of_nat (length userAgents)) ;;
   userAgent <- elem_at userAgents i ;;
   o <- loop lib baseURL path userAgent 3 {| resp := None; err := None |} ;;
   match o with
   | Some v => after_loop baseURL path v
   | None => Ret tt
   end) ;;
  wgDone.

End Single.

(** ** Running a program alone *)

(** The memory cell behind the pointer [adaptiveDelay] is a field of the
    configuration the caller holds. *)
Class DelayCell (C : Type) := {
  get_delay : C -> Z;
  set_delay : Z -> C -> C
}.

#[global] Instance root_delay : DelayCell ScannerConfig :=
  {| get_delay := adaptiveDelay; set_delay := set_adaptiveDelay |}.

#[global] Instance cmd_delay : DelayCell Cmd.ScannerConfig :=
  {| get_delay := Cmd.AdaptiveDelay; set_delay := Cmd.set_AdaptiveDelay |}.

#[global] Instance single_delay : DelayCell Single.ScannerConfig :=
  {| get_delay := Single.adaptiveDelay; set_delay := Single.set_adaptiveDelay |}.

(** The surroundings of a task: the server's answer to the [n]-th request of
    the run (from its URL and user-agent), and the raw random stream behind
    [rand.Intn]. *)
Record Env := {
  server : nat -> string -> string -> DoResult;
  rng : nat -> Z
}.

(** What a task can observe and change: the caller's configuration, the
    values sent on the results channel so far, the sleeps and requests made
    so far, the number of random draws, the wait-group counter, and the
    atomic counter of [cmd/main.go]. *)
Record World (R C : Type) := mkWorld {
  w_config : C;
  w_chan : list R;
  w_sleeps : list Z;
  w_reqs : list (string * string);
  w_nrand : nat;
  w_wg : Z;
  w_slots : Z
}.

Arguments mkWorld {R C}.
Arguments w_config {R C}.
Arguments w_chan {R C}.
Arguments w_sleeps {R C}.
Arguments w_reqs {R C}.
Arguments w_nrand {R C}.
Arguments w_wg {R C}.
Arguments w_slots {R C}.

Inductive Res (A : Type) : Type :=
| Done (a : A)
| Panicked (msg : string).

Arguments Done {A} a.
Arguments Panicked {A} msg.

Definition wrap32 (x : Z) : Z := (x + 2 ^ 31) mod 2 ^ 32 - 2 ^ 31.

Section Exec.
Context {R C : Type} `{DelayCell C}.
Variable env : Env.

Definition with_config (c : C) (w : World R C) : World R C :=
  mkWorld c (w_chan w) (w_sleeps w) (w_reqs w) (w_nrand w) (w_wg w) (w_slots w).
Definition with_chan (ch : list R) (w : World R C) : World R C :=
  mkWorld (w_config w) ch (w_sleeps w) (w_reqs w) (w_nrand w) (w_wg w) (w_slots w).
Definition with_sleeps (sl : list Z) (w : World R C) : World R C :=
  mkWorld (w_config w) (w_chan w) sl (w_reqs w) (w_nrand w) (w_wg w) (w_slots w).
Definition with_reqs (rq : list (string * string)) (w : World R C) : World R C :=
  mkWorld (w_config w) (w_chan w) (w_sleeps w) rq (w_nrand w) (w_wg w) (w_slots w).
Definition with_nrand (n : nat) (w : World R C) : World R C :=
  mkWorld (w_config w) (w_chan w) (w_sleeps w) (w_reqs w) n (w_wg w) (w_slots w).
Definition with_wg (n : Z) (w : World R C) : World R C :=
  mkWorld (w_config w) (w_chan w) (w_sleeps w) (w_reqs w) (w_nrand w) n (w_slots w).
Definition with_slots (n : Z) (w : World R C) : World R C :=
  mkWorld (w_config w) (w_chan w) (w_sleeps w) (w_reqs w) (w_nrand w) (w_wg w) n.

(** The world after the back-off of one failed attempt: a sleep of the
    shared delay, then the delay doubled in place. *)
Definition backoff (w : World R C) : World R C :=
  let d := get_delay (w_config w) in
  with_config (set_delay (Go.wrap64 (d * 2)) (w_config w))
              (with_sleeps (w_sleeps w ++ [d]) w).

(** The world after a request for [url] with user-agent [ua]. *)
Definition requested (url ua : string) (w : World R C) : World R C :=
  with_reqs (w_reqs w ++ [(url, ua)]) w.

(** [exec p w] runs [p] to its end with no other goroutine interfering:
    the results channel is open and drained, so a send never blocks.
    [rand.Intn] panics on a bound that is not positive, [wg.Done] on a
    counter that would become negative. *)
Fixpoint exec {A} (p : Prog R A) (w : World R C) : World R C * Res A :=
  match p with
  | Ret a => (w, Done a)
  | Panic msg => (w, Panicked msg)
  | RandIntn n k =>
      if n <=? 0 then (w, Panicked "invalid argument to Intn")
      else exec (k (rng env (w_nrand w) mod n)) (with_nrand (S (w_nrand w)) w)
  | ClientDo url ua k =>
      exec (k (server env (length (w_reqs w)) url ua))
           (with_reqs (w_reqs w ++ [(url, ua)]) w)
  | LoadDelay k => exec (k (get_delay (w_config w))) w
  | StoreDelay d k => exec k (with_config (set_delay d (w_config w)) w)
  | Sleep d k => exec k (with_sleeps (w_sleeps w ++ [d]) w)
  | Send r k => exec k (with_chan (w_chan w ++ [r]) w)
  | AtomicAdd delta k => exec k (with_slots (wrap32 (w_slots w + delta)) w)
  | WgDone k =>
      if w_wg w - 1 <? 0 then (w, Panicked "sync: negative WaitGroup counter")
      else exec k (with_wg (w_wg w - 1) w)
  end.

(** One worker running the tasks of [paths] one after the other, each
    after its [wg.Add(1)]: what the pool does when [concurrent] is 1
    (lemma [single_worker_run_is_sequential]). *)
Fixpoint exec_tasks (task : string -> Prog R unit) (paths : list string)
    (w : World R C) : World R C * Res unit :=
  match paths with
  | [] => (w, Done tt)
  | path :: rest =>
      match exec (task path) (with_wg (w_wg w + 1) w) with
      | (w', Done _) => exec_tasks task rest w'
      | (w', Panicked msg) => (w', Panicked msg)
      end
  end.
End Exec.

(** ** [runScanner] of [scan.go]: the goroutines interleaved *)

Module Pool.

(** A buffered channel. *)
Record Chan (A : Type) := mkChan {
  buf : list A;
  cap : nat;
  closed : bool
}.
Arguments mkChan {A}.
Arguments buf {A}.
Arguments cap {A}.
Arguments closed {A}.

Definition make {A} (n : nat) : Chan A := mkChan [] n false.
Definition full {A} (c : Chan A) : bool := (cap c <=? length (buf c))%nat.
Definition push {A} (x : A) (c : Chan A) : Chan A :=
  mkChan (buf c ++ [x]) (cap c) (closed c).
Definition pop {A} (c : Chan A) : Chan A :=
  mkChan (tail (buf c)) (cap c) (closed c).
Definition close {A} (c : Chan A) : Chan A :=
  mkChan (buf c) (cap c) true.

Inductive Tid :=
| Main
| Worker (i : nat)
| Collector.

(** Where the goroutine of [runScanner] stands, from the seeding loop on. *)
Inductive MainPc :=
| Seeding (rest : list string)
| Waiting
| ClosingResults
| Writing
| Exited.

(** Where a worker stands in
    [for path := range tasksChan { wg.Add(1); scanTarget(...) }]. *)
Inductive WorkerPc :=
| Receiving
| Adding (path : string)
| Running (p : Prog ScanResult unit)
| Stopped.

(** Where the goroutine that appends to [results] stands. *)
Inductive CollectorPc :=
| Collecting
| Drained.

Record Sys := mkSys {
  config : ScannerConfig;
  tasksChan : Chan string;
  resultsChan : Chan ScanResult;
  wg : Z;
  main : MainPc;
  workers : list WorkerPc;
  collector : CollectorPc;
  results : list ScanResult;
  written : option (list ScanResult);
  reqs : list (string * string);
  nrand : nat;
  sleeps : list Z;
  slots : Z;
  crashed : option string
}.

(** The state once [runScanner] has loaded [paths], made both channels
    with capacity [config.concurrent] and started its goroutines.  ([make]
    panics on a negative capacity; the state is that of a capacity of zero
    or more.) *)
Definition init (cfg : ScannerConfig) (paths : list string) : Sys :=
  {| config := cfg;
     tasksChan := make (Z.to_nat (concurrent cfg));
     resultsChan := make (Z.to_nat (concurrent cfg));
     wg := 0;
     main := Seeding paths;
     workers := replicate (Z.to_nat (concurrent cfg)) Receiving;
     collector := Collecting;
     results := [];
     written := None;
     reqs := [];
     nrand := 0%nat;
     sleeps := [];
     slots := 0;
     crashed := None |}.

Definition set_main (pc : MainPc) (s : Sys) : Sys :=
  mkSys (config s) (tasksChan s) (resultsChan s) (wg s) pc (workers s)
        (collector s) (results s) (written s) (reqs s) (nrand s) (sleeps s)
        (slots s) (crashed s).
Definition set_tasks (c : Chan string) (s : Sys) : Sys :=
  mkSys (config s) c (resultsChan s) (wg s) (main s) (workers s) (collector s)
        (results s) (written s) (reqs s) (nrand s) (sleeps s) (slots s)
        (crashed s).
Definition set_resultsChan (c : Chan ScanResult) (s : Sys) : Sys :=
  mkSys (config s) (tasksChan s) c (wg s) (main s) (workers s) (collector s)
        (results s) (written s) (reqs s) (nrand s) (sleeps s) (slots s)
        (crashed s).
Definition set_wg (n : Z) (s : Sys) : Sys :=
  mkSys (config s) (tasksChan s) (resultsChan s) n (main s) (workers s)
        (collector s) (results s) (written s) (reqs s) (nrand s) (sleeps s)
        (slots s) (crashed s).
Definition set_worker (i : nat) (pc : WorkerPc) (s : Sys) : Sys :=
  mkSys (config s) (tasksChan s) (resultsChan s) (wg s) (main s)
        (<[i := pc]> (workers s)) (collector s) (results s) (written s)
        (reqs s) (nrand s) (sleeps s) (slots s) (crashed s).
Definition set_collector (pc : CollectorPc) (s : Sys) : Sys :=
  mkSys (config s) (tasksChan s) (resultsChan s) (wg s) (main s) (workers s)
        pc (results s) (written s) (reqs s) (nrand s) (sleeps s) (slots s)
        (crashed s).
Definition set_results (rs : list ScanResult) (s : Sys) : Sys :=
  mkSys (config s) (tasksChan s) (resultsChan s) (wg s) (main s) (workers s)
        (collector s) rs (written s) (reqs s) (nrand s) (sleeps s) (slots s)
        (crashed s).
Definition set_written (o : option (list ScanResult)) (s : Sys) : Sys :=
  mkSys (config s) (tasksChan s) (resultsChan s) (wg s) (main s) (workers s)
        (collector s) (results s) o (reqs s) (nrand s) (sleeps s) (slots s)
        (crashed s).
Definition set_config (c : ScannerConfig) (s : Sys) : Sys :=
  mkSys c (tasksChan s) (resultsChan s) (wg s) (main s) (workers s)
        (collector s) (results s) (written s) (reqs s) (nrand s) (sleeps s)
        (slots s) (crashed s).
Definition set_reqs (rq : list (string * string)) (s : Sys) : Sys :=
  mkSys (config s) (tasksChan s) (resultsChan s) (wg s) (main s) (workers s)
        (collector s) (results s) (written s) rq (nrand s) (sleeps s)
        (slots s) (crashed s).
Definition set_nrand (n : nat) (s : Sys) : Sys :=
  mkSys (config s) (tasksChan s) (resultsChan s) (wg s) (main s) (workers s)
        (collector s) (results s) (written s) (reqs s) n (sleeps s) (slots s)
        (crashed s).
Definition set_sleeps (sl : list Z) (s : Sys) : Sys :=
  mkSys (config s) (tasksChan s) (resultsChan s) (wg s) (main s) (workers s)
        (collector s) (results s) (written s) (reqs s) (nrand s) sl (slots s)
        (crashed s).
Definition set_slots (n : Z) (s : Sys) : Sys :=
  mkSys (config s) (tasksChan s) (resultsChan s) (wg s) (main s) (workers s)
        (collector s) (results s) (written s) (reqs s) (nrand s) (sleeps s) n
        (crashed s).
Definition crash (msg : string) (s : Sys) : Sys :=
  mkSys (config s) (tasksChan s) (resultsChan s) (wg s) (main s) (workers s)
        (collector s) (results s) (written s) (reqs s) (nrand s) (sleeps s)
        (slots s) (Some msg).

Section Step.
Variable lib : Lib.
Variable env : Env.

(** One step of the main goroutine:
    [tasksChan <- path] (blocks while the buffer is full), then
    [close(tasksChan)], [wg.Wait()] (blocks while the counter is not
    zero), [close(resultsChan)], the writing of [results] to the output
    file, and the return from [main], which ends the process.

    The wait group is its counter.  The panics with which
    [sync.WaitGroup] itself answers an [Add] that runs while [Wait] is
    under way ("WaitGroup is reused before previous Wait has returned",
    "Add called concurrently with Wait") are not represented.  A run of
    this machine is a run of the code, the one in which [Wait] is called
    when the counter is zero; a run of the code is a run of this machine,
    cut short where [sync.WaitGroup] panics. *)
Definition step_main (s : Sys) : option Sys :=
  match main s with
  | Seeding (path :: rest) =>
      if full (tasksChan s) then None
      else Some (set_main (Seeding rest) (set_tasks (push path (tasksChan s)) s))
  | Seeding [] => Some (set_main Waiting (set_tasks (close (tasksChan s)) s))
  | Waiting => if wg s =? 0 then Some (set_main ClosingResults s) else None
  | ClosingResults =>
      Some (set_main Writing (set_resultsChan (close (resultsChan s)) s))
  | Writing => Some (set_main Exited (set_written (Some (results s)) s))
  | Exited => None
  end.

(** One effect of a running [scanTarget].  A send on a closed channel
    panics; a send on a full one blocks. *)
Definition step_prog (i : nat) (p : Prog ScanResult unit) (s : Sys) : option Sys :=
  match p with
  | Ret _ => Some (set_worker i Receiving s)
  | Panic msg => Some (crash msg s)
  | RandIntn n k =>
      if n <=? 0 then Some (crash "invalid argument to Intn" s)
      else Some (set_worker i (Running (k (rng env (nrand s) mod n)))
                   (set_nrand (S (nrand s)) s))
  | ClientDo url ua k =>
      Some (set_worker i (Running (k (server env (length (reqs s)) url ua)))
              (set_reqs (reqs s ++ [(url, ua)]) s))
  | LoadDelay k =>
      Some (set_worker i (Running (k (adaptiveDelay (config s)))) s)
  | StoreDelay d k =>
      Some (set_worker i (Running k)
              (set_config (set_adaptiveDelay d (config s)) s))
  | Sleep d k =>
      Some (set_worker i (Running k) (set_sleeps (sleeps s ++ [d]) s))
  | Send r k =>
      if closed (resultsChan s) then Some (crash "send on closed channel" s)
      else if full (resultsChan s) then None
      else Some (set_worker i (Running k)
                   (set_resultsChan (push r (resultsChan s)) s))
  | AtomicAdd delta k =>
      Some (set_worker i (Running k) (set_slots (wrap32 (slots s + delta)) s))
  | WgDone k =>
      if wg s - 1 <? 0
      then Some (crash "sync: negative WaitGroup counter" s)
      else Some (set_worker i (Running k) (set_wg (wg s - 1) s))
  end.

(** One step of worker [i]. *)
Definition step_worker (i : nat) (s : Sys) : option Sys :=
  match workers s !! i with
  | Some Receiving =>
      match buf (tasksChan s) with
      | path :: _ => Some (set_worker i (Adding path) (set_tasks (pop (tasksChan s)) s))
      | [] => if closed (tasksChan s) then Some (set_worker i Stopped s) else None
      end
  | Some (Adding path) =>
      Some (set_worker i
              (Running (Scan.scanTarget lib (baseURL (config s)) path
                          (userAgents (config s))))
              (set_wg (wg s + 1) s))
  | Some (Running p) => step_prog i p s
  | Some Stopped | None => None
  end.

(** One step of [for result := range resultsChan]. *)
Definition step_collector (s : Sys) : option Sys :=
  match collector s with
  | Collecting =>
      match buf (resultsChan s) with
      | r :: _ =>
          Some (set_results (results s ++ [r])
                  (set_resultsChan (pop (resultsChan s)) s))
      | [] =>
          if closed (resultsChan s) then Some (set_collector Drained s)
          else None
      end
  | Drained => None
  end.

(** A goroutine moves only while the process lives: no panic has
    occurred and [main] has not returned. *)
Definition alive (s : Sys) : bool :=
  match crashed s, main s with
  | None, Exited => false
  | None, _ => true
  | Some _, _ => false
  end.

Definition step (t : Tid) (s : Sys) : option Sys :=
  if alive s then
    match t with
    | Main => step_main s
    | Worker i => step_worker i s
    | Collector => step_collector s
    end
  else None.

(** A schedule is the list of goroutines in the order they move;
    [None] when it asks a blocked or ended goroutine to move. *)
Fixpoint run (sched : list Tid) (s : Sys) : option Sys :=
  match sched with
  | [] => Some s
  | t :: sched' =>
      match step t s with
      | Some s' => run sched' s'
      | None => None
      end
  end.
End Step.

End Pool.

(** ** The DNS cache and the dialer built on it *)

Module Dns.
Import Go.

Record dnsCacheEntry := {
  ip : string;
  timestamp : Z
}.

(** The network as the cache sees it: what the [n]-th call of
    [net.LookupHost] returns (addresses, or an error text) and how long it
    takes, and the error of a dial, if any. *)
Record Net := {
  LookupHost : nat -> string -> list string + string;
  took : nat -> Z;
  Dial : string -> string -> option string
}.

(** The cache with the clock and the calls made so far. *)
Record State := mkState {
  entries : gmap string dnsCacheEntry;
  clock : Z;
  lookups : list string;
  dials : list (string * string)
}.

Definition newDNSCache (now : Z) : State := mkState ∅ now [] [].

(** [time.Since(t) < 5*time.Minute] *)
Definition fresh (now : Z) (e : dnsCacheEntry) : bool :=
  saturate64 (now - timestamp e) <? 5 * Minute.

(** The slow path of [lookup]: one call of [net.LookupHost], then
    [ips[0]] and the store under the write lock. *)
Definition resolve (net : Net) (host : string) (s : State)
  : State * Res (string * option string) :=
  let n := length (lookups s) in
  let s1 := mkState (entries s) (clock s + took net n) (lookups s ++ [host])
                    (dials s) in
  match LookupHost net n host with
  | inr e => (s1, Done ("", Some e))
  | inl [] => (s1, Panicked "index out of range")
  | inl (ip0 :: _) =>
      (mkState (<[host := {| ip := ip0; timestamp := clock s1 |}]> (entries s1))
               (clock s1) (lookups s1) (dials s1),
       Done (ip0, None))
  end.

(** [(c *dnsCache) lookup(host)]; the result is the pair the Go function
    returns. *)
Definition lookup (net : Net) (host : string) (s : State)
  : State * Res (string * option string) :=
  match entries s !! host with
  | Some entry =>
      if fresh (clock s) entry then (s, Done (ip entry, None))
      else resolve net host s
  | None => resolve net host s
  end.

(** [(c *dnsCache) cachedDialContext(ctx, network, addr)]: [inl a] is a
    connection to [a], [inr e] an error. *)
Definition cachedDialContext (net : Net) (network addr : string) (s : State)
  : State * Res (string + string) :=
  let separator := LastIndex addr ":" in
  match slice_to addr separator, slice_from addr separator with
  | Some host, Some port =>
      match lookup net host s with
      | (s', Done (_, Some e)) => (s', Done (inr e))
      | (s', Done (ip0, None)) =>
          let addr' := ip0 ++ port in
          (mkState (entries s') (clock s') (lookups s')
                   (dials s' ++ [(network, addr')]),
           match Dial net network addr' with
           | Some e => Done (inr e)
           | None => Done (inl addr')
           end)
      | (s', Panicked msg) => (s', Panicked msg)
      end
  | _, _ => (s, Panicked "slice bounds out of range")
  end.

End Dns.

(** ** [loadPaths] *)

Module Paths.
Import Go.

(** What the file system holds under a name: a file that cannot be
    opened, or bytes, possibly followed by a read error. *)
Inductive File :=
| OpenError (e : string)
| Contents (data : string) (read_err : option string).

(** [strings.Split(data, "\n")], as its first piece and the others. *)
Fixpoint split_lf (data : string) : string * list string :=
  match data with
  | EmptyString => (EmptyString, [])
  | String c rest =>
      let (l, ls) := split_lf rest in
      if Ascii.eqb c lf then (EmptyString, l :: ls) else (String c l, ls)
  end.

Definition Split (data : string) : list string :=
  let (l, ls) := split_lf data in l :: ls.

(** [bufio.ScanLines] yields every piece but an empty last one... *)
Fixpoint drop_empty_last (ls : list string) : list string :=
  match ls with
  | [] => []
  | [l] => if String.eqb l "" then [] else [l]
  | l :: ls' => l :: drop_empty_last ls'
  end.

(** ...without one trailing carriage return. *)
Fixpoint dropCR (s : string) : string :=
  match s with
  | EmptyString => EmptyString
  | String c EmptyString => if Ascii.eqb c cr then EmptyString else s
  | String c s' => String c (dropCR s')
  end.

(** [bufio.MaxScanTokenSize]: a line must fit, with its terminator, in a
    buffer of this size. *)
Definition MaxScanTokenSize : Z := 64 * 1024.
Definition too_long (l : string) : bool := MaxScanTokenSize <=? len l.
Definition ErrTooLong : string := "bufio.Scanner: token too long".

(** [loadPaths] of the root package: [inl paths] or [inr err]. *)
Definition loadPaths (fs : string -> File) (filePath : string)
  : list string + string :=
  match fs filePath with
  | OpenError e => inr e
  | Contents data read_err =>
      let raw := drop_empty_last (Split data) in
      if existsb too_long raw then inr ErrTooLong
      else match read_err with
           | Some e => inr e
           | None => inl (map dropCR raw)
           end
  end.

(** [loadPaths] of [cmd/main.go]: the pieces with something left after
    [strings.TrimSpace] are kept, as they are. *)
Definition loadPaths_cmd (lib : Lib) (fs : string -> File) (filePath : string)
  : list string + string :=
  match fs filePath with
  | OpenError e => inr e
  | Contents _ (Some e) => inr e
  | Contents data None =>
      inl (List.filter (fun line => 0 <? len (TrimSpace lib line))
                       (Split data))
  end.

End Paths.

(** ** [main] of [main.go] and the sequential parts of [runScanner] *)

Module Root.
Import Go.

(** The flags as [flag.Parse] leaves them. *)
Record Flags := {
  flag_url : string;
  flag_paths : string;
  flag_concurrent : Z;
  flag_timeout : Z;
  flag_adaptiveDelay : Z;
  flag_o : string;
  flag_f : string
}.

(** The values the flags have when the command line gives none. *)
Definition defaults : Flags :=
  {| flag_url := ""; flag_paths := ""; flag_concurrent := 10;
     flag_timeout := 10 * Second; flag_adaptiveDelay := 100 * Millisecond;
     flag_o := "text"; flag_f := "" |}.

(** What [main] does: print the usage and return, or call [runScanner]. *)
Inductive Started :=
| Usage
| RunScanner (config : ScannerConfig).

Definition main (fl : Flags) : Started :=
  if String.eqb (flag_url fl) "" || String.eqb (flag_paths fl) ""
     || String.eqb (flag_f fl) ""
  then Usage
  else RunScanner
         {| baseURL := flag_url fl;
            pathsFile := flag_paths fl;
            concurrent := flag_concurrent fl;
            timeout := flag_timeout fl;
            userAgents := defaultUserAgents;
            adaptiveDelay := flag_adaptiveDelay fl;
            outputFormat := flag_o fl;
            outputFile := flag_f fl |}.

(** What [runScanner] relies on besides the network: the largest capacity
    with which the runtime makes a channel of [ScanResult] (one of strings
    of that capacity, whose elements are smaller, is made as well),
    [os.Create] (its error, if any) and the two encoders (their output, or
    an error). *)
Record Os := {
  chan_limit : Z;
  Create : string -> option string;
  json_MarshalIndent : list ScanResult -> string + string;
  xml_MarshalIndent : list ScanResult -> string + string
}.

(** [make(chan T, size)] panics when [size] is negative and when the
    buffer would be larger than the runtime allocates. *)
Definition makechan_panics (os : Os) (size : Z) : bool :=
  (size <? 0) || (chan_limit os <? size).

(** [runScanner] up to the start of its goroutines: the paths are loaded
    and both channels made. *)
Inductive Setup :=
| LoadFailed (printed : string)
| MakechanPanic
| Pooled (s : Pool.Sys).

Definition setup (os : Os) (fs : string -> Paths.File) (config : ScannerConfig)
  : Setup :=
  match Paths.loadPaths fs (pathsFile config) with
  | inr e => LoadFailed ("Failed to load paths: " ++ e ++ nl)
  | inl paths =>
      if makechan_panics os (concurrent config) then MakechanPanic
      else Pooled (Pool.init config paths)
  end.

(** [%d] *)
Definition Itoa (z : Z) : string := NilZero.string_of_int (Z.to_int z).

Definition dquote : string := String "034"%char "".

(** [xml.Header] *)
Definition xml_Header : string :=
  "<?xml version=" ++ dquote ++ "1.0" ++ dquote ++ " encoding=" ++ dquote
  ++ "UTF-8" ++ dquote ++ "?>" ++ nl.

(** What the [default] case writes for one result. *)
Definition text_line (r : ScanResult) : string :=
  if negb (String.eqb (ErrorMessage r) "") then ErrorMessage r ++ nl
  else "URL: " ++ URL r ++ ", Status: " ++ Status r
       ++ ", HTTP Status Code: " ++ Itoa (StatusCode r) ++ nl.

(** How [runScanner] ends once the pool is done: [log.Fatal] (with the
    file left empty when it was created), or the file written. *)
Inductive Ended :=
| Fatal (msg : string) (created : option string)
| Saved (name contents : string).

Definition save (os : Os) (config : ScannerConfig) (results : list ScanResult)
  : Ended :=
  if String.eqb (outputFile config) ""
  then Fatal "Output filename is required when specifying an output format" None
  else
    match Create os (outputFile config) with
    | Some e => Fatal ("Failed to create output file: " ++ e) None
    | None =>
        if String.eqb (outputFormat config) "json" then
          match json_MarshalIndent os results with
          | inr e => Fatal ("Failed to generate JSON output: " ++ e)
                           (Some (outputFile config))
          | inl output => Saved (outputFile config) output
          end
        else if String.eqb (outputFormat config) "xml" then
          match xml_MarshalIndent os results with
          | inr e => Fatal ("Failed to generate XML output: " ++ e)
                           (Some (outputFile config))
          | inl output => Saved (outputFile config) (xml_Header ++ output)
          end
        else Saved (outputFile config) (String.concat "" (map text_line results))
    end.

(** How a call of [runScanner] ends under a schedule of its goroutines;
    [None] when the schedule is not one of a whole run.  [Crashed] is a
    panic of [make] or one the pool represents; a run that [sync.WaitGroup]
    cuts short has no outcome here. *)
Inductive Outcome :=
| NotStarted (printed : string)
| Crashed (msg : string)
| Finished (e : Ended).

Definition runScanner (lib : Lib) (env : Env) (os : Os) (fs : string -> Paths.File)
    (sched : list Pool.Tid) (config : ScannerConfig) : option Outcome :=
  match setup os fs config with
  | LoadFailed printed => Some (NotStarted printed)
  | MakechanPanic => Some (Crashed "makechan: size out of range")
  | Pooled s0 =>
      match Pool.run lib env sched s0 with
      | None => None
      | Some s =>
          match Pool.crashed s, Pool.written s with
          | Some msg, _ => Some (Crashed msg)
          | None, Some results => Some (Finished (save os config results))
          | None, None => None
          end
      end
  end.

End Root.

(** ** The DNS cache of [cmd/main.go] *)

Module CmdDns.

(** The network as [resolve] sees it: what the [n]-th call of
    [net.LookupHost] returns, and [net.ParseIP]. *)
Record Net (IP : Type) := {
  LookupHost : nat -> string -> list string + string;
  ParseIP : string -> IP
}.
Arguments LookupHost {IP}.
Arguments ParseIP {IP}.

(** The cache (each [*net.IPAddr] by its IP) and the calls made so far. *)
Record State (IP : Type) := mkState {
  cache : gmap string IP;
  lookups : list string
}.
Arguments mkState {IP}.
Arguments cache {IP}.
Arguments lookups {IP}.

(** [check(err)] *)
Definition check (err : option string) : Res unit :=
  match err with
  | Some e => Panicked e
  | None => Done tt
  end.

(** [(dc *dnsCache) resolve(host)]: the pair the Go function returns, or
    the panic of [check] or of [ips[0]]. *)
Definition resolve {IP} (net : Net IP) (host : string) (s : State IP)
  : State IP * Res (IP * option string) :=
  match cache s !! host with
  | Some ip => (s, Done (ip, None))
  | None =>
      let s1 := mkState (cache s) (lookups s ++ [host]) in
      let (ips, err) :=
        match LookupHost net (length (lookups s)) host with
        | inl ips => (ips, None)
        | inr e => ([], Some e)
        end in
      match check err with
      | Panicked msg => (s1, Panicked msg)
      | Done _ =>
          match ips with
          | [] => (s1, Panicked "index out of range")
          | ip0 :: _ =>
              (mkState (<[host := ParseIP net ip0]> (cache s1)) (lookups s1),
               Done (ParseIP net ip0, None))
          end
      end
  end.

End CmdDns.

(** ** [main] of [cmd/main.go]: one goroutine per path *)

Module CmdPool.
Import Go.

(** [NewDefaultScannerConfig]. *)
Definition NewDefaultScannerConfig : Cmd.ScannerConfig :=
  {| Cmd.BaseURL := "https://example.com";
     Cmd.PathsFile := "./paths.txt";
     Cmd.Concurrent := 10;
     Cmd.Timeout := 10 * Second;
     Cmd.AdaptiveDelay := 100 * Millisecond |}.

(** The [userAgents] of [main]. *)
Definition userAgents : list string := [
  "Mozilla/5.0 (Windows NT 10.0; Win64; x64) AppleWebKit/537.36 (KHTML, like Gecko) Chrome/58.0.3029.110 Safari/537.3";
  "Mozilla/5.0 (Macintosh; Intel Mac OS X 10_15_7) AppleWebKit/605.1.15 (KHTML, like Gecko) Version/14.0.3 Safari/605.1.15";
  "Mozilla/5.0 (X11; Linux x86_64) AppleWebKit/537.36 (KHTML, like Gecko) Chrome/88.0.4324.150 Safari/537.36";
  "Mozilla/5.0 (Windows NT 10.0; WOW64) AppleWebKit/537.36 (KHTML, like Gecko) Chrome/54.0.2840.99 Safari/537.36";
  "Mozilla/5.0 (iPad; CPU OS 13_2 like Mac OS X) AppleWebKit/605.1.15 (KHTML, like Gecko) Version/13.0.1 Mobile/15E148 Safari/604.1";
  "Mozilla/5.0 (iPhone; CPU iPhone OS 13_2 like Mac OS X) AppleWebKit/605.1.15 (KHTML, like Gecko) Version/13.0.1 Mobile/15E148 Safari/604.1";
  "Mozilla/5.0 (Android 10; Mobile; rv:68.0) Gecko/68.0 Firefox/68.0";
  "Mozilla/5.0 (Linux; Android 10; SM-G975F) AppleWebKit/537.36 (KHTML, like Gecko) Chrome/77.0.3865.92 Mobile Safari/537.36";
  "Mozilla/5.0 (Windows NT 6.1; Win64; x64) AppleWebKit/537.36 (KHTML, like Gecko) Chrome/60.0.3112.113 Safari/537.36";
  "Mozilla/5.0 (X11; Ubuntu; Linux x86_64; rv:52.0) Gecko/20100101 Firefox/52.0";
  "Mozilla/5.0 (Macintosh; Intel Mac OS X 10_14_6) AppleWebKit/537.36 (KHTML, like Gecko) Chrome/77.0.3865.90 Safari/537.36";
  "Mozilla/5.0 (compatible; MSIE 10.0; Windows NT 6.2; Trident/6.0)";
  "Mozilla/5.0 (Windows NT 6.3; WOW64; Trident/7.0; rv:11.0) like Gecko";
  "Mozilla/5.0 (compatible; Googlebot/2.1; +http://www.google.com/bot.html)";
  "Mozilla/5.0 (compatible; Bingbot/2.0; +http://www.bing.com/bingbot.htm)";
  "Mozilla/5.0 (Linux; Android 6.0.1; Nexus 5X Build/MMB29P) AppleWebKit/537.36 (KHTML, like Gecko) Chrome/41.0.2272.96 Mobile Safari/537.36 (compatible; Googlebot/2.1; +http://www.google.com/bot.html)";
  "Mozilla/5.0 (compatible; Yahoo! Slurp; http://help.yahoo.com/help/us/ysearch/slurp)";
  "DuckDuckBot/1.0; (+http://duckduckgo.com/duckduckbot.html)";
  "Mozilla/5.0 (compatible; Baiduspider/2.0; +http://www.baidu.com/search/spider.html)";
  "Mozilla/5.0 (compatible; YandexBot/3.0; +http://yandex.com/bots)";
  "Mozilla/5.0 (compatible; Pinterestbot/1.0; +http://www.pinterest.com/bot.html)";
  "Mozilla/5.0 (compatible; Discordbot/2.0; +https://discordapp.com)";
  "Mozilla/5.0 (Slackbot 1.0; +http://www.slack.com)"
].

Inductive Tid :=
| Main
| Task (i : nat)
| Closer.

(** Where [main] stands: in [for _, path := range paths], in
    [for r := range results], or returned. *)
Inductive MainPc :=
| Spawning (rest : list string)
| Printing
| Exited.

(** Where [go func() { wg.Wait(); close(results) }()] stands. *)
Inductive CloserPc :=
| Unstarted
| Waiting
| Closing
| Closed.

(** [tasks] holds, for every goroutine started by [go scanTarget(...)],
    what it has left to run; [spawned] the paths they were started for. *)
Record Sys := mkSys {
  config : Cmd.ScannerConfig;
  resultsChan : Pool.Chan string;
  wg : Z;
  concurrent32 : Z;
  main : MainPc;
  tasks : list (Prog string unit);
  spawned : list string;
  closer : CloserPc;
  printed : list string;
  reqs : list (string * string);
  nrand : nat;
  sleeps : list Z;
  crashed : option string
}.

(** The state when [main] has parsed its flags into [cfg], loaded [paths]
    and made [results] with capacity [len(paths)];
    [concurrent32 := int32(cfg.Concurrent)] truncates. *)
Definition init (cfg : Cmd.ScannerConfig) (paths : list string) : Sys :=
  {| config := cfg;
     resultsChan := Pool.make (length paths);
     wg := 0;
     concurrent32 := wrap32 (Cmd.Concurrent cfg);
     main := Spawning paths;
     tasks := [];
     spawned := [];
     closer := Unstarted;
     printed := [];
     reqs := [];
     nrand := 0%nat;
     sleeps := [];
     crashed := None |}.

(** [paths, err := loadPaths(cfg.PathsFile); check(err)]: an error is a
    panic. *)
Definition start (lib : Lib) (fs : string -> Paths.File) (cfg : Cmd.ScannerConfig)
  : Res Sys :=
  match Paths.loadPaths_cmd lib fs (Cmd.PathsFile cfg) with
  | inr e => Panicked e
  | inl paths => Done (init cfg paths)
  end.

Definition set_main (pc : MainPc) (s : Sys) : Sys :=
  mkSys (config s) (resultsChan s) (wg s) (concurrent32 s) pc (tasks s)
        (spawned s) (closer s) (printed s) (reqs s) (nrand s) (sleeps s)
        (crashed s).
Definition set_resultsChan (c : Pool.Chan string) (s : Sys) : Sys :=
  mkSys (config s) c (wg s) (concurrent32 s) (main s) (tasks s) (spawned s)
        (closer s) (printed s) (reqs s) (nrand s) (sleeps s) (crashed s).
Definition set_wg (n : Z) (s : Sys) : Sys :=
  mkSys (config s) (resultsChan s) n (concurrent32 s) (main s) (tasks s)
        (spawned s) (closer s) (printed s) (reqs s) (nrand s) (sleeps s)
        (crashed s).
Definition set_concurrent32 (n : Z) (s : Sys) : Sys :=
  mkSys (config s) (resultsChan s) (wg s) n (main s) (tasks s) (spawned s)
        (closer s) (printed s) (reqs s) (nrand s) (sleeps s) (crashed s).
Definition set_task (i : nat) (p : Prog string unit) (s : Sys) : Sys :=
  mkSys (config s) (resultsChan s) (wg s) (concurrent32 s) (main s)
        (<[i := p]> (tasks s)) (spawned s) (closer s) (printed s) (reqs s)
        (nrand s) (sleeps s) (crashed s).
Definition spawn (path : string) (p : Prog string unit) (s : Sys) : Sys :=
  mkSys (config s) (resultsChan s) (wg s) (concurrent32 s) (main s)
        (tasks s ++ [p]) (spawned s ++ [path]) (closer s) (printed s) (reqs s)
        (nrand s) (sleeps s) (crashed s).
Definition set_closer (pc : CloserPc) (s : Sys) : Sys :=
  mkSys (config s) (resultsChan s) (wg s) (concurrent32 s) (main s) (tasks s)
        (spawned s) pc (printed s) (reqs s) (nrand s) (sleeps s) (crashed s).
Definition set_printed (out : list string) (s : Sys) : Sys :=
  mkSys (config s) (resultsChan s) (wg s) (concurrent32 s) (main s) (tasks s)
        (spawned s) (closer s) out (reqs s) (nrand s) (sleeps s) (crashed s).
Definition set_config (c : Cmd.ScannerConfig) (s : Sys) : Sys :=
  mkSys c (resultsChan s) (wg s) (concurrent32 s) (main s) (tasks s)
        (spawned s) (closer s) (printed s) (reqs s) (nrand s) (sleeps s)
        (crashed s).
Definition set_reqs (rq : list (string * string)) (s : Sys) : Sys :=
  mkSys (config s) (resultsChan s) (wg s) (concurrent32 s) (main s) (tasks s)
        (spawned s) (closer s) (printed s) rq (nrand s) (sleeps s) (crashed s).
Definition set_nrand (n : nat) (s : Sys) : Sys :=
  mkSys (config s) (resultsChan s) (wg s) (concurrent32 s) (main s) (tasks s)
        (spawned s) (closer s) (printed s) (reqs s) n (sleeps s) (crashed s).
Definition set_sleeps (sl : list Z) (s : Sys) : Sys :=
  mkSys (config s) (resultsChan s) (wg s) (concurrent32 s) (main s) (tasks s)
        (spawned s) (closer s) (printed s) (reqs s) (nrand s) sl (crashed s).
Definition crash (msg : string) (s : Sys) : Sys :=
  mkSys (config s) (resultsChan s) (wg s) (concurrent32 s) (main s) (tasks s)
        (spawned s) (closer s) (printed s) (reqs s) (nrand s) (sleeps s)
        (Some msg).

Section Step.
Variable lib : Lib.
Variable env : Env.

(** One step of [main]: an iteration of the loop over [paths], which
    starts a goroutine when [atomic.LoadInt32(&concurrent32) > 0] and
    sleeps otherwise; the start of the closing goroutine; the receipt and
    printing of one result; the return once [results] is closed and
    drained. *)
Definition step_main (s : Sys) : option Sys :=
  match main s with
  | Spawning (path :: rest) =>
      if 0 <? concurrent32 s
      then Some (set_main (Spawning rest)
                   (spawn path (Cmd.scanTarget lib (Cmd.BaseURL (config s)) path
                                               userAgents)
                      (set_wg (wg s + 1) s)))
      else Some (set_main (Spawning rest)
                   (set_sleeps (sleeps s ++ [Cmd.AdaptiveDelay (config s)]) s))
  | Spawning [] => Some (set_main Printing (set_closer Waiting s))
  | Printing =>
      match Pool.buf (resultsChan s) with
      | r :: _ =>
          Some (set_printed (printed s ++ [r])
                  (set_resultsChan (Pool.pop (resultsChan s)) s))
      | [] => if Pool.closed (resultsChan s) then Some (set_main Exited s) else None
      end
  | Exited => None
  end.

(** One step of [wg.Wait(); close(results)]. *)
Definition step_closer (s : Sys) : option Sys :=
  match closer s with
  | Waiting => if wg s =? 0 then Some (set_closer Closing s) else None
  | Closing =>
      Some (set_closer Closed (set_resultsChan (Pool.close (resultsChan s)) s))
  | Unstarted | Closed => None
  end.

(** One effect of goroutine [i]; a goroutine whose function has returned
    moves no more. *)
Definition step_task (i : nat) (s : Sys) : option Sys :=
  match tasks s !! i with
  | None | Some (Ret _) => None
  | Some (Panic msg) => Some (crash msg s)
  | Some (RandIntn n k) =>
      if n <=? 0 then Some (crash "invalid argument to Intn" s)
      else Some (set_task i (k (rng env (nrand s) mod n)) (set_nrand (S (nrand s)) s))
  | Some (ClientDo url ua k) =>
      Some (set_task i (k (server env (length (reqs s)) url ua))
              (set_reqs (reqs s ++ [(url, ua)]) s))
  | Some (LoadDelay k) => Some (set_task i (k (Cmd.AdaptiveDelay (config s))) s)
  | Some (StoreDelay d k) =>
      Some (set_task i k (set_config (Cmd.set_AdaptiveDelay d (config s)) s))
  | Some (Sleep d k) => Some (set_task i k (set_sleeps (sleeps s ++ [d]) s))
  | Some (Send r k) =>
      if Pool.closed (resultsChan s) then Some (crash "send on closed channel" s)
      else if Pool.full (resultsChan s) then None
      else Some (set_task i k (set_resultsChan (Pool.push r (resultsChan s)) s))
  | Some (AtomicAdd delta k) =>
      Some (set_task i k (set_concurrent32 (wrap32 (concurrent32 s + delta)) s))
  | Some (WgDone k) =>
      if wg s - 1 <? 0 then Some (crash "sync: negative WaitGroup counter" s)
      else Some (set_task i k (set_wg (wg s - 1) s))
  end.

Definition alive (s : Sys) : bool :=
  match crashed s, main s with
  | None, Exited => false
  | None, _ => true
  | Some _, _ => false
  end.

Definition step (t : Tid) (s : Sys) : option Sys :=
  if alive s then
    match t with
    | Main => step_main s
    | Task i => step_task i s
    | Closer => step_closer s
    end
  else None.

Fixpoint run (sched : list Tid) (s : Sys) : option Sys :=
  match sched with
  | [] => Some s
  | t :: sched' =>
      match step t s with
      | Some s' => run sched' s'
      | None => None
      end
  end.
End Step.

End CmdPool.

(** ** Inputs used to run the definitions *)

Module Fixtures.
Import Go.

(** Every URL yields a request; [TrimSpace] has nothing to trim. *)
Definition lib_ok : Lib :=
  {| NewRequest := fun _ => None; TrimSpace := fun s => s |}.

Definition agents : list string := ["agent-a"; "agent-b"; "agent-c"].

(** A server that answers every request with the same status. *)
Definition always (code : Z) : Env :=
  {| server := fun _ _ _ => respond code; rng := fun k => Z.of_nat k |}.

(** A server no request reaches. *)
Definition unreachable : Env :=
  {| server := fun _ _ _ => fail "dial tcp: i/o timeout";
     rng := fun k => Z.of_nat k |}.

Definition cfg (d : Z) : ScannerConfig :=
  {| baseURL := "http://test.local"; pathsFile := "paths.txt";
     concurrent := 1; timeout := 10 * Second; userAgents := agents;
     adaptiveDelay := d; outputFormat := "text"; outputFile := "out.txt" |}.

(** The same with [n] workers. *)
Definition pool_cfg (n d : Z) : ScannerConfig :=
  {| baseURL := "http://test.local"; pathsFile := "paths.txt";
     concurrent := n; timeout := 10 * Second; userAgents := agents;
     adaptiveDelay := d; outputFormat := "text"; outputFile := "out.txt" |}.

Definition cfg_single (d : Z) : Single.ScannerConfig :=
  {| Single.baseURL := "http://test.local"; Single.pathsFile := "paths.txt";
     Single.concurrent := 1; Single.timeout := 10 * Second;
     Single.userAgents := agents; Single.adaptiveDelay := d |}.

Definition cfg_cmd (d : Z) : Cmd.ScannerConfig :=
  {| Cmd.BaseURL := "http://test.local"; Cmd.PathsFile := "paths.txt";
     Cmd.Concurrent := 1; Cmd.Timeout := 10 * Second;
     Cmd.AdaptiveDelay := d |}.

(** A task about to run: nothing sent, slept or requested yet, and the
    wait-group counter raised by the worker's [wg.Add(1)]. *)
Definition fresh_world {R C} (c : C) : World R C :=
  mkWorld c [] [] [] 0%nat 1 1.

(** A resolver that knows every host, one that knows none, and a cache
    that has held an address for [test.local] for one minute. *)
Definition resolver_up : Dns.Net :=
  {| Dns.LookupHost := fun _ _ => inl ["192.0.2.7"; "192.0.2.8"];
     Dns.took := fun _ => 20 * Millisecond;
     Dns.Dial := fun _ _ => None |}.

Definition resolver_down : Dns.Net :=
  {| Dns.LookupHost := fun _ _ => inr "lookup test.local: no such host";
     Dns.took := fun _ => 20 * Millisecond;
     Dns.Dial := fun _ _ => None |}.

Definition warm_cache : Dns.State :=
  Dns.mkState {[ "test.local" := {| Dns.ip := "192.0.2.1"; Dns.timestamp := 0 |} ]}
              (1 * Minute) ["test.local"] [].

(** A disk with one file of paths. *)
Definition listing : string :=
  "/admin" ++ nl ++ "/robots.txt" ++ String cr nl ++ "/secret".

Definition disk (name : string) : Paths.File :=
  if String.eqb name "paths.txt" then Paths.Contents listing None
  else Paths.OpenError ("open " ++ name ++ ": no such file").

Definition scan (env : Env) (d : Z) (path : string)
  : World ScanResult ScannerConfig * Res unit :=
  exec env (Scan.scanTarget lib_ok "http://test.local" path agents)
       (fresh_world (cfg d)).

Definition scan_single (env : Env) (d : Z) (path : string)
  : World string Single.ScannerConfig * Res unit :=
  exec env (Single.scanTarget lib_ok "http://test.local" path agents)
       (fresh_world (cfg_single d)).

Definition scan_cmd (env : Env) (d : Z) (path : string)
  : World string Cmd.ScannerConfig * Res unit :=
  exec env (Cmd.scanTarget lib_ok "http://test.local" path agents)
       (fresh_world (cfg_cmd d)).
End Fixtures.

(** ** Further inputs *)

Module Samples.
Import Go.

(** [-url http://test.local -paths paths.txt -concurrent 1 -f out.txt] *)
Definition flags : Root.Flags :=
  {| Root.flag_url := "http://test.local"; Root.flag_paths := "paths.txt";
     Root.flag_concurrent := 1; Root.flag_timeout := 10 * Second;
     Root.flag_adaptiveDelay := 100 * Millisecond;
     Root.flag_o := "text"; Root.flag_f := "out.txt" |}.

(** A disk whose every file holds the one line [/robots.txt]. *)
Definition one_path (name : string) : Paths.File :=
  Paths.Contents ("/robots.txt" ++ nl) None.

(** A file system on which every file can be created, with encoders that
    are never called on the text format. *)
Definition os_ok : Root.Os :=
  {| Root.chan_limit := 2 ^ 40;
     Root.Create := fun _ => None;
     Root.json_MarshalIndent := fun _ => inl "null";
     Root.xml_MarshalIndent := fun _ => inl "" |}.

(** A schedule of the pool in which the worker runs its one task before
    [runScanner] waits, and the collector its loop before the writing. *)
Definition in_order : list Pool.Tid :=
  ([Pool.Main] ++ replicate 7 (Pool.Worker 0) ++ replicate 3 Pool.Main
   ++ replicate 2 Pool.Collector ++ [Pool.Main])%list.


(** A schedule of [cmd/main.go] for one path: the goroutine is started,
    runs to its end, the channel is closed, the line printed. *)
Definition cmd_in_order : list CmdPool.Tid :=
  ([CmdPool.Main] ++ replicate 7 (CmdPool.Task 0) ++ [CmdPool.Main]
   ++ replicate 2 CmdPool.Closer ++ replicate 2 CmdPool.Main)%list.


(** The cache of [test.local] of [Fixtures.resolver_up], one minute and
    six minutes after the lookup that filled it. *)
Definition filled : Dns.State :=
  (Dns.lookup Fixtures.resolver_up "test.local" (Dns.newDNSCache 0)).1.
Definition later (d : Z) : Dns.State :=
  Dns.mkState (Dns.entries filled) (Dns.clock filled + d) (Dns.lookups filled) [].

(** A resolver for [cmd/main.go] that knows every host, and one that
    knows none. *)
Definition cmd_resolver_up : CmdDns.Net string :=
  {| CmdDns.LookupHost := fun _ _ => inl ["192.0.2.7"; "192.0.2.8"];
     CmdDns.ParseIP := fun a => a |}.
Definition cmd_resolver_down : CmdDns.Net string :=
  {| CmdDns.LookupHost := fun _ _ => inr "lookup test.local: no such host";
     CmdDns.ParseIP := fun a => a |}.
End Samples.

(** ** Vocabulary of the statements *)

(** One doubling of a delay, [*adaptiveDelay *= 2] or [delay *= 2], and the
    delays slept by [j] back-offs in a row that start from [d]. *)
Definition dbl (d : Z) : Z := Go.wrap64 (d * 2).

Fixpoint doublings (j : nat) (d : Z) : list Z :=
  match j with
  | O => []
  | S j' => d :: doublings j' (dbl d)
  end.

(** [client.Do] failed: an error came back, or no response. *)
Definition failed (r : DoResult) : Prop :=
  do_err r <> None \/ do_resp r = None.

(** The per-task state machine.  After an attempt the task is done
    ([Terminal]), makes the next attempt at once ([RetryAtOnce]), or backs
    off and then makes the next attempt ([BackoffRetry]). *)
Inductive Transition :=
| Terminal
| RetryAtOnce
| BackoffRetry.

(** The transition the claim words give: a network error or a status of
    500 and above backs off and is retried; every other response (200, 429
    and the rest) is terminal. *)
Definition claimed_transition (r : DoResult) : Transition :=
  match do_err r, do_resp r with
  | None, Some code => if 500 <=? code then BackoffRetry else Terminal
  | _, _ => BackoffRetry
  end.

(** The transition [scan.go] is shown to make: only an error (or a missing
    response) backs off; a 404 is tried again at once; every other response
    is terminal. *)
Definition transition (r : DoResult) : Transition :=
  match do_err r, do_resp r with
  | None, Some code => if code =? Go.StatusNotFound then RetryAtOnce else Terminal
  | _, _ => BackoffRetry
  end.

(** The responses a task sees when it follows [tr] for at most [n] attempts,
    the first of which is request number [n0] of the run. *)
Fixpoint machine (tr : DoResult -> Transition) (env : Env) (url ua : string)
    (n0 n : nat) : list DoResult :=
  match n with
  | O => []
  | S n' =>
      let r := server env n0 url ua in
      r :: match tr r with
           | Terminal => []
           | RetryAtOnce | BackoffRetry => machine tr env url ua (S n0) n'
           end
  end.

Definition backoffs_of (tr : DoResult -> Transition) (rs : list DoResult) : nat :=
  length (List.filter (fun r => match tr r with BackoffRetry => true | _ => false end) rs).

(** What a task of [scan.go] sends once its attempts are over, from the
    response of the last attempt. *)
Definition emission (baseURL path : string) (rs : list DoResult) : list ScanResult :=
  match last rs with
  | Some r =>
      match do_resp r with
      | Some code =>
          if code =? Go.StatusNotFound then [] else [Scan.found baseURL path code]
      | None => []
      end
  | None => []
  end.

(** The user-agent a draw made as the [k]-th of the run selects. *)
Definition agent_at (env : Env) (uas : list string) (k : nat) : option string :=
  uas !! Z.to_nat (rng env k mod Z.of_nat (length uas)).

(** The transition [cmd/main.go] is shown to make: a status from 200 to 299
    or a 429 is terminal; every other response, like an error, backs off
    and is retried.  (No response and no error, which [net/http] does not
    return, would end the task in a panic.) *)
Definition cmd_transition (r : DoResult) : Transition :=
  match do_err r, do_resp r with
  | Some _, _ => BackoffRetry
  | None, None => Terminal
  | None, Some code =>
      if (200 <=? code) && (code <? 300) then Terminal
      else if code =? Go.StatusTooManyRequests then Terminal
      else BackoffRetry
  end.

(** The responses a task of [cmd/main.go] sees in at most [n] attempts, the
    first of which makes draw number [k] and request number [n0] of the
    run. *)
Fixpoint cmd_machine (env : Env) (uas : list string) (url : string)
    (k n0 n : nat) : list DoResult :=
  match n with
  | O => []
  | S n' =>
      let r := server env n0 url (default "" (agent_at env uas k)) in
      r :: match cmd_transition r with
           | Terminal => []
           | RetryAtOnce | BackoffRetry => cmd_machine env uas url (S k) (S n0) n'
           end
  end.

(** What a run of the loop of [cmd/main.go] from world [w] with the local
    [delay] can have changed: one draw per request, the back-offs counted
    from the local delay, and the configuration left alone. *)
Inductive cmd_shape (env : Env) (url : string) (uas : list string) (n : nat)
    (delay : Z) (w w' : World string Cmd.ScannerConfig) : Prop :=
| CmdShape (backoffs : nat) (agents : list string)
    (cs_bound : (backoffs <= n)%nat)
    (cs_attempts : (length agents <= n)%nat)
    (cs_agents : forall j ua, agents !! j = Some ua ->
                 agent_at env uas (w_nrand w + j) = Some ua)
    (cs_nrand : w_nrand w' = (w_nrand w + length agents)%nat)
    (cs_reqs : w_reqs w' = (w_reqs w ++ map (fun ua => (url, ua)) agents)%list)
    (cs_sleeps : w_sleeps w' = (w_sleeps w ++ doublings backoffs delay)%list)
    (cs_config : w_config w' = w_config w)
    (cs_wg : w_wg w' = w_wg w)
    (cs_slots : w_slots w' = w_slots w).

(** Two configurations that agree on every field but [adaptiveDelay]. *)
Definition same_but_delay (c c' : ScannerConfig) : Prop :=
  c' = set_adaptiveDelay (adaptiveDelay c') c.

(** The byte [c] occurs in [s]. *)
Fixpoint occurs (c : ascii) (s : string) : Prop :=
  match s with
  | EmptyString => False
  | String c' s' => c' = c \/ occurs c s'
  end.

(** The pieces joined by line feeds, and the lines each followed by one. *)
Fixpoint join_lf (pieces : list string) : string :=
  match pieces with
  | [] => ""
  | [l] => l
  | l :: ls => l ++ String Go.lf (join_lf ls)
  end.

Fixpoint unlines (ls : list string) : string :=
  match ls with
  | [] => ""
  | l :: ls' => l ++ String Go.lf (unlines ls')
  end.

Definition no_lf (s : string) : Prop := ~ occurs Go.lf s.

(** The world a task running alone would see in state [s] of the pool: the
    results channel holds what was sent, collected or not. *)
Definition view (s : Pool.Sys) : World ScanResult ScannerConfig :=
  mkWorld (Pool.config s) (Pool.results s ++ Pool.buf (Pool.resultsChan s))
          (Pool.sleeps s) (Pool.reqs s) (Pool.nrand s) (Pool.wg s) (Pool.slots s).

(** The paths no worker has received yet. *)
Definition pending (s : Pool.Sys) : list string :=
  (Pool.buf (Pool.tasksChan s) ++
   match Pool.main s with
   | Pool.Seeding rest => rest
   | _ => []
   end)%list.



(** What a run of the loop of [scan.go] from world [w] with variables [v]
    can have changed: it made [attempts] requests, all for the same URL
    with the same user-agent, [backoffs] of them followed by a back-off,
    and it touched nothing but the adaptive delay, unless the request could
    not be built. *)
Inductive loop_shape (lib : Lib) (baseURL path ua : string) (n : nat)
    (v : Scan.Vars) (w w' : World ScanResult ScannerConfig)
    (o : Res (option Scan.Vars)) : Prop :=
| LoopShape (attempts backoffs : nat)
    (ls_bound : (backoffs <= attempts <= n)%nat)
    (ls_reqs : w_reqs w' =
               (w_reqs w ++ replicate attempts (baseURL ++ path, ua)%string)%list)
    (ls_sleeps : w_sleeps w' =
                 (w_sleeps w ++ doublings backoffs (adaptiveDelay (w_config w)))%list)
    (ls_config : w_config w' =
                 set_adaptiveDelay (Nat.iter backoffs dbl (adaptiveDelay (w_config w)))
                                   (w_config w))
    (ls_nrand : w_nrand w' = w_nrand w)
    (ls_wg : w_wg w' = w_wg w)
    (ls_slots : w_slots w' = w_slots w)
    (ls_res : (exists v', o = Done (Some v') /\ Scan.err v' = Scan.err v
                 /\ w_chan w' = w_chan w
                 /\ (Scan.resp v' = Scan.resp v \/ (0 < attempts)%nat))
              \/ (o = Done None /\ backoffs = 0%nat
                  /\ exists e, NewRequest lib (baseURL ++ path) = Some e
                     /\ w_chan w' =
                        (w_chan w ++
                         (if Go.Contains e "404" then []
                          else [Scan.creating_error baseURL path e]))%list)).

(** What a whole task of [scan.go] can have changed. *)
Inductive task_shape (env : Env) (baseURL path : string) (uas : list string)
    (w w' : World ScanResult ScannerConfig) (o : Res unit) : Prop :=
| TaskShape (ua : string) (attempts backoffs : nat) (emitted : list ScanResult)
    (ts_done : o = Done tt)
    (ts_agent : uas !! Z.to_nat (rng env (w_nrand w) mod Z.of_nat (length uas))
                = Some ua)
    (ts_nrand : w_nrand w' = S (w_nrand w))
    (ts_bound : (backoffs <= attempts <= 3)%nat)
    (ts_reqs : w_reqs w' =
               (w_reqs w ++ replicate attempts (baseURL ++ path, ua)%string)%list)
    (ts_sleeps : w_sleeps w' =
                 (w_sleeps w ++ doublings backoffs (adaptiveDelay (w_config w)))%list)
    (ts_config : w_config w' =
                 set_adaptiveDelay (Nat.iter backoffs dbl (adaptiveDelay (w_config w)))
                                   (w_config w))
    (ts_wg : w_wg w' = w_wg w - 1)
    (ts_slots : w_slots w' = w_slots w)
    (ts_chan : w_chan w' = (w_chan w ++ emitted)%list)
    (ts_once : (length emitted <= 1)%nat).

(** *** Tasks of [cmd/main.go] and of the one-file version *)

(** What a task of [cmd/main.go] sends after one attempt. *)
Definition cmd_message (baseURL path : string) (r : DoResult) : list string :=
  match do_err r, do_resp r with
  | Some e, None => [Cmd.scan_failed baseURL path e]
  | Some _, Some _ => []
  | None, Some code =>
      if (200 <=? code) && (code <? 300) then [Cmd.success baseURL path]
      else if code =? Go.StatusTooManyRequests then [Cmd.rate_limit baseURL path]
      else []
  | None, None => []
  end.

(** [client.Do] keeps its contract: it returns a response or an error. *)
Definition answers (env : Env) : Prop :=
  forall n url ua, do_resp (server env n url ua) = None ->
                   do_err (server env n url ua) <> None.



(** *** What a run of the pool has left to do *)

(** What is left of a task.  [residual may ok post r s o p]: along every
    run of [p] at most [r] requests are made, each for a URL in [ok], and
    at most [s] values are sent; [wg.Done()] is still to come exactly when
    [o] holds, and nothing but the return follows it; the panics [p] can
    raise on its own are those of [may].  [post] holds of the value
    returned and of the budget left. *)
Inductive residual {R A : Type} (may : string -> Prop) (ok : string -> Prop)
    (post : A -> nat -> nat -> bool -> Prop)
  : nat -> nat -> bool -> Prog R A -> Prop :=
| res_ret a r s o :
    post a r s o -> residual may ok post r s o (Ret a)
| res_panic msg r s :
    may msg -> residual may ok post r s true (Panic msg)
| res_rand n k r s :
    0 < n \/ may "invalid argument to Intn" ->
    (forall i, 0 <= i < n -> residual may ok post r s true (k i)) ->
    residual may ok post r s true (RandIntn n k)
| res_do url ua k r s :
    ok url ->
    (forall x, residual may ok post r s true (k x)) ->
    residual may ok post (S r) s true (ClientDo url ua k)
| res_load k r s :
    (forall d, residual may ok post r s true (k d)) ->
    residual may ok post r s true (LoadDelay k)
| res_store d k r s :
    residual may ok post r s true k ->
    residual may ok post r s true (StoreDelay d k)
| res_sleep d k r s :
    residual may ok post r s true k ->
    residual may ok post r s true (Sleep d k)
| res_send x k r s :
    residual may ok post r s true k ->
    residual may ok post r (S s) true (Send x k)
| res_atomic delta k r s :
    residual may ok post r s true k ->
    residual may ok post r s true (AtomicAdd delta k)
| res_done k r s :
    residual may ok post r s false k ->
    residual may ok post r s true (WgDone k).

(** A task that has called [wg.Done()] has nothing left to do. *)
Definition finished : unit -> nat -> nat -> bool -> Prop :=
  fun _ _ _ o => o = false.

(** The URLs a run over [paths] may request. *)
Definition url_of (base : string) (paths : list string) (url : string) : Prop :=
  exists p, In p paths /\ url = base ++ p.

(** What is left for a worker of the pool. *)
Inductive worker_left (may : string -> Prop) (base : string) (paths : list string)
  : Pool.WorkerPc -> nat -> nat -> bool -> Prop :=
| wl_receiving : worker_left may base paths Pool.Receiving 0 0 false
| wl_adding path :
    In path paths -> worker_left may base paths (Pool.Adding path) 3 1 false
| wl_running p r s o :
    residual may (url_of base paths) finished r s o p ->
    worker_left may base paths (Pool.Running p) r s o
| wl_stopped : worker_left may base paths Pool.Stopped 0 0 false.

Definition owed (o : bool) : Z := if o then 1 else 0.

(** What is left for all workers: requests, sends, and calls of
    [wg.Done()]. *)
Inductive workers_left (may : string -> Prop) (base : string) (paths : list string)
  : list Pool.WorkerPc -> nat -> nat -> Z -> Prop :=
| wsl_nil : workers_left may base paths [] 0 0 0
| wsl_cons w ws r s o rs ss os :
    worker_left may base paths w r s o ->
    workers_left may base paths ws rs ss os ->
    workers_left may base paths (w :: ws) (r + rs) (s + ss) (owed o + os).

(** The invariant of a run of the pool over [paths]. *)
Inductive pool_inv (may : string -> Prop) (cfg : ScannerConfig) (paths : list string)
    (s : Pool.Sys) : Prop :=
| PoolInv (rs ss : nat)
    (pi_base : baseURL (Pool.config s) = baseURL cfg)
    (pi_agents : userAgents (Pool.config s) = userAgents cfg)
    (pi_workers : workers_left may (baseURL cfg) paths (Pool.workers s) rs ss
                               (Pool.wg s))
    (pi_reqs : (length (Pool.reqs s) + rs + 3 * length (pending s)
                <= 3 * length paths)%nat)
    (pi_sent : (length (Pool.results s ++ Pool.buf (Pool.resultsChan s)) + ss
                + length (pending s) <= length paths)%nat)
    (pi_urls : Forall (fun rq => url_of (baseURL cfg) paths rq.1) (Pool.reqs s))
    (pi_pending : Forall (fun p => In p paths) (pending s))
    (pi_closed : Pool.closed (Pool.resultsChan s) = true ->
                 Pool.main s = Pool.Writing \/ Pool.main s = Pool.Exited)
    (pi_written : forall out, Pool.written s = Some out ->
                  Pool.main s = Pool.Exited /\ out = Pool.results s)
    (pi_crash : Pool.crashed s = None
                \/ (exists msg, Pool.crashed s = Some msg /\ may msg)
                \/ (Pool.crashed s = Some "send on closed channel"
                    /\ Pool.main s = Pool.Writing)).

(** The worker [i] of [s] has moved on to [pc], with the world its task
    sees now [w]; nothing else has changed. *)
Definition worker_moved (i : nat) (pc : Pool.WorkerPc)
    (w : World ScanResult ScannerConfig) (s s' : Pool.Sys) : Prop :=
  view s' = w
  /\ Pool.workers s' = <[i := pc]> (Pool.workers s)
  /\ Pool.main s' = Pool.main s
  /\ Pool.tasksChan s' = Pool.tasksChan s
  /\ Pool.collector s' = Pool.collector s
  /\ Pool.results s' = Pool.results s
  /\ Pool.written s' = Pool.written s
  /\ Pool.crashed s' = None
  /\ Pool.closed (Pool.resultsChan s') = false
  /\ Pool.cap (Pool.resultsChan s') = Pool.cap (Pool.resultsChan s).

(** *** What a run of [cmd/main.go] has left to do *)

(** The only panic a task of [cmd/main.go] can raise on its own: the
    dereference of a nil response that came without an error. *)
Definition cmd_may (msg : string) : Prop := msg = "nil pointer dereference".

(** The URLs the tasks started for [paths] may request. *)
Definition cmd_url (lib : Lib) (base : string) (paths : list string) (url : string)
  : Prop :=
  exists p, In p paths /\ url = TrimSpace lib (base ++ p).

(** What is left for the goroutines started so far. *)
Inductive tasks_left (ok : string -> Prop)
  : list (Prog string unit) -> nat -> nat -> Z -> Prop :=
| tl_nil : tasks_left ok [] 0 0 0
| tl_cons p ps r s o rs ss os :
    residual cmd_may ok finished r s o p ->
    tasks_left ok ps rs ss os ->
    tasks_left ok (p :: ps) (r + rs) (s + ss) (owed o + os).

(** The paths the loop of [main] has still to examine. *)
Definition unexamined (s : CmdPool.Sys) : list string :=
  match CmdPool.main s with
  | CmdPool.Spawning rest => rest
  | _ => []
  end.

(** The invariant of a run of [main] of [cmd/main.go] over [paths]. *)
Inductive cmd_inv (lib : Lib) (cfg : Cmd.ScannerConfig) (paths : list string)
    (s : CmdPool.Sys) : Prop :=
| CmdInv (rs ss : nat) (examined : list string)
    (ci_base : Cmd.BaseURL (CmdPool.config s) = Cmd.BaseURL cfg)
    (ci_tasks : tasks_left (cmd_url lib (Cmd.BaseURL cfg) (CmdPool.spawned s))
                           (CmdPool.tasks s) rs ss (CmdPool.wg s))
    (ci_reqs : (length (CmdPool.reqs s) + rs <= 3 * length (CmdPool.spawned s))%nat)
    (ci_sent : (length (CmdPool.printed s ++ Pool.buf (CmdPool.resultsChan s)) + ss
                <= 3 * length (CmdPool.spawned s))%nat)
    (ci_urls : Forall (fun rq => cmd_url lib (Cmd.BaseURL cfg) (CmdPool.spawned s) rq.1)
                      (CmdPool.reqs s))
    (ci_paths : paths = (examined ++ unexamined s)%list)
    (ci_spawned : sublist (CmdPool.spawned s) examined)
    (ci_closer : CmdPool.closer s <> CmdPool.Unstarted -> unexamined s = []
                 /\ forall rest, CmdPool.main s <> CmdPool.Spawning rest)
    (ci_waited : CmdPool.closer s = CmdPool.Closing \/ CmdPool.closer s = CmdPool.Closed ->
                 CmdPool.wg s = 0)
    (ci_closed : Pool.closed (CmdPool.resultsChan s) = true ->
                 CmdPool.closer s = CmdPool.Closed)
    (ci_exit : CmdPool.main s = CmdPool.Exited ->
               CmdPool.crashed s = None
               /\ Pool.buf (CmdPool.resultsChan s) = []
               /\ Pool.closed (CmdPool.resultsChan s) = true)
    (ci_crash : CmdPool.crashed s = None
                \/ CmdPool.crashed s = Some "nil pointer dereference").

(** Resolving [hosts] one after the other; [None] when a call panics. *)
Fixpoint resolve_all {IP} (net : CmdDns.Net IP) (hosts : list string)
    (s : CmdDns.State IP) : option (CmdDns.State IP) :=
  match hosts with
  | [] => Some s
  | host :: rest =>
      match CmdDns.resolve net host s with
      | (s', Done _) => resolve_all net rest s'
      | (_, Panicked _) => None
      end
  end.

(** ** Running programs: general facts *)

Section ExecFacts.
Context {R C : Type} `{DelayCell C}.
Variable env : Env.

Lemma exec_bind {A B} (p : Prog R A) (f : A -> Prog R B) (w : World R C) :
  exec env (bind p f) w =
  match exec env p w with
  | (w', Done a) => exec env (f a) w'
  | (w', Panicked msg) => (w', Panicked msg)
  end.
Proof.
  revert w.
  induction p as [a|msg|n k IH|url ua k IH|k IH|d k IH|d k IH|r k IH|dl k IH|k IH];
    intros w; simpl; try reflexivity; try apply IH.
  - destruct (n <=? 0); [reflexivity | apply IH].
  - destruct (w_wg w - 1 <? 0); [reflexivity | apply IH].
Qed.
End ExecFacts.

(** ** The loop and the task of [scan.go] *)

Import Go.

Lemma elem_at_draw {R} (uas : list string) (z : Z) :
  uas <> [] ->
  exists ua, uas !! Z.to_nat (z mod Z.of_nat (length uas)) = Some ua
    /\ @elem_at R uas (z mod Z.of_nat (length uas)) = Ret ua.
Proof.
  intros Hne.
  assert (0 < Z.of_nat (length uas)) as Hlen by (destruct uas; [congruence | simpl; lia]).
  pose proof (Z.mod_pos_bound z _ Hlen) as Hb.
  destruct (lookup_lt_is_Some_2 uas (Z.to_nat (z mod Z.of_nat (length uas))))
    as [ua Hua]; [lia|].
  exists ua. split; [exact Hua|].
  unfold elem_at. destruct (Z.ltb_spec (z mod Z.of_nat (length uas)) 0); [lia|].
  rewrite Hua. reflexivity.
Qed.

Section ScanFacts.
Variable env : Env.
Variable lib : Lib.
Variables baseURL path : string.
Let W := World ScanResult ScannerConfig.

Lemma exec_loop_body_response ua v (w : W) code :
  NewRequest lib (baseURL ++ path) = None ->
  server env (length (w_reqs w)) (baseURL ++ path) ua = respond code ->
  exec env (Scan.loop_body lib baseURL path ua v) w =
  (requested (baseURL ++ path) ua w,
   Done (if code =? StatusNotFound
         then Scan.Continue {| Scan.resp := Some code; Scan.err := Scan.err v |}
         else Scan.Break {| Scan.resp := Some code; Scan.err := Scan.err v |})).
Proof.
  intros Hreq Hsrv. unfold Scan.loop_body. rewrite Hreq.
  unfold clientDo. cbn [bind exec]. rewrite Hsrv. cbn.
  destruct (code =? StatusNotFound); reflexivity.
Qed.

Lemma exec_loop_body_failure ua v (w : W) :
  NewRequest lib (baseURL ++ path) = None ->
  failed (server env (length (w_reqs w)) (baseURL ++ path) ua) ->
  exec env (Scan.loop_body lib baseURL path ua v) w =
  (backoff (requested (baseURL ++ path) ua w),
   Done (Scan.Continue
           {| Scan.resp := do_resp (server env (length (w_reqs w)) (baseURL ++ path) ua);
              Scan.err := Scan.err v |})).
Proof.
  intros Hreq Hf. unfold Scan.loop_body. rewrite Hreq.
  unfold clientDo. cbn [bind exec].
  destruct (server env (length (w_reqs w)) (baseURL ++ path) ua) as [rs er].
  destruct er as [e|]; [reflexivity|].
  destruct rs as [code|]; [|reflexivity].
  destruct Hf as [Hf|Hf]; simpl in Hf; congruence.
Qed.

Lemma response_or_failed (r : DoResult) :
  (exists code, r = respond code) \/ failed r.
Proof.
  destruct r as [[code|] [e|]]; unfold failed; simpl;
    try (right; (left; congruence) || (right; reflexivity)).
  left. exists code. reflexivity.
Qed.

Lemma set_adaptiveDelay_same (c : ScannerConfig) :
  set_adaptiveDelay (adaptiveDelay c) c = c.
Proof. destruct c; reflexivity. Qed.

Lemma exec_loop_shape ua n : forall v (w : W),
  loop_shape lib baseURL path ua n v w (exec env (Scan.loop lib baseURL path ua n v) w).1
                      (exec env (Scan.loop lib baseURL path ua n v) w).2.
Proof.
  induction n as [|n IH]; intros v w.
  - simpl. apply LoopShape with (attempts := 0%nat) (backoffs := 0%nat); simpl;
      rewrite ?app_nil_r, ?set_adaptiveDelay_same; try reflexivity; try lia.
    left. exists v. auto.
  - cbn [Scan.loop]. rewrite exec_bind.
    destruct (NewRequest lib (baseURL ++ path)) as [e|] eqn:Hreq.
    + unfold Scan.loop_body. rewrite Hreq. rewrite exec_bind.
      destruct (Contains e "404") eqn:H404; simpl;
      apply LoopShape with (attempts := 0%nat) (backoffs := 0%nat); simpl;
        rewrite ?app_nil_r, ?set_adaptiveDelay_same; try reflexivity; try lia;
        right; (split; [reflexivity|]); (split; [reflexivity|]);
        exists e; rewrite H404, ?app_nil_r; auto.
    + destruct (response_or_failed (server env (length (w_reqs w)) (baseURL ++ path) ua))
        as [[code Hsrv]|Hf].
      * rewrite (exec_loop_body_response _ _ _ code Hreq Hsrv).
        destruct (code =? StatusNotFound) eqn:Hc.
        -- destruct (IH {| Scan.resp := Some code; Scan.err := Scan.err v |}
                        (requested (baseURL ++ path) ua w))
             as [k j Hb Hr Hs Hcf Hn Hwg Hsl Hres].
           apply LoopShape with (attempts := S k) (backoffs := j); try assumption; try lia.
           ++ rewrite Hr. simpl. rewrite <- app_assoc. reflexivity.
           ++ destruct Hres as [(v' & -> & He & Hch & _)|(Ho & Hj & e & He & _)].
              ** left. exists v'. repeat split; auto. right; lia.
              ** congruence.
        -- simpl. apply LoopShape with (attempts := 1%nat) (backoffs := 0%nat); simpl;
             rewrite ?app_nil_r, ?set_adaptiveDelay_same; try reflexivity; try lia.
           left. eexists. repeat split; auto.
      * rewrite (exec_loop_body_failure _ _ _ Hreq Hf).
        set (v1 := {| Scan.resp := _; Scan.err := _ |}).
        destruct (IH v1 (backoff (requested (baseURL ++ path) ua w)))
          as [k j Hb Hr Hs Hcf Hn Hwg Hsl Hres].
        apply LoopShape with (attempts := S k) (backoffs := S j); try assumption; try lia.
        -- rewrite Hr. simpl. rewrite <- app_assoc. reflexivity.
        -- rewrite Hs. simpl. rewrite <- app_assoc. reflexivity.
        -- rewrite Hcf, Nat.iter_succ_r. reflexivity.
        -- destruct Hres as [(v' & -> & He & Hch & _)|(Ho & Hj & e & He & _)].
           ++ left. exists v'. repeat split; auto. right; lia.
           ++ congruence.
Qed.

Lemma exec_scanTarget_shape (uas : list string) (w : W) :
  uas <> [] -> 0 < w_wg w ->
  task_shape env baseURL path uas w (exec env (Scan.scanTarget lib baseURL path uas) w).1
                   (exec env (Scan.scanTarget lib baseURL path uas) w).2.
Proof.
  intros Hne Hwg.
  destruct (@elem_at_draw ScanResult uas (rng env (w_nrand w)) Hne) as (ua & Hua & Hix).
  assert (0 < Z.of_nat (length uas)) as Hlen by (destruct uas; [congruence | simpl; lia]).
  unfold Scan.scanTarget. rewrite exec_bind.
  unfold randIntn. cbn [bind exec].
  destruct (Z.leb_spec (Z.of_nat (length uas)) 0) as [?|_]; [lia|].
  rewrite exec_bind, Hix. cbn [exec]. rewrite exec_bind.
  set (w1 := with_nrand (S (w_nrand w)) w).
  destruct (exec_loop_shape ua 3 {| Scan.resp := None; Scan.err := None |} w1)
    as [k j Hb Hr Hs Hcf Hn Hwg' Hsl Hres].
  destruct (exec env (Scan.loop lib baseURL path ua 3 _) w1) as [w2 o2].
  simpl in Hr, Hs, Hcf, Hn, Hwg', Hsl, Hres.
  assert (forall emitted (w3 : W),
            w_reqs w3 = w_reqs w2 -> w_sleeps w3 = w_sleeps w2 ->
            w_config w3 = w_config w2 -> w_nrand w3 = w_nrand w2 ->
            w_wg w3 = w_wg w2 -> w_slots w3 = w_slots w2 ->
            w_chan w3 = (w_chan w ++ emitted)%list -> (length emitted <= 1)%nat ->
            task_shape env baseURL path uas w (exec env wgDone w3).1 (exec env wgDone w3).2) as Hfin.
  { intros emitted w3 E1 E2 E3 E4 E5 E6 E7 E8. unfold wgDone. cbn [exec].
    destruct (Z.ltb_spec (w_wg w3 - 1) 0) as [?|_]; [lia|]. simpl.
    apply TaskShape with (ua := ua) (attempts := k) (backoffs := j) (emitted := emitted);
      simpl; try congruence; try lia. }
  destruct Hres as [(v' & -> & He & Hch & _)|(-> & Hj & e & He & Hch)].
  - unfold Scan.after_loop. rewrite He. simpl Scan.err. cbv iota.
    destruct (Scan.resp v') as [code|].
    + destruct (code =? StatusNotFound); simpl negb; cbv iota.
      * cbn [exec]. apply (Hfin []); rewrite ?app_nil_r; auto.
      * unfold send. cbn [exec].
        apply (Hfin [Scan.found baseURL path code]); simpl; auto. congruence.
    + cbn [exec]. apply (Hfin []); rewrite ?app_nil_r; auto.
  - cbn [exec]. eapply Hfin; eauto. destruct (Contains e "404"); simpl; lia.
Qed.
End ScanFacts.

(** ** The task of [scan.go] follows its state machine *)

Section Machine.
Variable env : Env.
Variable lib : Lib.
Variables baseURL path ua : string.
Let W := World ScanResult ScannerConfig.

Lemma transition_response code :
  transition (respond code) =
  if code =? StatusNotFound then RetryAtOnce else Terminal.
Proof. reflexivity. Qed.

Lemma transition_failed r : failed r -> transition r = BackoffRetry.
Proof.
  destruct r as [[code|] [e|]]; intros [Hf|Hf]; simpl in Hf; try congruence;
    reflexivity.
Qed.

Lemma last_cons_resp (r : DoResult) (rs : list DoResult) (d : option Z) :
  match last (r :: rs) with Some r' => do_resp r' | None => d end =
  match last rs with Some r' => do_resp r' | None => do_resp r end.
Proof. destruct rs as [|r' rs]; [reflexivity|]. rewrite last_cons_cons.
  destruct (last (r' :: rs)) eqn:E; [reflexivity|].
  apply last_None in E. discriminate. Qed.

Lemma exec_loop_machine n : forall (v : Scan.Vars) (w : W),
  NewRequest lib (baseURL ++ path) = None ->
  let rs := machine transition env (baseURL ++ path) ua (length (w_reqs w)) n in
  let out := exec env (Scan.loop lib baseURL path ua n v) w in
  w_reqs out.1 = (w_reqs w ++ replicate (length rs) (baseURL ++ path, ua)%string)%list
  /\ w_sleeps out.1 =
     (w_sleeps w ++ doublings (backoffs_of transition rs)
                              (adaptiveDelay (w_config w)))%list
  /\ w_config out.1 =
     set_adaptiveDelay (Nat.iter (backoffs_of transition rs) dbl
                                 (adaptiveDelay (w_config w))) (w_config w)
  /\ w_chan out.1 = w_chan w
  /\ w_wg out.1 = w_wg w
  /\ w_nrand out.1 = w_nrand w
  /\ out.2 = Done (Some {| Scan.resp := match last rs with
                                         | Some r => do_resp r
                                         | None => Scan.resp v
                                         end;
                           Scan.err := Scan.err v |}).
Proof.
  induction n as [|n IH]; intros v w Hreq.
  - simpl. rewrite !app_nil_r, set_adaptiveDelay_same. destruct v. auto 10.
  - cbn zeta. cbn [machine Scan.loop]. rewrite exec_bind.
    set (r := server env (length (w_reqs w)) (baseURL ++ path) ua).
    destruct (response_or_failed r) as [[code Hsrv]|Hf].
    + rewrite (exec_loop_body_response env lib baseURL path ua v w code Hreq Hsrv).
      rewrite Hsrv, transition_response.
      destruct (code =? StatusNotFound) eqn:Hc.
      * specialize (IH {| Scan.resp := Some code; Scan.err := Scan.err v |}
                       (requested (baseURL ++ path) ua w) Hreq).
        cbn zeta in IH.
        replace (length (w_reqs (requested (baseURL ++ path) ua w)))
          with (S (length (w_reqs w))) in IH by (simpl; rewrite length_app; simpl; lia).
        destruct IH as (Hr & Hs & Hcf & Hch & Hwg & Hn & Ho).
        rewrite Hr, Hs, Hcf, Hch, Hwg, Hn, Ho. rewrite last_cons_resp.
        unfold backoffs_of. simpl List.filter. rewrite transition_response, Hc.
        simpl. rewrite <- app_assoc. auto 10.
      * simpl. unfold backoffs_of. simpl. rewrite transition_response, Hc. simpl.
        rewrite app_nil_r, set_adaptiveDelay_same. auto 10.
    + rewrite (exec_loop_body_failure env lib baseURL path ua v w Hreq Hf).
      fold r. rewrite (transition_failed r Hf).
      specialize (IH {| Scan.resp := do_resp r; Scan.err := Scan.err v |}
                     (backoff (requested (baseURL ++ path) ua w)) Hreq).
      cbn zeta in IH.
      replace (length (w_reqs (backoff (requested (baseURL ++ path) ua w))))
        with (S (length (w_reqs w))) in IH by (simpl; rewrite length_app; simpl; lia).
      destruct IH as (Hr & Hs & Hcf & Hch & Hwg & Hn & Ho).
      rewrite Hr, Hs, Hcf, Hch, Hwg, Hn, Ho. rewrite last_cons_resp.
      unfold backoffs_of. simpl List.filter. rewrite (transition_failed r Hf).
      simpl length. rewrite Nat.iter_succ_r.
      simpl. rewrite <- !app_assoc. auto 10.
Qed.
End Machine.

Lemma exec_scanTarget_machine (lib : Lib) (env : Env)
    (baseURL path : string) (uas : list string)
    (w : World ScanResult ScannerConfig) :
  NewRequest lib (baseURL ++ path) = None ->
  uas <> [] ->
  0 < w_wg w ->
  exists ua,
    uas !! Z.to_nat (rng env (w_nrand w) mod Z.of_nat (length uas)) = Some ua /\
    let rs := machine transition env (baseURL ++ path) ua (length (w_reqs w)) 3 in
    let out := exec env (Scan.scanTarget lib baseURL path uas) w in
    out.2 = Done tt
    /\ w_reqs out.1 = (w_reqs w ++ replicate (length rs) (baseURL ++ path, ua)%string)%list
    /\ w_sleeps out.1 =
       (w_sleeps w ++ doublings (backoffs_of transition rs)
                                (adaptiveDelay (w_config w)))%list
    /\ w_chan out.1 = (w_chan w ++ emission baseURL path rs)%list
    /\ w_config out.1 =
       set_adaptiveDelay (Nat.iter (backoffs_of transition rs) dbl
                                   (adaptiveDelay (w_config w))) (w_config w).
Proof.
  intros Hreq Hne Hwg.
  destruct (@elem_at_draw ScanResult uas (rng env (w_nrand w)) Hne) as (ua & Hua & Hix).
  exists ua. split; [exact Hua|]. cbv zeta.
  assert (0 < Z.of_nat (length uas)) as Hlen by (destruct uas; [congruence | simpl; lia]).
  unfold Scan.scanTarget. rewrite exec_bind.
  unfold randIntn. cbn [bind exec].
  destruct (Z.leb_spec (Z.of_nat (length uas)) 0) as [?|_]; [lia|].
  rewrite exec_bind, Hix. cbn [exec]. rewrite exec_bind.
  pose proof (exec_loop_machine env lib baseURL path ua 3
                {| Scan.resp := None; Scan.err := None |}
                (with_nrand (S (w_nrand w)) w) Hreq) as Hl.
  cbv zeta in Hl. change (w_reqs (with_nrand (S (w_nrand w)) w)) with (w_reqs w) in Hl.
  set (rs := machine transition env (baseURL ++ path) ua (length (w_reqs w)) 3) in *.
  destruct (exec env (Scan.loop lib baseURL path ua 3 _) _) as [w2 o2].
  simpl in Hl. destruct Hl as (Hr & Hs & Hcf & Hch & Hwg2 & Hn & ->).
  assert (forall (w3 : World ScanResult ScannerConfig),
            w_wg w3 = w_wg w ->
            (exec env wgDone w3).2 = Done tt /\
            w_reqs (exec env wgDone w3).1 = w_reqs w3 /\
            w_sleeps (exec env wgDone w3).1 = w_sleeps w3 /\
            w_chan (exec env wgDone w3).1 = w_chan w3 /\
            w_config (exec env wgDone w3).1 = w_config w3) as Hfin.
  { intros w3 E. unfold wgDone. cbn [exec].
    destruct (Z.ltb_spec (w_wg w3 - 1) 0) as [?|_]; [lia|]. simpl. auto 10. }
  unfold Scan.after_loop, emission. cbn [Scan.err Scan.resp].
  destruct (last rs) as [r|]; [destruct (do_resp r) as [code|]|].
  - destruct (code =? StatusNotFound); simpl negb; cbv iota.
    + cbn [exec]. destruct (Hfin w2 Hwg2) as (-> & -> & -> & -> & ->).
      rewrite app_nil_r. auto 10.
    + unfold send. cbn [exec].
      destruct (Hfin (with_chan (w_chan w2 ++ [Scan.found baseURL path code]) w2) Hwg2)
        as (-> & -> & -> & -> & ->). simpl. rewrite Hch. auto 10.
  - cbn [exec]. destruct (Hfin w2 Hwg2) as (-> & -> & -> & -> & ->).
    rewrite app_nil_r. auto 10.
  - cbn [exec]. destruct (Hfin w2 Hwg2) as (-> & -> & -> & -> & ->).
    rewrite app_nil_r. auto 10.
Qed.

(** ** The loop and the task of [cmd/main.go] *)

Section CmdFacts.
Variable env : Env.
Variable lib : Lib.
Variables baseURL path : string.
Variable uas : list string.
Let W := World string Cmd.ScannerConfig.
Let url := TrimSpace lib (baseURL ++ path).

Lemma cmd_shape_none n delay (w w' : W) :
  w_nrand w' = w_nrand w -> w_reqs w' = w_reqs w -> w_sleeps w' = w_sleeps w ->
  w_config w' = w_config w -> w_wg w' = w_wg w -> w_slots w' = w_slots w ->
  cmd_shape env url uas n delay w w'.
Proof.
  intros. apply CmdShape with (backoffs := 0%nat) (agents := []);
    simpl; rewrite ?app_nil_r; auto; try lia.
  intros j ua Hj. rewrite lookup_nil in Hj. discriminate.
Qed.

Lemma cmd_shape_skip n delay (w w1 w' : W) :
  w_nrand w1 = w_nrand w -> w_reqs w1 = w_reqs w -> w_sleeps w1 = w_sleeps w ->
  w_config w1 = w_config w -> w_wg w1 = w_wg w -> w_slots w1 = w_slots w ->
  cmd_shape env url uas n delay w1 w' ->
  cmd_shape env url uas (S n) delay w w'.
Proof.
  intros E1 E2 E3 E4 E5 E6 [j ags Hb Hk Ha Hn Hr Hs Hc Hwg Hsl].
  apply CmdShape with (backoffs := j) (agents := ags); try congruence; try lia.
  intros i ua Hi. rewrite <- E1. auto.
Qed.

Lemma cmd_shape_attempt n delay ua (slept : bool) (w w1 w' : W) :
  agent_at env uas (w_nrand w) = Some ua ->
  w_nrand w1 = S (w_nrand w) ->
  w_reqs w1 = (w_reqs w ++ [(url, ua)])%list ->
  w_sleeps w1 = (w_sleeps w ++ if slept then [delay] else [])%list ->
  w_config w1 = w_config w -> w_wg w1 = w_wg w -> w_slots w1 = w_slots w ->
  cmd_shape env url uas n (if slept then dbl delay else delay) w1 w' ->
  (slept = true \/ w_sleeps w' = w_sleeps w1) ->
  cmd_shape env url uas (S n) delay w w'.
Proof.
  intros Hua E1 E2 E3 E4 E5 E6 [j ags Hb Hk Ha Hn Hr Hs Hc Hwg Hsl] Hsl'.
  assert (forall i ua', (ua :: ags) !! i = Some ua' ->
            agent_at env uas (w_nrand w + i) = Some ua') as Hags.
  { intros [|i] ua' Hi; simpl in Hi.
    - rewrite Nat.add_0_r. congruence.
    - replace (w_nrand w + S i)%nat with (w_nrand w1 + i)%nat by lia. auto. }
  assert (w_reqs w' = (w_reqs w ++ map (fun a => (url, a)) (ua :: ags))%list) as Hreqs.
  { rewrite Hr, E2, <- app_assoc. reflexivity. }
  destruct slept.
  - apply CmdShape with (backoffs := S j) (agents := ua :: ags);
      [lia | simpl; lia | exact Hags | simpl; lia | exact Hreqs
      | rewrite Hs, E3, <- app_assoc; reflexivity
      | congruence | congruence | congruence].
  - destruct Hsl' as [?|Hsl']; [discriminate|].
    apply CmdShape with (backoffs := 0%nat) (agents := ua :: ags);
      [lia | simpl; lia | exact Hags | simpl; lia | exact Hreqs
      | rewrite Hsl', E3, !app_nil_r; reflexivity
      | congruence | congruence | congruence].
Qed.

Lemma cmd_shape_last n delay ua (w w' : W) :
  agent_at env uas (w_nrand w) = Some ua ->
  w_nrand w' = S (w_nrand w) ->
  w_reqs w' = (w_reqs w ++ [(url, ua)])%list ->
  w_sleeps w' = w_sleeps w ->
  w_config w' = w_config w -> w_wg w' = w_wg w -> w_slots w' = w_slots w ->
  cmd_shape env url uas (S n) delay w w'.
Proof.
  intros Hua E1 E2 E3 E4 E5 E6.
  apply (cmd_shape_attempt n delay ua false w w' w'); auto.
  - rewrite app_nil_r. exact E3.
  - apply cmd_shape_none; reflexivity.
Qed.

Lemma exec_cmd_loop_shape n : uas <> [] -> forall delay (w : W),
  cmd_shape env url uas n delay w
            (exec env (Cmd.loop lib baseURL path uas n delay) w).1.
Proof.
  intros Hne.
  assert (0 < Z.of_nat (length uas)) as Hlen by (destruct uas; [congruence | simpl; lia]).
  induction n as [|n IH]; intros delay w.
  - simpl. apply cmd_shape_none; auto.
  - cbn [Cmd.loop]. rewrite exec_bind. unfold Cmd.loop_body. fold url.
    destruct (NewRequest lib url) as [e|].
    + unfold send. cbn [bind exec].
      eapply cmd_shape_skip; [..|apply IH]; reflexivity.
    + rewrite exec_bind. unfold randIntn. cbn [exec].
      destruct (Z.leb_spec (Z.of_nat (length uas)) 0) as [?|_]; [lia|].
      destruct (@elem_at_draw string uas (rng env (w_nrand w)) Hne) as (ua & Hua & Hix).
      rewrite exec_bind, Hix. cbn [exec]. rewrite exec_bind.
      unfold clientDo. cbn [exec].
      set (w1 := with_nrand (S (w_nrand w)) w).
      set (r := server env (length (w_reqs w1)) url ua).
      set (w2 := with_reqs (w_reqs w1 ++ [(url, ua)]) w1).
      destruct (do_err r) as [e|].
      * rewrite !exec_bind.
        destruct (do_resp r); unfold send, sleep; cbn [exec];
          (eapply (cmd_shape_attempt n delay ua true); [exact Hua|..|apply IH|auto];
           reflexivity).
      * destruct (do_resp r) as [code|].
        -- destruct ((200 <=? code) && (code <? 300)).
           ++ unfold send. cbn [bind exec].
              apply (cmd_shape_last n delay ua); [exact Hua|..]; reflexivity.
           ++ destruct (code =? StatusTooManyRequests).
              ** unfold send. cbn [bind exec].
                 apply (cmd_shape_last n delay ua); [exact Hua|..]; reflexivity.
              ** unfold sleep. cbn [bind exec].
                 eapply (cmd_shape_attempt n delay ua true); [exact Hua|..|apply IH|auto];
                   reflexivity.
        -- cbn [exec].
           apply (cmd_shape_last n delay ua); [exact Hua|..]; reflexivity.
Qed.
End CmdFacts.

Lemma exec_cmd_scanTarget_shape (env : Env) (lib : Lib) (baseURL path : string)
    (uas : list string) (w : World string Cmd.ScannerConfig) :
  uas <> [] ->
  let out := exec env (Cmd.scanTarget lib baseURL path uas) w in
  w_config out.1 = w_config w
  /\ exists (backoffs : nat) (agents : list string),
       (backoffs <= 3)%nat /\ (length agents <= 3)%nat
       /\ w_sleeps out.1 =
          (w_sleeps w ++ doublings backoffs (Cmd.AdaptiveDelay (w_config w)))%list
       /\ w_reqs out.1 =
          (w_reqs w ++ map (fun ua => (TrimSpace lib (baseURL ++ path), ua)) agents)%list
       /\ w_nrand out.1 = (w_nrand w + length agents)%nat
       /\ forall j ua, agents !! j = Some ua ->
                       agent_at env uas (w_nrand w + j) = Some ua.
Proof.
  intros Hne. cbv zeta.
  unfold Cmd.scanTarget, atomicAdd, loadDelay. cbn [bind exec].
  rewrite exec_bind.
  set (w1 := with_slots (wrap32 (w_slots w + -1)) w).
  destruct (exec_cmd_loop_shape env lib baseURL path uas 3 Hne
              (get_delay (w_config w1)) w1)
    as [j ags Hb Hk Ha Hn Hr Hs Hc Hwg Hsl].
  assert (forall (w3 : World string Cmd.ScannerConfig),
            w_config w3 = w_config w -> w_sleeps w3 = w_sleeps (exec env (Cmd.loop lib baseURL path uas 3 (get_delay (w_config w1))) w1).1 ->
            w_reqs w3 = w_reqs (exec env (Cmd.loop lib baseURL path uas 3 (get_delay (w_config w1))) w1).1 ->
            w_nrand w3 = w_nrand (exec env (Cmd.loop lib baseURL path uas 3 (get_delay (w_config w1))) w1).1 ->
            w_config w3 = w_config w
            /\ exists (backoffs : nat) (agents : list string),
                 (backoffs <= 3)%nat /\ (length agents <= 3)%nat
                 /\ w_sleeps w3 =
                    (w_sleeps w ++ doublings backoffs (Cmd.AdaptiveDelay (w_config w)))%list
                 /\ w_reqs w3 =
                    (w_reqs w ++ map (fun ua => (TrimSpace lib (baseURL ++ path), ua)) agents)%list
                 /\ w_nrand w3 = (w_nrand w + length agents)%nat
                 /\ forall j ua, agents !! j = Some ua ->
                                 agent_at env uas (w_nrand w + j) = Some ua) as Hfin.
  { intros w3 E1 E2 E3 E4. split; [exact E1|]. exists j, ags.
    rewrite E2, E3, E4, Hs, Hr, Hn. auto 10. }
  destruct (exec env (Cmd.loop lib baseURL path uas 3 (get_delay (w_config w1))) w1)
    as [w2 [[]|msg]]; simpl in Hfin, Hc |- *.
  - cbn [bind exec]. unfold wgDone. cbn [exec]. simpl w_wg.
    destruct (w_wg w2 - 1 <? 0); simpl; apply Hfin; auto.
  - apply Hfin; auto.
Qed.

(** ** The task of [cmd/main.go] follows its state machine *)

Section CmdMachine.
Variable env : Env.
Variable lib : Lib.
Variables baseURL path : string.
Variable uas : list string.
Let W := World string Cmd.ScannerConfig.
Let url := TrimSpace lib (baseURL ++ path).

End CmdMachine.


(** ** The configuration along a run of the pool *)

Lemma same_but_delay_refl c : same_but_delay c c.
Proof. destruct c; reflexivity. Qed.

Lemma same_but_delay_trans c1 c2 c3 :
  same_but_delay c1 c2 -> same_but_delay c2 c3 -> same_but_delay c1 c3.
Proof. unfold same_but_delay. intros H12 H23. rewrite H23 at 1. rewrite H12. reflexivity. Qed.

Lemma same_but_delay_set d c : same_but_delay c (set_adaptiveDelay d c).
Proof. reflexivity. Qed.

Ltac step_cases :=
  repeat match goal with
  | H : (if ?b then _ else _) = Some _ |- _ => destruct b eqn:?
  | H : match ?x with _ => _ end = Some _ |- _ => destruct x eqn:?
  | H : None = Some _ |- _ => discriminate H
  | H : Some _ = Some _ |- _ => injection H as <-
  end.

Lemma step_frame lib env t s s' :
  Pool.step lib env t s = Some s' ->
  same_but_delay (Pool.config s) (Pool.config s').
Proof.
  unfold Pool.step, Pool.step_main, Pool.step_worker, Pool.step_collector, Pool.step_prog.
  intros H. step_cases; simpl; try apply same_but_delay_refl; apply same_but_delay_set.
Qed.

Lemma run_frame lib env sched : forall s s',
  Pool.run lib env sched s = Some s' ->
  same_but_delay (Pool.config s) (Pool.config s').
Proof.
  induction sched as [|t sched IH]; intros s s' H; simpl in H.
  - injection H as <-. apply same_but_delay_refl.
  - destruct (Pool.step lib env t s) as [s1|] eqn:Hs; [|discriminate].
    eapply same_but_delay_trans; [eapply step_frame; eauto | eauto].
Qed.


(** ** A pool with one worker *)

Section OneWorker.
Variable lib : Lib.
Variable env : Env.






End OneWorker.



(** ** Doubling without overflow *)





(** ** The cache and the slices of an address *)

Lemma fresh_iff now e :
  Dns.fresh now e = true <-> now - Dns.timestamp e < 5 * Minute.
Proof.
  unfold Dns.fresh, saturate64, MinInt64, MaxInt64, Minute, Second, Millisecond.
  rewrite Z.ltb_lt. lia.
Qed.

Lemma lookup_stale net host s :
  (forall e, Dns.entries s !! host = Some e ->
             5 * Minute <= Dns.clock s - Dns.timestamp e) ->
  Dns.lookup net host s = Dns.resolve net host s.
Proof.
  intros Hstale. unfold Dns.lookup.
  destruct (Dns.entries s !! host) as [e|] eqn:He; [|reflexivity].
  destruct (Dns.fresh (Dns.clock s) e) eqn:Hf; [|reflexivity].
  apply fresh_iff in Hf. specialize (Hstale e eq_refl). lia.
Qed.


Lemma HasPrefix_colon c s :
  HasPrefix (String c s) ":" = true <-> c = ":"%char.
Proof.
  cbn [HasPrefix]. rewrite andb_true_r. apply Ascii.eqb_eq.
Qed.

Lemma lastIndexFrom_colon s : forall i,
  0 <= i ->
  (~ occurs ":"%char s /\ lastIndexFrom i s ":" = -1)
  \/ (exists host tail,
        s = host ++ String ":"%char tail
        /\ ~ occurs ":"%char tail
        /\ lastIndexFrom i s ":" = i + len host).
Proof.
  induction s as [|c s IH]; intros i Hi.
  - left. split; [intros []|reflexivity].
  - cbn [lastIndexFrom].
    destruct (IH (i + 1) ltac:(lia)) as [[Hno ->]|(host & tail & -> & Hno & ->)].
    + change (0 <=? -1) with false. cbv iota.
      destruct (HasPrefix (String c s) ":") eqn:Hp.
      * apply HasPrefix_colon in Hp as ->. right. exists "", s.
        split; [reflexivity|]. split; [exact Hno|]. unfold len. simpl. lia.
      * left. split; [|reflexivity]. intros [Hc|Hin]; [|exact (Hno Hin)].
        apply (proj2 (HasPrefix_colon c s)) in Hc. congruence.
    + unfold len. destruct (Z.leb_spec 0 (i + 1 + Z.of_nat (String.length host))); [|lia].
      right. exists (String c host), tail. split; [reflexivity|].
      split; [exact Hno|]. simpl String.length. lia.
Qed.

Lemma string_length_append (a b : string) :
  String.length (a ++ b) = (String.length a + String.length b)%nat.
Proof. induction a as [|c a IH]; simpl; [reflexivity | rewrite IH; reflexivity]. Qed.

Lemma substring_all (s : string) : String.substring 0 (String.length s) s = s.
Proof. induction s as [|c s IH]; simpl; [reflexivity | rewrite IH; reflexivity]. Qed.

Lemma substring_head (a b : string) :
  String.substring 0 (String.length a) (a ++ b) = a.
Proof.
  induction a as [|c a IH]; simpl.
  - destruct b; reflexivity.
  - rewrite IH. reflexivity.
Qed.

Lemma substring_tail (a b : string) :
  String.substring (String.length a) (String.length b) (a ++ b) = b.
Proof.
  induction a as [|c a IH]; simpl; [apply substring_all | exact IH].
Qed.

Lemma slice_at_boundary (host rest : string) :
  slice_to (host ++ rest) (len host) = Some host
  /\ slice_from (host ++ rest) (len host) = Some rest.
Proof.
  unfold slice_to, slice_from, len. rewrite string_length_append, Nat2Z.id.
  destruct (Z.leb_spec 0 (Z.of_nat (String.length host))); [|lia].
  destruct (Z.leb_spec (Z.of_nat (String.length host))
                       (Z.of_nat (String.length host + String.length rest))); [|lia].
  simpl andb. cbv iota. rewrite substring_head.
  replace (String.length host + String.length rest - String.length host)%nat
    with (String.length rest) by lia.
  rewrite substring_tail. auto.
Qed.


(** ** Lines of a file *)

Lemma split_lf_join data : forall l ls,
  Paths.split_lf data = (l, ls) ->
  data = join_lf (l :: ls) /\ Forall no_lf (l :: ls).
Proof.
  induction data as [|c data IH]; intros l ls H.
  - injection H as <- <-. split; [reflexivity|]. repeat constructor. intros [].
  - cbn [Paths.split_lf] in H.
    destruct (Paths.split_lf data) as [l0 ls0].
    destruct (IH l0 ls0 eq_refl) as [Hj Hf].
    destruct (Ascii.eqb c lf) eqn:Hc.
    + apply Ascii.eqb_eq in Hc as ->. injection H as <- <-.
      split.
      * rewrite Hj. reflexivity.
      * constructor; [intros []|exact Hf].
    + injection H as <- <-. apply Ascii.eqb_neq in Hc.
      apply Forall_cons in Hf as [Hl0 Hls0].
      split.
      * rewrite Hj. destruct ls0; reflexivity.
      * constructor; [|exact Hls0]. intros [Heq|Hin]; [congruence|exact (Hl0 Hin)].
Qed.

Lemma Split_join data :
  data = join_lf (Paths.Split data) /\ Forall no_lf (Paths.Split data)
  /\ Paths.Split data <> [].
Proof.
  unfold Paths.Split. destruct (Paths.split_lf data) as [l ls] eqn:H.
  destruct (split_lf_join data l ls H). auto.
Qed.

Lemma string_app_assoc (a b c : string) : (a ++ b) ++ c = a ++ (b ++ c).
Proof.
  induction a as [|x a IH]; [reflexivity|].
  change (String x ((a ++ b) ++ c) = String x (a ++ (b ++ c))).
  rewrite IH. reflexivity.
Qed.

Lemma unlines_app (a b : list string) :
  unlines (a ++ b) = unlines a ++ unlines b.
Proof.
  induction a as [|l a IH]; [reflexivity|].
  change (l ++ String lf (unlines (a ++ b)) = (l ++ String lf (unlines a)) ++ unlines b).
  rewrite IH, string_app_assoc. reflexivity.
Qed.

(** The lines a scanner yields from the pieces: the text is these lines,
    each ended by a line feed but possibly the last, which is then not
    empty. *)
Lemma drop_empty_last_lines (pieces : list string) :
  pieces <> [] ->
  let raw := Paths.drop_empty_last pieces in
  (forall l, In l raw -> In l pieces)
  /\ (join_lf pieces = unlines raw
      \/ exists init last,
           raw = (init ++ [last])%list /\ last <> ""
           /\ join_lf pieces = unlines init ++ last).
Proof.
  induction pieces as [|l [|l' ls] IH]; intros Hne; [congruence| |].
  - cbn [Paths.drop_empty_last].
    destruct (String.eqb l "") eqn:He.
    + apply String.eqb_eq in He as ->. split; [intros l []|]. left. reflexivity.
    + apply String.eqb_neq in He. split; [auto|]. right. exists [], l. auto.
  - destruct IH as [Hin Hcase]; [discriminate|].
    change (Paths.drop_empty_last (l :: l' :: ls))
      with (l :: Paths.drop_empty_last (l' :: ls)).
    change (join_lf (l :: l' :: ls)) with (l ++ String lf (join_lf (l' :: ls))).
    cbv zeta. split.
    + intros x [->|Hx]; [left; reflexivity | right; apply Hin, Hx].
    + destruct Hcase as [->|(init & last & Hraw & Hlast & ->)].
      * left. reflexivity.
      * right. exists (l :: init), last. rewrite Hraw.
        split; [reflexivity|]. split; [exact Hlast|].
        change (unlines (l :: init)) with (l ++ String lf (unlines init)).
        rewrite string_app_assoc. reflexivity.
Qed.

Lemma dropCR_spec (l : string) :
  (exists l', l = l' ++ String cr "" /\ Paths.dropCR l = l')
  \/ (Paths.dropCR l = l /\ forall l', l <> l' ++ String cr "").
Proof.
  induction l as [|c l IH].
  - right. split; [reflexivity|]. intros [|x l']; discriminate.
  - destruct l as [|d l].
    + cbn [Paths.dropCR]. destruct (Ascii.eqb c cr) eqn:Hc.
      * apply Ascii.eqb_eq in Hc as ->. left. exists "". auto.
      * apply Ascii.eqb_neq in Hc. right. split; [reflexivity|].
        intros [|x [|y l']] H; try discriminate.
        injection H as ->. congruence.
    + change (Paths.dropCR (String c (String d l)))
        with (String c (Paths.dropCR (String d l))).
      destruct IH as [(l' & Hl & ->)|[-> Hno]].
      * left. exists (String c l'). rewrite Hl. auto.
      * right. split; [reflexivity|]. intros [|x l'] H; [discriminate|].
        change (String x l' ++ String cr "") with (String x (l' ++ String cr "")) in H.
        injection H as _ H. exact (Hno l' H).
Qed.


(** ** Attempts that all fail *)

Section Exhausted.
Variable env : Env.
Variable lib : Lib.
Variables baseURL path ua : string.
Let W := World ScanResult ScannerConfig.

Lemma failed_fail e : failed (fail e).
Proof. left. discriminate. Qed.

Lemma exec_loop_all_fail n : forall (v : Scan.Vars) (w : W),
  NewRequest lib (baseURL ++ path) = None ->
  Scan.resp v = None ->
  (forall k, (k < n)%nat ->
     exists e, server env (length (w_reqs w) + k) (baseURL ++ path) ua = fail e) ->
  exists w',
    exec env (Scan.loop lib baseURL path ua n v) w = (w', Done (Some v))
    /\ w_chan w' = w_chan w
    /\ w_nrand w' = w_nrand w /\ w_wg w' = w_wg w
    /\ length (w_reqs w') = (length (w_reqs w) + n)%nat
    /\ length (w_sleeps w') = (length (w_sleeps w) + n)%nat.
Proof.
  induction n as [|n IH]; intros v w Hreq Hv Hsrv.
  - exists w. simpl. repeat split; lia.
  - destruct (Hsrv 0%nat ltac:(lia)) as [e He]. rewrite Nat.add_0_r in He.
    cbn [Scan.loop]. rewrite exec_bind.
    rewrite (exec_loop_body_failure env lib baseURL path ua v w Hreq)
      by (rewrite He; apply failed_fail).
    rewrite He. simpl do_resp.
    assert ({| Scan.resp := None; Scan.err := Scan.err v |} = v) as ->
      by (destruct v; simpl in Hv; subst; reflexivity).
    destruct (IH v (backoff (requested (baseURL ++ path) ua w)) Hreq Hv)
      as (w' & Hex & Hch & Hn & Hwg & Hr & Hs).
    { intros k Hk. destruct (Hsrv (S k) ltac:(lia)) as [e' He'].
      exists e'. simpl. rewrite length_app. simpl.
      replace (length (w_reqs w) + 1 + k)%nat with (length (w_reqs w) + S k)%nat by lia.
      exact He'. }
    exists w'. rewrite Hex. simpl in *. rewrite length_app in Hr, Hs. simpl in *.
    repeat split; auto; lia.
Qed.
End Exhausted.

Lemma scan_exhausted_errors_emit_nothing (lib : Lib) (env : Env)
    (baseURL path : string) (uas : list string)
    (w : World ScanResult ScannerConfig) :
  NewRequest lib (baseURL ++ path) = None ->
  uas <> [] ->
  0 < w_wg w ->
  (forall k ua, (k < 3)%nat ->
     exists e, server env (length (w_reqs w) + k) (baseURL ++ path) ua = fail e) ->
  let out := exec env (Scan.scanTarget lib baseURL path uas) w in
  out.2 = Done tt
  /\ length (w_reqs out.1) = (length (w_reqs w) + 3)%nat
  /\ w_chan out.1 = w_chan w.
Proof.
  intros Hreq Hne Hwg Hsrv.
  destruct (@elem_at_draw ScanResult uas (rng env (w_nrand w)) Hne) as (ua & _ & Hix).
  assert (0 < Z.of_nat (length uas)) as Hlen by (destruct uas; [congruence | simpl; lia]).
  unfold Scan.scanTarget. cbv zeta. rewrite exec_bind.
  unfold randIntn. cbn [bind exec].
  destruct (Z.leb_spec (Z.of_nat (length uas)) 0) as [?|_]; [lia|].
  rewrite exec_bind, Hix. cbn [exec]. rewrite exec_bind.
  destruct (exec_loop_all_fail env lib baseURL path ua 3
              {| Scan.resp := None; Scan.err := None |}
              (with_nrand (S (w_nrand w)) w) Hreq eq_refl)
    as (w' & Hex & Hch & Hn & Hwg' & Hr & Hs).
  { intros k Hk. apply Hsrv, Hk. }
  rewrite Hex. cbn [Scan.after_loop Scan.err Scan.resp exec wgDone].
  simpl in Hwg', Hr, Hch.
  destruct (Z.ltb_spec (w_wg w' - 1) 0) as [?|_]; [lia|].
  simpl. auto.
Qed.


Section SingleExhausted.
Context {C : Type} `{DelayCell C}.
Variable env : Env.
Variable lib : Lib.
Variables baseURL path ua : string.

Lemma exec_single_loop_all_fail n : forall (v : Single.Vars) (w : World string C),
  NewRequest lib (baseURL ++ path) = None ->
  Single.resp v = None ->
  (forall k, (k < n)%nat ->
     exists e, server env (length (w_reqs w) + k) (baseURL ++ path) ua = fail e) ->
  exists w',
    exec env (Single.loop lib baseURL path ua n v) w = (w', Done (Some v))
    /\ w_chan w' = w_chan w
    /\ w_wg w' = w_wg w
    /\ length (w_reqs w') = (length (w_reqs w) + n)%nat.
Proof.
  induction n as [|n IH]; intros v w Hreq Hv Hsrv.
  - exists w. simpl. repeat split; lia.
  - destruct (Hsrv 0%nat ltac:(lia)) as [e He]. rewrite Nat.add_0_r in He.
    cbn [Single.loop]. rewrite exec_bind. unfold Single.loop_body. rewrite Hreq.
    unfold clientDo. cbn [bind exec]. rewrite He. cbn [fail do_err do_resp].
    unfold loadDelay, sleep, storeDelay. cbn [bind exec].
    assert ({| Single.resp := None; Single.err := Single.err v |} = v) as ->
      by (destruct v; simpl in Hv; subst; reflexivity).
    match goal with |- context [exec env (Single.loop _ _ _ _ n v) ?w1] =>
      destruct (IH v w1 Hreq Hv) as (w' & Hex & Hch & Hwg & Hr)
    end.
    { intros k Hk. destruct (Hsrv (S k) ltac:(lia)) as [e' He'].
      exists e'. simpl. rewrite length_app. simpl.
      replace (length (w_reqs w) + 1 + k)%nat with (length (w_reqs w) + S k)%nat by lia.
      exact He'. }
    exists w'. rewrite Hex. simpl in *. rewrite length_app in Hr. simpl in *.
    repeat split; auto; lia.
Qed.
End SingleExhausted.

Lemma single_exhausted_errors_emit_nothing {C : Type} `{DelayCell C}
    (lib : Lib) (env : Env) (baseURL path : string) (uas : list string)
    (w : World string C) :
  NewRequest lib (baseURL ++ path) = None ->
  uas <> [] ->
  0 < w_wg w ->
  (forall k ua, (k < 3)%nat ->
     exists e, server env (length (w_reqs w) + k) (baseURL ++ path) ua = fail e) ->
  let out := exec env (Single.scanTarget lib baseURL path uas) w in
  out.2 = Done tt
  /\ length (w_reqs out.1) = (length (w_reqs w) + 3)%nat
  /\ w_chan out.1 = w_chan w.
Proof.
  intros Hreq Hne Hwg Hsrv.
  destruct (@elem_at_draw string uas (rng env (w_nrand w)) Hne) as (ua & _ & Hix).
  assert (0 < Z.of_nat (length uas)) as Hlen by (destruct uas; [congruence | simpl; lia]).
  unfold Single.scanTarget. cbv zeta. rewrite exec_bind.
  unfold randIntn. cbn [bind exec].
  destruct (Z.leb_spec (Z.of_nat (length uas)) 0) as [?|_]; [lia|].
  rewrite exec_bind, Hix. cbn [exec]. rewrite exec_bind.
  destruct (exec_single_loop_all_fail env lib baseURL path ua 3
              {| Single.resp := None; Single.err := None |}
              (with_nrand (S (w_nrand w)) w) Hreq eq_refl)
    as (w' & Hex & Hch & Hwg' & Hr).
  { intros k Hk. apply Hsrv, Hk. }
  rewrite Hex. cbn [Single.after_loop Single.err Single.resp exec wgDone].
  simpl in Hwg', Hr, Hch.
  destruct (Z.ltb_spec (w_wg w' - 1) 0) as [?|_]; [lia|].
  simpl. auto.
Qed.


(** ** Claims *)

(** C1 does not hold of [scan.go], nor of the single-file variant.  A task
    whose three attempts all fail with an error and no response makes its
    three requests and returns normally, and sends nothing on the results
    channel: the assignment [resp, err = client.Do(req)] writes the [err]
    declared inside the loop body, so the test [err != nil] after the loop,
    which guards the send of the error result, never sees the failure. *)
Theorem exhausted_errors_emit_nothing (lib : Lib) (env : Env)
    (baseURL path : string) (uas : list string)
    (w : World ScanResult ScannerConfig) (ws : World string Single.ScannerConfig) :
  NewRequest lib (baseURL ++ path) = None ->
  uas <> [] ->
  0 < w_wg w ->
  0 < w_wg ws ->
  (forall k ua, (k < 3)%nat ->
     exists e, server env (length (w_reqs w) + k) (baseURL ++ path) ua = fail e) ->
  (forall k ua, (k < 3)%nat ->
     exists e, server env (length (w_reqs ws) + k) (baseURL ++ path) ua = fail e) ->
  let out := exec env (Scan.scanTarget lib baseURL path uas) w in
  let outs := exec env (Single.scanTarget lib baseURL path uas) ws in
  (out.2 = Done tt
   /\ length (w_reqs out.1) = (length (w_reqs w) + 3)%nat
   /\ w_chan out.1 = w_chan w)
  /\ (outs.2 = Done tt
      /\ length (w_reqs outs.1) = (length (w_reqs ws) + 3)%nat
      /\ w_chan outs.1 = w_chan ws).
Proof.
  intros Hreq Hne Hwg Hwgs Hsrv Hsrvs. split.
  - apply scan_exhausted_errors_emit_nothing; assumption.
  - apply single_exhausted_errors_emit_nothing; assumption.
Qed.

Lemma exhausted_errors_emit_nothing_witness :
  let out := Fixtures.scan Fixtures.unreachable (100 * Millisecond) "/admin" in
  let outs := Fixtures.scan_single Fixtures.unreachable (100 * Millisecond) "/admin" in
  (out.2 = Done tt
   /\ length (w_reqs out.1) = 3%nat
   /\ w_chan out.1 = [])
  /\ (outs.2 = Done tt
      /\ length (w_reqs outs.1) = 3%nat
      /\ w_chan outs.1 = []).
Proof.
  apply (exhausted_errors_emit_nothing Fixtures.lib_ok Fixtures.unreachable
           "http://test.local" "/admin" Fixtures.agents
           (Fixtures.fresh_world (Fixtures.cfg (100 * Millisecond)))
           (Fixtures.fresh_world (Fixtures.cfg_single (100 * Millisecond)))).
  - reflexivity.
  - discriminate.
  - reflexivity.
  - reflexivity.
  - intros k ua _. eexists. reflexivity.
  - intros k ua _. eexists. reflexivity.
Defined.


(** Nor is a 404 terminal at the attempt that receives it: the task asks
    again, twice and at once, before it gives up in silence. *)
Lemma status_404_is_retried :
  let out := Fixtures.scan (Fixtures.always 404) (100 * Millisecond) "/admin" in
  claimed_transition (respond 404) = Terminal
  /\ length (w_reqs out.1) = 3%nat /\ w_sleeps out.1 = [] /\ w_chan out.1 = [].
Proof. cbv zeta. repeat split; reflexivity. Qed.



(** With a server that always answers 500, the task of [cmd/main.go] makes
    its three attempts and sleeps after each. *)
Example cmd_retries_status_500 :
  let out := Fixtures.scan_cmd (Fixtures.always 500) (100 * Millisecond) "/admin" in
  length (w_reqs out.1) = 3%nat
  /\ w_sleeps out.1 = [100 * Millisecond; 200 * Millisecond; 400 * Millisecond]
  /\ w_chan out.1 = [].
Proof. cbv zeta. repeat split; reflexivity. Qed.

(** A task taken alone, the results channel open: when its first attempt
    is answered with status 429 it makes that one request, does not sleep,
    leaves the delay alone, sends exactly one result, the rate-limited
    one, and returns normally, so that the worker goes on with the next
    path.  This holds of [scanTarget] in [scan.go] and in [cmd/main.go]. *)
Theorem rate_limited_is_final (lib : Lib) (env : Env) (baseURL path : string)
    (uas : list string) (w : World ScanResult ScannerConfig)
    (wc : World string Cmd.ScannerConfig) :
  NewRequest lib (baseURL ++ path) = None ->
  NewRequest lib (TrimSpace lib (baseURL ++ path)) = None ->
  uas <> [] ->
  0 < w_wg w ->
  0 < w_wg wc ->
  (forall ua, server env (length (w_reqs w)) (baseURL ++ path) ua
              = respond StatusTooManyRequests) ->
  (forall ua, server env (length (w_reqs wc)) (TrimSpace lib (baseURL ++ path)) ua
              = respond StatusTooManyRequests) ->
  let out := exec env (Scan.scanTarget lib baseURL path uas) w in
  let outc := exec env (Cmd.scanTarget lib baseURL path uas) wc in
  (out.2 = Done tt
   /\ length (w_reqs out.1) = S (length (w_reqs w))
   /\ w_sleeps out.1 = w_sleeps w
   /\ w_config out.1 = w_config w
   /\ w_chan out.1 =
      (w_chan w ++ [{| URL := baseURL ++ path; StatusCode := 429;
                       Status := "Rate limited"; ErrorMessage := "" |}])%list)
  /\ (outc.2 = Done tt
      /\ length (w_reqs outc.1) = S (length (w_reqs wc))
      /\ w_sleeps outc.1 = w_sleeps wc
      /\ w_config outc.1 = w_config wc
      /\ w_chan outc.1 = (w_chan wc ++ [Cmd.rate_limit baseURL path])%list).
Proof.
  intros Hreq Hreqc Hne Hwg Hwgc Hsrv Hsrvc. cbv zeta. split.
  - destruct (exec_scanTarget_machine lib env baseURL path uas w Hreq Hne Hwg)
      as (ua & _ & H).
    cbv zeta in H. cbn [machine] in H. rewrite Hsrv in H.
    remember (exec env (Scan.scanTarget lib baseURL path uas) w) as out.
    cbn in H. destruct H as (Ho & Hr & Hs & Hch & Hcf).
    rewrite Ho, Hr, Hs, Hch, Hcf, length_app, app_nil_r, set_adaptiveDelay_same.
    simpl. repeat split; try reflexivity; lia.
  - destruct (@elem_at_draw string uas (rng env (w_nrand wc)) Hne) as (ua & _ & Hix).
    assert (0 < Z.of_nat (length uas)) as Hlen by (destruct uas; [congruence | simpl; lia]).
    unfold Cmd.scanTarget, atomicAdd, loadDelay. cbn [bind exec Cmd.loop].
    unfold Cmd.loop_body. rewrite Hreqc. rewrite !exec_bind.
    unfold randIntn. cbn [exec w_nrand with_slots].
    destruct (Z.leb_spec (Z.of_nat (length uas)) 0) as [?|_]; [lia|].
    rewrite !exec_bind. rewrite Hix. cbn [exec]. rewrite !exec_bind.
    unfold clientDo. cbn [exec w_reqs with_nrand with_slots]. rewrite Hsrvc. cbn.
    destruct (Z.ltb_spec (w_wg wc - 1) 0) as [?|_]; [lia|]. simpl.
    rewrite length_app. simpl. repeat split; try reflexivity; lia.
Qed.

Lemma rate_limited_is_final_witness :
  let out := Fixtures.scan (Fixtures.always 429) (100 * Millisecond) "/login" in
  let outc := Fixtures.scan_cmd (Fixtures.always 429) (100 * Millisecond) "/login" in
  (out.2 = Done tt
   /\ length (w_reqs out.1) = 1%nat
   /\ w_sleeps out.1 = []
   /\ w_config out.1 = Fixtures.cfg (100 * Millisecond)
   /\ w_chan out.1 =
      [{| URL := "http://test.local/login"; StatusCode := 429;
          Status := "Rate limited"; ErrorMessage := "" |}])
  /\ (outc.2 = Done tt
      /\ length (w_reqs outc.1) = 1%nat
      /\ w_sleeps outc.1 = []
      /\ w_config outc.1 = Fixtures.cfg_cmd (100 * Millisecond)
      /\ w_chan outc.1 = [Cmd.rate_limit "http://test.local" "/login"]).
Proof.
  apply (rate_limited_is_final Fixtures.lib_ok (Fixtures.always 429)
           "http://test.local" "/login" Fixtures.agents
           (Fixtures.fresh_world (Fixtures.cfg (100 * Millisecond)))
           (Fixtures.fresh_world (Fixtures.cfg_cmd (100 * Millisecond))));
    try reflexivity; try discriminate.
Defined.

(** C6 does not hold of [runScanner] in [scan.go]: the worker calls
    [wg.Add(1)] only after it has received a path, so [wg.Wait()] can
    return and the results channel be closed before the task sends.  With
    one worker and the one path [/login], answered with 429: when
    [runScanner] seeds the queue, closes it, passes [wg.Wait()] and closes
    the results channel before the worker moves, the task makes its one
    request, makes no second one and does not sleep, but its send of the
    rate-limited result panics on the closed channel: the process ends
    there, with no result for the path collected or written. *)
Theorem rate_limited_send_panics_after_close :
  option_map (fun s => (Pool.crashed s, Pool.reqs s, Pool.sleeps s,
                        Pool.buf (Pool.resultsChan s), Pool.results s,
                        Pool.written s))
    (Pool.run Fixtures.lib_ok (Fixtures.always 429)
       (replicate 4 Pool.Main ++ replicate 5 (Pool.Worker 0))%list
       (Pool.init (Fixtures.cfg (100 * Millisecond)) ["/login"]))
  = Some (Some "send on closed channel",
          [("http://test.local/login", "agent-a")], [], [], [], None).
Proof. vm_compute. reflexivity. Qed.

(** The same path, when the worker is scheduled before [runScanner] reaches
    [wg.Wait()], yields the rate-limited result, and the run goes on to
    its end. *)
Lemma rate_limited_arrives_when_worker_is_first :
  option_map (fun s => (Pool.main s, Pool.crashed s, Pool.reqs s, Pool.sleeps s,
                        Pool.written s))
    (Pool.run Fixtures.lib_ok (Fixtures.always 429)
       ([Pool.Main] ++ replicate 7 (Pool.Worker 0) ++ replicate 3 Pool.Main
        ++ replicate 2 Pool.Collector ++ [Pool.Main])%list
       (Pool.init (Fixtures.cfg (100 * Millisecond)) ["/login"]))
  = Some (Pool.Exited, None, [("http://test.local/login", "agent-a")], [],
          Some [{| URL := "http://test.local/login"; StatusCode := 429;
                   Status := "Rate limited"; ErrorMessage := "" |}]).
Proof. vm_compute. reflexivity. Qed.

(** C3, as stated, is false of [scan.go]: a task whose attempts fail
    doubles the [adaptiveDelay] field of the configuration [runScanner]
    holds, and the next task backs off from the value the previous one
    left. *)
Lemma adaptive_delay_is_shared :
  let one := Fixtures.scan Fixtures.unreachable (100 * Millisecond) "/admin" in
  let two := exec_tasks Fixtures.unreachable
               (fun path => Scan.scanTarget Fixtures.lib_ok "http://test.local" path
                                            Fixtures.agents)
               ["/admin"; "/secret"]
               (mkWorld (Fixtures.cfg (100 * Millisecond)) [] [] [] 0%nat 0 0) in
  w_config one.1 <> Fixtures.cfg (100 * Millisecond)
  /\ adaptiveDelay (w_config one.1) = 800 * Millisecond
  /\ w_sleeps two.1 = map (fun k => k * Millisecond) [100; 200; 400; 800; 1600; 3200].
Proof.
  cbv zeta. split; [|split]; [|reflexivity|reflexivity].
  intros H. apply (f_equal adaptiveDelay) in H. vm_compute in H. discriminate.
Qed.

(** C3, amended.  In [scan.go] every field of the configuration other than
    [adaptiveDelay] stays what it was, along every schedule of the
    goroutines of [runScanner]; [adaptiveDelay] is shared by all tasks
    through the pointer they are given, and a task sleeps for its current
    value and doubles it in place after each failed attempt.  In
    [cmd/main.go] a task copies the configured delay into a local variable
    and doubles the copy: the configuration stays what it was and every task
    starts its back-off from the configured delay. *)
Theorem config_frame (lib : Lib) (env : Env) :
  (forall sched s s',
     Pool.run lib env sched s = Some s' ->
     same_but_delay (Pool.config s) (Pool.config s'))
  /\ (forall baseURL path uas (w : World ScanResult ScannerConfig),
        uas <> [] -> 0 < w_wg w ->
        let out := exec env (Scan.scanTarget lib baseURL path uas) w in
        exists backoffs : nat,
          (backoffs <= 3)%nat
          /\ w_sleeps out.1 =
             (w_sleeps w ++ doublings backoffs (adaptiveDelay (w_config w)))%list
          /\ w_config out.1 =
             set_adaptiveDelay (Nat.iter backoffs dbl (adaptiveDelay (w_config w)))
                               (w_config w))
  /\ (forall baseURL path uas (w : World string Cmd.ScannerConfig),
        uas <> [] ->
        let out := exec env (Cmd.scanTarget lib baseURL path uas) w in
        w_config out.1 = w_config w
        /\ exists backoffs : nat,
             (backoffs <= 3)%nat
             /\ w_sleeps out.1 =
                (w_sleeps w ++ doublings backoffs (Cmd.AdaptiveDelay (w_config w)))%list).
Proof.
  split; [|split].
  - apply run_frame.
  - intros baseURL path uas w Hne Hwg. cbv zeta.
    destruct (exec_scanTarget_shape env lib baseURL path uas w Hne Hwg)
      as [ua k j em _ _ _ Hb _ Hs Hc _ _ _ _].
    exists j. split; [lia|]. auto.
  - intros baseURL path uas w Hne. cbv zeta.
    destruct (exec_cmd_scanTarget_shape env lib baseURL path uas w Hne)
      as (Hc & j & ags & Hb & _ & Hs & _).
    split; [exact Hc|]. exists j. auto.
Qed.

Lemma config_frame_witness :
  (exists backoffs : nat,
     (backoffs <= 3)%nat
     /\ w_sleeps (Fixtures.scan Fixtures.unreachable (100 * Millisecond) "/admin").1 =
        ([] ++ doublings backoffs (100 * Millisecond))%list
     /\ w_config (Fixtures.scan Fixtures.unreachable (100 * Millisecond) "/admin").1 =
        set_adaptiveDelay (Nat.iter backoffs dbl (100 * Millisecond))
                          (Fixtures.cfg (100 * Millisecond)))
  /\ w_config (Fixtures.scan_cmd Fixtures.unreachable (100 * Millisecond) "/admin").1
     = Fixtures.cfg_cmd (100 * Millisecond).
Proof.
  destruct (config_frame Fixtures.lib_ok Fixtures.unreachable) as (_ & Hscan & Hcmd).
  split.
  - apply (Hscan "http://test.local" "/admin" Fixtures.agents
                 (Fixtures.fresh_world (Fixtures.cfg (100 * Millisecond)))).
    + discriminate.
    + reflexivity.
  - apply (Hcmd "http://test.local" "/admin" Fixtures.agents
                (Fixtures.fresh_world (Fixtures.cfg_cmd (100 * Millisecond)))).
    discriminate.
Defined.

(** C8, as stated, is false of [scan.go]: a task that makes three attempts
    draws once and sends the same user-agent three times, where a draw per
    attempt would have sent three different ones. *)
Lemma one_draw_serves_three_attempts :
  let out := Fixtures.scan Fixtures.unreachable (100 * Millisecond) "/admin" in
  map snd (w_reqs out.1) = ["agent-a"; "agent-a"; "agent-a"]
  /\ w_nrand out.1 = 1%nat
  /\ map (agent_at Fixtures.unreachable Fixtures.agents) [0; 1; 2]%nat
     = [Some "agent-a"; Some "agent-b"; Some "agent-c"]
  /\ ~ (forall j rq, w_reqs out.1 !! j = Some rq ->
                     agent_at Fixtures.unreachable Fixtures.agents j = Some rq.2).
Proof.
  cbv zeta. repeat split; try reflexivity.
  intros H. specialize (H 1%nat ("http://test.local/admin", "agent-a") eq_refl).
  vm_compute in H. discriminate.
Qed.

(** C8, amended.  In [scan.go] a task draws one user-agent before its first
    attempt, [userAgents[rand.Intn(len(userAgents))]], and every attempt of
    the task carries it.  In [cmd/main.go] every attempt that builds a
    request makes a draw of its own. *)
Theorem one_agent_per_task (lib : Lib) (env : Env) (baseURL path : string)
    (uas : list string) (w : World ScanResult ScannerConfig)
    (wc : World string Cmd.ScannerConfig) :
  uas <> [] ->
  0 < w_wg w ->
  let out := exec env (Scan.scanTarget lib baseURL path uas) w in
  let outc := exec env (Cmd.scanTarget lib baseURL path uas) wc in
  (exists (ua : string) (attempts : nat),
     agent_at env uas (w_nrand w) = Some ua
     /\ w_nrand out.1 = S (w_nrand w)
     /\ w_reqs out.1 =
        (w_reqs w ++ replicate attempts (baseURL ++ path, ua)%string)%list)
  /\ (exists agents : list string,
        w_nrand outc.1 = (w_nrand wc + length agents)%nat
        /\ w_reqs outc.1 =
           (w_reqs wc ++ map (fun ua => (TrimSpace lib (baseURL ++ path), ua)) agents)%list
        /\ forall j ua, agents !! j = Some ua ->
                        agent_at env uas (w_nrand wc + j) = Some ua).
Proof.
  intros Hne Hwg. cbv zeta. split.
  - destruct (exec_scanTarget_shape env lib baseURL path uas w Hne Hwg)
      as [ua k j em _ Hua Hn _ Hr _ _ _ _ _ _].
    exists ua, k. auto.
  - destruct (exec_cmd_scanTarget_shape env lib baseURL path uas wc Hne)
      as (_ & j & ags & _ & _ & _ & Hr & Hn & Ha).
    exists ags. auto.
Qed.

Lemma one_agent_per_task_witness :
  let out := Fixtures.scan Fixtures.unreachable (100 * Millisecond) "/admin" in
  let outc := Fixtures.scan_cmd Fixtures.unreachable (100 * Millisecond) "/admin" in
  (exists (ua : string) (attempts : nat),
     agent_at Fixtures.unreachable Fixtures.agents 0 = Some ua
     /\ w_nrand out.1 = 1%nat
     /\ w_reqs out.1 = ([] ++ replicate attempts ("http://test.local/admin", ua))%list)
  /\ (exists agents : list string,
        w_nrand outc.1 = (0 + length agents)%nat
        /\ w_reqs outc.1 =
           ([] ++ map (fun ua => ("http://test.local/admin", ua)) agents)%list
        /\ forall j ua, agents !! j = Some ua ->
                        agent_at Fixtures.unreachable Fixtures.agents (0 + j) = Some ua).
Proof.
  apply (one_agent_per_task Fixtures.lib_ok Fixtures.unreachable
           "http://test.local" "/admin" Fixtures.agents
           (Fixtures.fresh_world (Fixtures.cfg (100 * Millisecond)))
           (Fixtures.fresh_world (Fixtures.cfg_cmd (100 * Millisecond)))).
  - discriminate.
  - reflexivity.
Defined.


(** Nor does the doubling keep growing: [time.Duration] is an [int64] and
    the product wraps around. *)
Lemma doubling_wraps_around :
  let out := Fixtures.scan Fixtures.unreachable (2 ^ 62) "/admin" in
  w_sleeps out.1 = [2 ^ 62; - 2 ^ 63; 0]
  /\ adaptiveDelay (w_config out.1) = 0.
Proof. cbv zeta. split; reflexivity. Qed.

(** With two workers the load and the store of [*adaptiveDelay *= 2] of one
    task can enclose two doublings of another, and the store brings the
    delay back down. *)
Lemma unsynchronised_doubling_loses_updates :
  option_map (fun s => (Pool.sleeps s, adaptiveDelay (Pool.config s)))
    (Pool.run Fixtures.lib_ok Fixtures.unreachable
       ([Pool.Main; Pool.Main] ++ replicate 7 (Pool.Worker 0)
        ++ replicate 16 (Pool.Worker 1) ++ replicate 4 (Pool.Worker 0))
       (Pool.init (Fixtures.pool_cfg 2 100) ["/admin"; "/secret"]))
  = Some ([100; 100; 200; 400; 200], 200).
Proof. vm_compute. reflexivity. Qed.




(** C2 does not hold of [runScanner]: the worker calls [wg.Add(1)] only
    after it has received a path, so [wg.Wait()] can return while a path is
    still queued.  With one worker and the one path [/robots.txt], which
    the server answers with 200: if [runScanner] seeds the queue, closes it,
    passes [wg.Wait()] and closes the results channel before the worker
    moves, the worker's send panics on the closed channel and no outcome
    exists for the path; if [runScanner] runs to its end first, the output
    is written empty and the process ends with the path still queued and no
    request made. *)
Theorem results_closed_before_task_ran :
  let s0 := Pool.init (Fixtures.cfg (100 * Millisecond)) ["/robots.txt"] in
  let run := Pool.run Fixtures.lib_ok (Fixtures.always 200) in
  option_map (fun s => (Pool.crashed s, Pool.closed (Pool.resultsChan s),
                        Pool.buf (Pool.resultsChan s), Pool.results s))
             (run (replicate 4 Pool.Main ++ replicate 5 (Pool.Worker 0))%list s0)
  = Some (Some "send on closed channel", true, [], [])
  /\ option_map (fun s => (Pool.main s, Pool.written s,
                           Pool.buf (Pool.tasksChan s), Pool.reqs s))
                (run (replicate 5 Pool.Main) s0)
     = Some (Pool.Exited, Some [], ["/robots.txt"], []).
Proof. cbv zeta. split; vm_compute; reflexivity. Qed.

(** The same path, when the worker is scheduled before [runScanner] reaches
    [wg.Wait()], yields its one outcome. *)
Lemma results_arrive_when_worker_is_first :
  option_map (fun s => (Pool.main s, Pool.crashed s, Pool.written s))
    (Pool.run Fixtures.lib_ok (Fixtures.always 200)
       ([Pool.Main] ++ replicate 7 (Pool.Worker 0) ++ replicate 3 Pool.Main
        ++ replicate 2 Pool.Collector ++ [Pool.Main])%list
       (Pool.init (Fixtures.cfg (100 * Millisecond)) ["/robots.txt"]))
  = Some (Pool.Exited, None,
          Some [Scan.found "http://test.local" "/robots.txt" 200]).
Proof. vm_compute. reflexivity. Qed.

(** C5.  When the cache holds an entry for the host that is younger than
    five minutes, [lookup] returns its address and changes nothing: no call
    of the resolver is made.  Otherwise it calls the resolver exactly once;
    when the resolver returns addresses, [lookup] returns the first one and
    stores it with the time of the store under the host, in place of any
    entry that was there; when the resolver returns an error, [lookup]
    returns that error as a value and leaves the entries as they were. *)
Theorem lookup_spec (net : Dns.Net) (host : string) (s : Dns.State) :
  (forall e, Dns.entries s !! host = Some e ->
             Dns.clock s - Dns.timestamp e < 5 * Minute ->
             Dns.lookup net host s = (s, Done (Dns.ip e, None)))
  /\ ((forall e, Dns.entries s !! host = Some e ->
                 5 * Minute <= Dns.clock s - Dns.timestamp e) ->
      let out := Dns.lookup net host s in
      Dns.lookups out.1 = (Dns.lookups s ++ [host])%list
      /\ (forall a rest,
            Dns.LookupHost net (length (Dns.lookups s)) host = inl (a :: rest) ->
            out.2 = Done (a, None)
            /\ Dns.entries out.1 =
               <[host := {| Dns.ip := a; Dns.timestamp := Dns.clock out.1 |}]>
                 (Dns.entries s)
            /\ Dns.entries out.1 !! host =
               Some {| Dns.ip := a; Dns.timestamp := Dns.clock out.1 |})
      /\ (forall e,
            Dns.LookupHost net (length (Dns.lookups s)) host = inr e ->
            out.2 = Done ("", Some e)
            /\ Dns.entries out.1 = Dns.entries s)).
Proof.
  split.
  - intros e He Hage. unfold Dns.lookup. rewrite He.
    apply fresh_iff in Hage. rewrite Hage. reflexivity.
  - intros Hstale. cbv zeta. rewrite (lookup_stale net host s Hstale).
    unfold Dns.resolve.
    destruct (Dns.LookupHost net (length (Dns.lookups s)) host) as [[|a rest]|e];
      simpl; (split; [reflexivity|]); split; intros; try discriminate.
    + match goal with H : inl _ = inl _ |- _ => injection H as <- <- end.
      rewrite lookup_insert_eq. auto.
    + match goal with H : inr _ = inr _ |- _ => injection H as <- end. auto.
Qed.

Lemma lookup_spec_witness :
  Dns.lookup Fixtures.resolver_down "test.local" Fixtures.warm_cache
  = (Fixtures.warm_cache, Done ("192.0.2.1", None))
  /\ (let out := Dns.lookup Fixtures.resolver_up "test.local" (Dns.newDNSCache 0) in
      Dns.lookups out.1 = ["test.local"]
      /\ out.2 = Done ("192.0.2.7", None)
      /\ Dns.entries out.1 !! "test.local"
         = Some {| Dns.ip := "192.0.2.7"; Dns.timestamp := 20 * Millisecond |})
  /\ (let out := Dns.lookup Fixtures.resolver_down "test.local" (Dns.newDNSCache 0) in
      out.2 = Done ("", Some "lookup test.local: no such host")
      /\ Dns.entries out.1 = ∅).
Proof.
  split; [|split].
  - apply (proj1 (lookup_spec Fixtures.resolver_down "test.local" Fixtures.warm_cache)
             {| Dns.ip := "192.0.2.1"; Dns.timestamp := 0 |}).
    + reflexivity.
    + reflexivity.
  - destruct (proj2 (lookup_spec Fixtures.resolver_up "test.local" (Dns.newDNSCache 0)))
      as (Hcalls & Hok & _).
    + intros e He. simpl in He. rewrite lookup_empty in He. discriminate.
    + destruct (Hok "192.0.2.7" ["192.0.2.8"] eq_refl) as (Hres & _ & Hentry).
      cbv zeta. split; [exact Hcalls|]. split; [exact Hres|]. exact Hentry.
  - destruct (proj2 (lookup_spec Fixtures.resolver_down "test.local" (Dns.newDNSCache 0)))
      as (_ & _ & Herr).
    + intros e He. simpl in He. rewrite lookup_empty in He. discriminate.
    + exact (Herr "lookup test.local: no such host" eq_refl).
Defined.

(** C9.  [cachedDialContext] slices [addr] at [strings.LastIndex(addr, ":")]
    without testing the index.  When [addr] holds no [':'] the index is -1
    and the slice expression panics, before any lookup or dial.  When it
    holds one, the slices are the host before the last [':'] and the port
    from it on, and the function goes on to the lookup and the dial. *)
Theorem cachedDialContext_needs_colon (net : Dns.Net) (network addr : string)
    (s : Dns.State) :
  (~ occurs ":"%char addr ->
   LastIndex addr ":" = -1
   /\ Dns.cachedDialContext net network addr s
      = (s, Panicked "slice bounds out of range"))
  /\ (occurs ":"%char addr ->
      exists host tail,
        addr = host ++ String ":"%char tail
        /\ ~ occurs ":"%char tail
        /\ LastIndex addr ":" = len host
        /\ Dns.cachedDialContext net network addr s =
           match Dns.lookup net host s with
           | (s', Done (_, Some e)) => (s', Done (inr e))
           | (s', Done (ip0, None)) =>
               (Dns.mkState (Dns.entries s') (Dns.clock s') (Dns.lookups s')
                  (Dns.dials s' ++ [(network, ip0 ++ String ":"%char tail)]),
                match Dns.Dial net network (ip0 ++ String ":"%char tail) with
                | Some e => Done (inr e)
                | None => Done (inl (ip0 ++ String ":"%char tail))
                end)
           | (s', Panicked msg) => (s', Panicked msg)
           end).
Proof.
  unfold Dns.cachedDialContext, LastIndex.
  destruct (lastIndexFrom_colon addr 0 ltac:(lia))
    as [[Hno Hix]|(host & tail & Haddr & Hno & Hix)].
  - split; [|intros Hocc; contradiction].
    intros _. rewrite Hix. split; reflexivity.
  - split.
    + intros Hnone. exfalso. apply Hnone. rewrite Haddr.
      clear. induction host as [|c host IH]; simpl; auto.
    + intros _. exists host, tail. rewrite Hix, Z.add_0_l.
      split; [exact Haddr|]. split; [exact Hno|]. split; [reflexivity|].
      rewrite Haddr.
      destruct (slice_at_boundary host (String ":"%char tail)) as [-> ->].
      reflexivity.
Qed.

Lemma cachedDialContext_needs_colon_witness :
  (LastIndex "localhost" ":" = -1
   /\ Dns.cachedDialContext Fixtures.resolver_up "tcp" "localhost" (Dns.newDNSCache 0)
      = (Dns.newDNSCache 0, Panicked "slice bounds out of range"))
  /\ (exists host tail,
        "test.local:80" = host ++ String ":"%char tail
        /\ ~ occurs ":"%char tail
        /\ LastIndex "test.local:80" ":" = len host
        /\ Dns.cachedDialContext Fixtures.resolver_up "tcp" "test.local:80"
             (Dns.newDNSCache 0) =
           match Dns.lookup Fixtures.resolver_up host (Dns.newDNSCache 0) with
           | (s', Done (_, Some e)) => (s', Done (inr e))
           | (s', Done (ip0, None)) =>
               (Dns.mkState (Dns.entries s') (Dns.clock s') (Dns.lookups s')
                  (Dns.dials s' ++ [("tcp", ip0 ++ String ":"%char tail)]),
                match Dns.Dial Fixtures.resolver_up "tcp"
                               (ip0 ++ String ":"%char tail) with
                | Some e => Done (inr e)
                | None => Done (inl (ip0 ++ String ":"%char tail))
                end)
           | (s', Panicked msg) => (s', Panicked msg)
           end).
Proof.
  split.
  - apply (proj1 (cachedDialContext_needs_colon Fixtures.resolver_up "tcp" "localhost"
                    (Dns.newDNSCache 0))).
    simpl. intros H.
    repeat (destruct H as [H|H]; [discriminate H|]). exact H.
  - apply (proj2 (cachedDialContext_needs_colon Fixtures.resolver_up "tcp"
                    "test.local:80" (Dns.newDNSCache 0))).
    simpl. repeat (try (left; reflexivity); right).
Defined.

(** On [test.local:80] the dialer connects to the cached address and the
    port. *)
Example cachedDialContext_splits_host_and_port :
  (Dns.cachedDialContext Fixtures.resolver_up "tcp" "test.local:80"
     (Dns.newDNSCache 0)).2
  = Done (inl "192.0.2.7:80").
Proof. reflexivity. Qed.

(** C7, as stated, is false of [loadPaths] of the root package: an empty
    line is returned as an empty string, and a line with white space around
    it is returned with it. *)
Lemma loadPaths_keeps_blank_and_padded_lines :
  let fs := fun _ : string =>
              Paths.Contents ("/admin" ++ nl ++ nl ++ "  /login " ++ nl) None in
  Paths.loadPaths fs "paths.txt" = inl ["/admin"; ""; "  /login "]
  /\ ~ (forall paths, Paths.loadPaths fs "paths.txt" = inl paths ->
                      Forall (fun p => p <> "") paths).
Proof.
  cbv zeta. split; [reflexivity|].
  intros H. specialize (H _ eq_refl).
  apply Forall_cons in H as [_ H]. apply Forall_cons in H as [H _].
  apply H. reflexivity.
Qed.

(** C7, amended.  When the file cannot be opened, or a read fails, [loadPaths]
    returns an error.  Otherwise [loadPaths] of the root package returns the
    lines of the file in their order, each without its line feed and without
    one carriage return before it, and otherwise as it is in the file: empty
    lines and white space are kept; a last line without a line feed counts
    when it is not empty; a line of 64 KiB or more makes the call fail with
    the scanner's error.  [loadPaths] of [cmd/main.go] returns, in their
    order and as they are, the pieces between line feeds that
    [strings.TrimSpace] does not reduce to nothing. *)
Theorem loadPaths_returns_lines (lib : Lib) (fs : string -> Paths.File)
    (filePath : string) :
  (forall e, fs filePath = Paths.OpenError e ->
             Paths.loadPaths fs filePath = inr e
             /\ Paths.loadPaths_cmd lib fs filePath = inr e)
  /\ (forall data e, fs filePath = Paths.Contents data (Some e) ->
                     (exists e', Paths.loadPaths fs filePath = inr e')
                     /\ Paths.loadPaths_cmd lib fs filePath = inr e)
  /\ (forall data, fs filePath = Paths.Contents data None ->
        (exists raw,
           Forall no_lf raw
           /\ (data = unlines raw
               \/ exists init last,
                    raw = (init ++ [last])%list /\ last <> ""
                    /\ data = unlines init ++ last)
           /\ Paths.loadPaths fs filePath =
              if existsb Paths.too_long raw then inr Paths.ErrTooLong
              else inl (map Paths.dropCR raw))
        /\ (exists pieces,
              data = join_lf pieces /\ Forall no_lf pieces
              /\ Paths.loadPaths_cmd lib fs filePath =
                 inl (List.filter (fun l => 0 <? len (TrimSpace lib l)) pieces)))
  /\ (forall l,
        (exists l', l = l' ++ String cr "" /\ Paths.dropCR l = l')
        \/ (Paths.dropCR l = l /\ forall l', l <> l' ++ String cr "")).
Proof.
  split; [|split; [|split]].
  - intros e H. unfold Paths.loadPaths, Paths.loadPaths_cmd. rewrite H. auto.
  - intros data e H. unfold Paths.loadPaths, Paths.loadPaths_cmd. rewrite H.
    split; [|reflexivity].
    destruct (existsb Paths.too_long _); eauto.
  - intros data H. unfold Paths.loadPaths, Paths.loadPaths_cmd. rewrite H.
    destruct (Split_join data) as (Hj & Hf & Hne).
    split.
    + exists (Paths.drop_empty_last (Paths.Split data)).
      destruct (drop_empty_last_lines (Paths.Split data) Hne) as [Hin Hcase].
      split; [|split; [|reflexivity]].
      * apply Forall_forall. intros l Hl. apply list_elem_of_In in Hl.
        rewrite Forall_forall in Hf. apply Hf, list_elem_of_In, Hin, Hl.
      * rewrite <- Hj in Hcase. exact Hcase.
    + exists (Paths.Split data). auto.
  - apply dropCR_spec.
Qed.

Lemma loadPaths_returns_lines_witness :
  (Paths.loadPaths Fixtures.disk "missing.txt" = inr "open missing.txt: no such file"
   /\ Paths.loadPaths_cmd Fixtures.lib_ok Fixtures.disk "missing.txt"
      = inr "open missing.txt: no such file")
  /\ (exists raw,
        Forall no_lf raw
        /\ (Fixtures.listing = unlines raw
            \/ exists init last,
                 raw = (init ++ [last])%list /\ last <> ""
                 /\ Fixtures.listing = unlines init ++ last)
        /\ Paths.loadPaths Fixtures.disk "paths.txt" =
           if existsb Paths.too_long raw then inr Paths.ErrTooLong
           else inl (map Paths.dropCR raw)).
Proof.
  split.
  - apply (proj1 (loadPaths_returns_lines Fixtures.lib_ok Fixtures.disk "missing.txt")).
    reflexivity.
  - apply (proj1 (proj2 (proj2 (loadPaths_returns_lines Fixtures.lib_ok Fixtures.disk
                                  "paths.txt")))
             Fixtures.listing).
    reflexivity.
Defined.

(** ** Further properties *)

(** *** The pool of [runScanner] under every schedule *)

Section Residual.
Context {R : Type}.
Variable may : string -> Prop.
Variable ok : string -> Prop.

Lemma residual_bind {A B} (post1 : A -> nat -> nat -> bool -> Prop)
    (post2 : B -> nat -> nat -> bool -> Prop) (f : A -> Prog R B) r s o p :
  residual may ok post1 r s o p ->
  (forall a r' s' o', post1 a r' s' o' -> residual may ok post2 r' s' o' (f a)) ->
  residual may ok post2 r s o (bind p f).
Proof.
  intros Hp Hf. induction Hp; cbn [bind]; try (constructor; auto; fail).
  apply Hf. assumption.
Qed.

Lemma elem_at_in_range (xs : list string) (i : Z) :
  0 <= i < Z.of_nat (length xs) -> exists x, @elem_at R xs i = Ret x.
Proof.
  intros Hi. unfold elem_at.
  destruct (Z.ltb_spec i 0) as [?|_]; [lia|].
  destruct (lookup_lt_is_Some_2 xs (Z.to_nat i)) as [x Hx]; [lia|].
  exists x. rewrite Hx. reflexivity.
Qed.
End Residual.

Section ScanResidual.
Variable may : string -> Prop.
Variable ok : string -> Prop.
Variable lib : Lib.
Variables baseURL path : string.
Hypothesis Hok : ok (baseURL ++ path).

Lemma loop_body_residual ua v r s :
  residual may ok
    (fun c r' s' o' => o' = true /\
       match c with Scan.Return => True | _ => r' = r /\ s' = S s end)
    (S r) (S s) true (Scan.loop_body lib baseURL path ua v).
Proof.
  unfold Scan.loop_body. destruct (NewRequest lib (baseURL ++ path)) as [e|].
  - destruct (negb (Contains e "404")); unfold send; cbn [bind];
      repeat constructor.
  - unfold clientDo. cbn [bind]. constructor; [exact Hok|]. intros x.
    destruct (do_err x); [|destruct (do_resp x) as [code|]].
    + unfold loadDelay, sleep, storeDelay. cbn [bind]. repeat constructor.
    + destruct (negb (code =? StatusNotFound)); repeat constructor.
    + unfold loadDelay, sleep, storeDelay. cbn [bind]. repeat constructor.
Qed.

Lemma loop_residual ua n : forall v r s,
  (n <= r)%nat ->
  residual may ok
    (fun o r' s' o' => o' = true /\
       match o with Some _ => s' = S s | None => True end)
    r (S s) true (Scan.loop lib baseURL path ua n v).
Proof.
  induction n as [|n IH]; intros v r s Hn.
  - simpl. constructor. auto.
  - destruct r as [|r]; [lia|]. cbn [Scan.loop].
    eapply residual_bind; [apply loop_body_residual|].
    intros c r' s' o' [-> Hc]. destruct c as [v'|v'|].
    + destruct Hc as [-> ->]. apply IH. lia.
    + destruct Hc as [-> ->]. constructor. auto.
    + constructor. auto.
Qed.

Lemma after_loop_residual v r :
  residual may ok (fun _ _ _ o' => o' = true) r 1 true
           (Scan.after_loop baseURL path v).
Proof.
  unfold Scan.after_loop.
  destruct (Scan.err v) as [e|]; [|destruct (Scan.resp v) as [code|]].
  - destruct (negb (Contains e "404")); unfold send; repeat constructor.
  - destruct (negb (code =? StatusNotFound)); unfold send; repeat constructor.
  - repeat constructor.
Qed.

Lemma scanTarget_residual (uas : list string) :
  uas <> [] \/ may "invalid argument to Intn" ->
  residual may ok finished 3 1 true (Scan.scanTarget lib baseURL path uas).
Proof.
  intros Hne. unfold Scan.scanTarget.
  eapply residual_bind with (post1 := fun _ _ _ o' => o' = true).
  - unfold randIntn. cbn [bind]. constructor.
    + destruct Hne as [Hne|Hm]; [left|right; exact Hm].
      destruct uas; [congruence|simpl; lia].
    + intros i Hi. destruct (@elem_at_in_range ScanResult uas i Hi) as [ua ->].
      cbn [bind]. eapply residual_bind; [apply (loop_residual ua 3); lia|].
      intros o r' s' o' [-> Ho]. destruct o as [v|].
      * subst s'. apply after_loop_residual.
      * constructor. reflexivity.
  - intros _ r' s' o' ->. unfold wgDone. repeat constructor.
Qed.
End ScanResidual.

Section PoolInvariant.
Variable may : string -> Prop.
Variable lib : Lib.
Variable env : Env.
Variable cfg : ScannerConfig.
Variable paths : list string.
Hypothesis Hagents : userAgents cfg <> [] \/ may "invalid argument to Intn".

Let WL := workers_left may (baseURL cfg) paths.

Lemma workers_left_eq ws r s o r' s' o' :
  WL ws r s o -> r = r' -> s = s' -> o = o' -> WL ws r' s' o'.
Proof. intros H -> -> ->. exact H. Qed.

Lemma workers_left_nonneg ws r s o : WL ws r s o -> 0 <= o.
Proof.
  induction 1 as [|w ws r s o rs ss os _ _ IH]; [lia|].
  destruct o; simpl; lia.
Qed.

Lemma workers_left_replicate n : WL (replicate n Pool.Receiving) 0 0 0.
Proof.
  induction n as [|n IH]; [constructor|].
  apply (wsl_cons may (baseURL cfg) paths Pool.Receiving _ 0 0 false 0 0 0);
    [constructor|exact IH].
Qed.

(** Taking worker [i] out of the account, and putting another state in
    its place. *)
Lemma workers_left_at ws i w rs ss os :
  WL ws rs ss os -> ws !! i = Some w ->
  exists r s o rs0 ss0 os0,
    worker_left may (baseURL cfg) paths w r s o
    /\ rs = (r + rs0)%nat /\ ss = (s + ss0)%nat /\ os = owed o + os0 /\ 0 <= os0
    /\ forall w' r' s' o',
         worker_left may (baseURL cfg) paths w' r' s' o' ->
         WL (<[i := w']> ws) (r' + rs0) (s' + ss0) (owed o' + os0).
Proof.
  intros H. revert i. induction H as [|w0 ws r s o rs ss os Hw Hws IH]; intros i Hi.
  - rewrite lookup_nil in Hi. discriminate.
  - destruct i as [|i]; simpl in Hi.
    + injection Hi as <-. exists r, s, o, rs, ss, os.
      repeat split; auto.
      * eapply workers_left_nonneg; eauto.
      * intros w' r' s' o' Hw'. simpl. constructor; assumption.
    + destruct (IH i Hi) as (r1 & s1 & o1 & rs0 & ss0 & os0 & Hw1 & -> & -> & -> & H0 & Hput).
      exists r1, s1, o1, (r + rs0)%nat, (s + ss0)%nat, (owed o + os0).
      repeat split; auto; try lia.
      * destruct o; simpl; lia.
      * intros w' r' s' o' Hw'. simpl.
        eapply workers_left_eq; [apply wsl_cons; [exact Hw|exact (Hput _ _ _ _ Hw')]|..];
          lia.
Qed.

Lemma worker_left_receiving r s o :
  worker_left may (baseURL cfg) paths Pool.Receiving r s o ->
  r = 0%nat /\ s = 0%nat /\ o = false.
Proof. inversion 1. auto. Qed.

Lemma worker_left_adding path r s o :
  worker_left may (baseURL cfg) paths (Pool.Adding path) r s o ->
  r = 3%nat /\ s = 1%nat /\ o = false /\ In path paths.
Proof. inversion 1. auto. Qed.

Lemma worker_left_running p r s o :
  worker_left may (baseURL cfg) paths (Pool.Running p) r s o ->
  residual may (url_of (baseURL cfg) paths) finished r s o p.
Proof. inversion 1. assumption. Qed.

Lemma alive_spec s :
  Pool.alive s = true -> Pool.crashed s = None /\ Pool.main s <> Pool.Exited.
Proof.
  unfold Pool.alive. destruct (Pool.crashed s); [discriminate|].
  destruct (Pool.main s); (discriminate || (intros _; split; [reflexivity|discriminate])).
Qed.

Lemma step_main_inv s s' :
  pool_inv may cfg paths s -> Pool.alive s = true ->
  Pool.step_main s = Some s' -> pool_inv may cfg paths s'.
Proof.
  intros [rs ss Hb Ha Hw Hr Hs Hu Hp Hcl Hwr Hcr] Hal H.
  apply alive_spec in Hal as [Hnc Hne].
  unfold Pool.step_main in H. unfold pending in *.
  destruct (Pool.main s) as [[|path rest]| | | |] eqn:Hm.
  - injection H as <-.
    apply PoolInv with (rs := rs) (ss := ss); try unfold pending; simpl; auto.
    + intros Hc. destruct (Hcl Hc); discriminate.
    + intros out Ho. destruct (Hwr out Ho); discriminate.
  - destruct (Pool.full (Pool.tasksChan s)); [discriminate|]. injection H as <-.
    apply PoolInv with (rs := rs) (ss := ss); try unfold pending; simpl;
      rewrite <- ?app_assoc; auto.
    + intros Hc. destruct (Hcl Hc); discriminate.
    + intros out Ho. destruct (Hwr out Ho); discriminate.
  - destruct (Pool.wg s =? 0); [|discriminate]. injection H as <-.
    apply PoolInv with (rs := rs) (ss := ss); try unfold pending; simpl; auto.
    + intros Hc. destruct (Hcl Hc); discriminate.
    + intros out Ho. destruct (Hwr out Ho); discriminate.
  - injection H as <-.
    apply PoolInv with (rs := rs) (ss := ss); try unfold pending; simpl; auto.
    intros out Ho. destruct (Hwr out Ho); discriminate.
  - injection H as <-.
    apply PoolInv with (rs := rs) (ss := ss); try unfold pending; simpl; auto.
    intros out Ho. injection Ho as <-. auto.
  - discriminate.
Qed.

Lemma step_collector_inv s s' :
  pool_inv may cfg paths s -> Pool.alive s = true ->
  Pool.step_collector s = Some s' -> pool_inv may cfg paths s'.
Proof.
  intros [rs ss Hb Ha Hw Hr Hs Hu Hp Hcl Hwr Hcr] Hal H.
  apply alive_spec in Hal as [Hnc Hne].
  unfold Pool.step_collector in H.
  destruct (Pool.collector s); [|discriminate].
  destruct (Pool.buf (Pool.resultsChan s)) as [|x q] eqn:Hbuf.
  - destruct (Pool.closed (Pool.resultsChan s)); [|discriminate]. injection H as <-.
    apply PoolInv with (rs := rs) (ss := ss); simpl; auto. rewrite Hbuf. exact Hs.
  - injection H as <-.
    apply PoolInv with (rs := rs) (ss := ss); simpl; auto.
    + rewrite Hbuf. simpl. rewrite <- app_assoc. exact Hs.
    + intros out Ho. destruct (Hwr out Ho) as [Hm _]. contradiction.
Qed.

Ltac put tac :=
  match goal with
  | Hput : forall w' r' s' o', worker_left _ _ _ w' r' s' o' -> _,
    Hwg : Pool.wg _ = _ |- _ =>
      eapply workers_left_eq;
        [apply Hput; tac | simpl; lia | simpl; lia | rewrite Hwg; simpl; lia]
  end.

Ltac side :=
  try unfold pending in *; simpl; auto; try lia;
  try (intros ? ?; exfalso; eauto; fail).

Lemma step_worker_inv i s s' :
  pool_inv may cfg paths s -> Pool.alive s = true ->
  Pool.step_worker lib env i s = Some s' -> pool_inv may cfg paths s'.
Proof.
  intros [rs ss Hb Ha Hw Hr Hs Hu Hp Hcl Hwr Hcr] Hal H.
  apply alive_spec in Hal as [Hnc Hne].
  assert (forall out, Pool.written s = Some out -> False) as Hnw.
  { intros out Ho. destruct (Hwr out Ho) as [Hm _]. contradiction. }
  unfold Pool.step_worker in H.
  destruct (Pool.workers s !! i) as [w|] eqn:Hi; [|discriminate].
  destruct (workers_left_at _ i w _ _ _ Hw Hi)
    as (r & s0 & o & rs0 & ss0 & os0 & Hwl & -> & -> & Hwg & Hos0 & Hput).
  destruct w as [|path|p|].
  - (* Receiving *)
    apply worker_left_receiving in Hwl as (-> & -> & ->).
    destruct (Pool.buf (Pool.tasksChan s)) as [|path q] eqn:Hbuf.
    + destruct (Pool.closed (Pool.tasksChan s)); [|discriminate]. injection H as <-.
      apply PoolInv with (rs := (0 + rs0)%nat) (ss := (0 + ss0)%nat); side.
      put ltac:(constructor).
    + injection H as <-.
      assert (pending s = path :: q ++ match Pool.main s with
                                        | Pool.Seeding rest => rest
                                        | _ => []
                                        end)%list as Hpend
        by (unfold pending; rewrite Hbuf; reflexivity).
      rewrite Hpend in Hr, Hs, Hp. apply Forall_cons in Hp as [Hin Hp].
      simpl in Hr, Hs.
      apply PoolInv with (rs := (3 + rs0)%nat) (ss := (1 + ss0)%nat);
        try unfold pending; simpl; rewrite ?Hbuf; side.
      put ltac:(constructor; exact Hin).
  - (* Adding *)
    apply worker_left_adding in Hwl as (-> & -> & -> & Hin). injection H as <-.
    apply PoolInv with (rs := (3 + rs0)%nat) (ss := (1 + ss0)%nat); side.
    put ltac:(constructor; rewrite Hb, Ha; apply scanTarget_residual;
              [exists path; auto|exact Hagents]).
  - (* Running *)
    apply worker_left_running in Hwl. unfold Pool.step_prog in H.
    destruct p as [a|msg|n k|url ua k|k|d k|d k|x k|delta k|k].
    + (* Ret *)
      injection H as <-. inversion Hwl as [a' r1 s1 o' Hpost| | | | | | | | |]; subst.
      unfold finished in Hpost. subst o.
      apply PoolInv with (rs := (0 + rs0)%nat) (ss := (0 + ss0)%nat); side.
      put ltac:(constructor).
    + (* Panic *)
      injection H as <-. inversion Hwl as [|msg' r1 s1 Hmay| | | | | | | |]; subst.
      apply PoolInv with (rs := (r + rs0)%nat) (ss := (s0 + ss0)%nat); side.
      right. left. exists msg. auto.
    + (* RandIntn *)
      inversion Hwl as [|  |n' k' r1 s1 Hpos Hk| | | | | | |]; subst.
      destruct (Z.leb_spec n 0) as [Hn|Hn].
      * injection H as <-.
        apply PoolInv with (rs := (r + rs0)%nat) (ss := (s0 + ss0)%nat); side.
        right. left. exists "invalid argument to Intn". split; [reflexivity|].
        destruct Hpos as [Hpos|Hm]; [lia|exact Hm].
      * injection H as <-.
        apply PoolInv with (rs := (r + rs0)%nat) (ss := (s0 + ss0)%nat); side.
        put ltac:(constructor; apply Hk; apply Z.mod_pos_bound; exact Hn).
    + (* ClientDo *)
      inversion Hwl as [| | |url' ua' k' r1 s1 Hok Hk| | | | | |]; subst.
      injection H as <-.
      apply PoolInv with (rs := (r1 + rs0)%nat) (ss := (s0 + ss0)%nat); side.
      * put ltac:(constructor; apply Hk).
      * rewrite length_app. simpl. lia.
      * apply Forall_app. split; [exact Hu|]. constructor; [exact Hok|constructor].
    + (* LoadDelay *)
      inversion Hwl as [| | | |k' r1 s1 Hk| | | | |]; subst.
      injection H as <-.
      apply PoolInv with (rs := (r + rs0)%nat) (ss := (s0 + ss0)%nat); side.
      put ltac:(constructor; apply Hk).
    + (* StoreDelay *)
      inversion Hwl as [| | | | |d' k' r1 s1 Hk| | | |]; subst.
      injection H as <-.
      apply PoolInv with (rs := (r + rs0)%nat) (ss := (s0 + ss0)%nat); side.
      put ltac:(constructor; exact Hk).
    + (* Sleep *)
      inversion Hwl as [| | | | | |d' k' r1 s1 Hk| | |]; subst.
      injection H as <-.
      apply PoolInv with (rs := (r + rs0)%nat) (ss := (s0 + ss0)%nat); side.
      put ltac:(constructor; exact Hk).
    + (* Send *)
      inversion Hwl as [| | | | | | |x' k' r1 s1 Hk| |]; subst.
      destruct (Pool.closed (Pool.resultsChan s)) eqn:Hclosed.
      * injection H as <-.
        apply PoolInv with (rs := (r + rs0)%nat) (ss := (S s1 + ss0)%nat); side.
        right. right. split; [reflexivity|].
        destruct (Hcl eq_refl) as [Hm|Hm]; [exact Hm|contradiction].
      * destruct (Pool.full (Pool.resultsChan s)); [discriminate|]. injection H as <-.
        apply PoolInv with (rs := (r + rs0)%nat) (ss := (s1 + ss0)%nat); side.
        -- put ltac:(constructor; exact Hk).
        -- rewrite app_assoc, length_app. simpl. lia.
        -- rewrite Hclosed. discriminate.
    + (* AtomicAdd *)
      inversion Hwl as [| | | | | | | |delta' k' r1 s1 Hk|]; subst.
      injection H as <-.
      apply PoolInv with (rs := (r + rs0)%nat) (ss := (s0 + ss0)%nat); side.
      put ltac:(constructor; exact Hk).
    + (* WgDone *)
      inversion Hwl as [| | | | | | | | |k' r1 s1 Hk]; subst.
      destruct (Z.ltb_spec (Pool.wg s - 1) 0) as [Hneg|_].
      * exfalso. rewrite Hwg in Hneg. simpl in Hneg. lia.
      * injection H as <-.
        apply PoolInv with (rs := (r + rs0)%nat) (ss := (s0 + ss0)%nat); side.
        put ltac:(constructor; exact Hk).
  - discriminate.
Qed.

Lemma step_inv t s s' :
  pool_inv may cfg paths s -> Pool.step lib env t s = Some s' ->
  pool_inv may cfg paths s'.
Proof.
  intros Hinv H. unfold Pool.step in H.
  destruct (Pool.alive s) eqn:Hal; [|discriminate].
  destruct t as [|i|].
  - eapply step_main_inv; eassumption.
  - eapply step_worker_inv; eassumption.
  - eapply step_collector_inv; eassumption.
Qed.

Lemma run_inv sched : forall s s',
  pool_inv may cfg paths s -> Pool.run lib env sched s = Some s' ->
  pool_inv may cfg paths s'.
Proof.
  induction sched as [|t sched IH]; intros s s' Hinv H; simpl in H.
  - injection H as <-. exact Hinv.
  - destruct (Pool.step lib env t s) as [s1|] eqn:Hs; [|discriminate].
    eapply IH; [eapply step_inv; eassumption|exact H].
Qed.

Lemma init_inv : pool_inv may cfg paths (Pool.init cfg paths).
Proof.
  apply PoolInv with (rs := 0%nat) (ss := 0%nat); try unfold pending; simpl; auto;
    try lia; try discriminate.
  - apply workers_left_replicate.
  - apply Forall_forall. intros p Hp. apply list_elem_of_In. exact Hp.
Qed.
End PoolInvariant.

Lemma pool_inv_run (may : string -> Prop) (lib : Lib) (env : Env) (cfg : ScannerConfig)
    (paths : list string) (sched : list Pool.Tid) (s' : Pool.Sys) :
  userAgents cfg <> [] \/ may "invalid argument to Intn" ->
  Pool.run lib env sched (Pool.init cfg paths) = Some s' ->
  pool_inv may cfg paths s'.
Proof.
  intros Hne Hrun. eapply run_inv; [exact Hne|apply init_inv|exact Hrun].
Qed.





(** X3.  With [concurrent] 0 no worker is started and the tasks channel
    has no buffer.  With at least one path nothing can take a step from
    the first state: [runScanner] blocks on its first send for ever, and
    the only run is the empty one.  With no path the run goes through: an
    empty list is written and no request made. *)
Theorem no_worker_no_progress (lib : Lib) (env : Env) (cfg : ScannerConfig)
    (path : string) (rest : list string) :
  concurrent cfg = 0 ->
  (forall t, Pool.step lib env t (Pool.init cfg (path :: rest)) = None)
  /\ (forall sched s',
        Pool.run lib env sched (Pool.init cfg (path :: rest)) = Some s' ->
        sched = [] /\ s' = Pool.init cfg (path :: rest))
  /\ option_map (fun s => (Pool.main s, Pool.written s, Pool.reqs s))
       (Pool.run lib env (replicate 4 Pool.Main) (Pool.init cfg []))
     = Some (Pool.Exited, Some [], []).
Proof.
  intros Hc.
  assert (forall t, Pool.step lib env t (Pool.init cfg (path :: rest)) = None) as Hstep.
  { intros [|i|]; unfold Pool.step, Pool.init; simpl; rewrite Hc; simpl; reflexivity. }
  split; [exact Hstep|]. split.
  - intros [|t sched] s' H; simpl in H.
    + injection H as <-. auto.
    + rewrite Hstep in H. discriminate.
  - unfold Pool.init. rewrite Hc. reflexivity.
Qed.

Lemma no_worker_no_progress_witness :
  Pool.step Fixtures.lib_ok (Fixtures.always 200) Pool.Main
            (Pool.init (Fixtures.pool_cfg 0 (100 * Millisecond)) ["/robots.txt"])
  = None.
Proof.
  apply (proj1 (no_worker_no_progress Fixtures.lib_ok (Fixtures.always 200)
                  (Fixtures.pool_cfg 0 (100 * Millisecond)) "/robots.txt" [] eq_refl)).
Defined.

Lemma exec_chan_grows {R C A} `{DelayCell C} (env : Env) (p : Prog R A) :
  forall w : World R C, (length (w_chan w) <= length (w_chan (exec env p w).1))%nat.
Proof.
  induction p as [a|msg|n k IH|url ua k IH|k IH|d k IH|d k IH|r k IH|dl k IH|k IH];
    intros w; cbn [exec];
    repeat match goal with
    | |- context [if ?b then _ else _] => destruct b
    end;
    try (simpl; lia);
    (etransitivity; [|apply IH]; simpl; rewrite ?length_app; simpl; lia).
Qed.

Section WorkerAlone.
Variable lib : Lib.
Variable env : Env.

Lemma run_worker_step i n s s1 :
  Pool.alive s = true ->
  Pool.step_worker lib env i s = Some s1 ->
  Pool.run lib env (replicate (S n) (Pool.Worker i)) s
  = Pool.run lib env (replicate n (Pool.Worker i)) s1.
Proof.
  intros Hal Hs. cbn [replicate Pool.run]. unfold Pool.step. rewrite Hal, Hs. reflexivity.
Qed.

Lemma worker_moved_after i pc pc1 w s s1 s' :
  worker_moved i pc w s1 s' ->
  Pool.workers s1 = <[i := pc1]> (Pool.workers s) ->
  Pool.main s1 = Pool.main s ->
  Pool.tasksChan s1 = Pool.tasksChan s ->
  Pool.collector s1 = Pool.collector s ->
  Pool.results s1 = Pool.results s ->
  Pool.written s1 = Pool.written s ->
  Pool.cap (Pool.resultsChan s1) = Pool.cap (Pool.resultsChan s) ->
  worker_moved i pc w s s'.
Proof.
  intros (Hv & Hw & Hm & Ht & Hc & Hr & Hwr & Hcr & Hcl & Hcap) E1 E2 E3 E4 E5 E6 E7.
  unfold worker_moved. rewrite Hw, E1, list_insert_insert_eq. 
  repeat split; congruence.
Qed.

Ltac advance IH s1 :=
  match goal with
  | Hi : Pool.workers ?s !! ?i = Some _, Hal : Pool.alive ?s = true,
    Hcl : Pool.closed (Pool.resultsChan ?s) = false,
    Hex : _ = (?w', Done tt), Hroom : (_ <= _)%nat |- _ =>
      assert (Pool.step_worker lib env i s = Some s1) as Hstep;
      [ unfold Pool.step_worker; rewrite Hi; unfold Pool.step_prog
      | destruct (IH s1 w') as (n' & s' & Hrun & Hmoved);
        [ simpl; apply list_lookup_insert_eq; apply (lookup_lt_Some _ _ _ Hi)
        | exact Hal
        | exact Hcl
        | exact Hex
        | exact Hroom
        | exists (S n'), s'; split;
          [ rewrite (run_worker_step i n' s s1 Hal Hstep); exact Hrun
          | eapply worker_moved_after; [exact Hmoved|reflexivity..] ] ] ]
  end.

Lemma worker_alone i (p : Prog ScanResult unit) : forall s w',
  Pool.workers s !! i = Some (Pool.Running p) ->
  Pool.alive s = true ->
  Pool.closed (Pool.resultsChan s) = false ->
  exec env p (view s) = (w', Done tt) ->
  (length (w_chan w') <= length (Pool.results s) + Pool.cap (Pool.resultsChan s))%nat ->
  exists n s',
    Pool.run lib env (replicate n (Pool.Worker i)) s = Some s'
    /\ worker_moved i Pool.Receiving w' s s'.
Proof.
  induction p as [a|msg|n k IH|url ua k IH|k IH|d k IH|d k IH|r k IH|dl k IH|k IH];
    intros s w' Hi Hal Hcl Hex Hroom; cbn [exec] in Hex.
  - (* Ret *)
    injection Hex as <-.
    exists 1%nat, (Pool.set_worker i Pool.Receiving s). split.
    + cbn [replicate Pool.run]. unfold Pool.step. rewrite Hal.
      unfold Pool.step_worker. rewrite Hi. reflexivity.
    + unfold worker_moved. simpl. repeat split; auto.
      unfold Pool.alive in Hal. destruct (Pool.crashed s); [discriminate|reflexivity].
  - discriminate.
  - destruct (n <=? 0) eqn:Hn; [discriminate|].
    advance (IH (rng env (Pool.nrand s) mod n))
            (Pool.set_worker i (Pool.Running (k (rng env (Pool.nrand s) mod n)))
               (Pool.set_nrand (S (Pool.nrand s)) s)).
    rewrite Hn. reflexivity.
  - advance (IH (server env (length (Pool.reqs s)) url ua))
            (Pool.set_worker i (Pool.Running (k (server env (length (Pool.reqs s)) url ua)))
               (Pool.set_reqs (Pool.reqs s ++ [(url, ua)]) s)).
    reflexivity.
  - advance (IH (adaptiveDelay (Pool.config s)))
            (Pool.set_worker i (Pool.Running (k (adaptiveDelay (Pool.config s)))) s).
    reflexivity.
  - advance IH
            (Pool.set_worker i (Pool.Running k)
               (Pool.set_config (set_adaptiveDelay d (Pool.config s)) s)).
    reflexivity.
  - advance IH
            (Pool.set_worker i (Pool.Running k)
               (Pool.set_sleeps (Pool.sleeps s ++ [d]) s)).
    reflexivity.
  - (* Send *)
    pose proof (exec_chan_grows env k (with_chan (w_chan (view s) ++ [r]) (view s))) as Hg.
    rewrite Hex in Hg. simpl in Hg. rewrite !length_app in Hg. simpl in Hg.
    assert (Pool.full (Pool.resultsChan s) = false) as Hfull
      by (unfold Pool.full; apply Nat.leb_gt; lia).
    set (s1 := Pool.set_worker i (Pool.Running k)
                 (Pool.set_resultsChan (Pool.push r (Pool.resultsChan s)) s)).
    assert (view s1 = with_chan (w_chan (view s) ++ [r]) (view s)) as Hview
      by (unfold view, with_chan; simpl; rewrite app_assoc; reflexivity).
    rewrite <- Hview in Hex.
    advance IH s1.
    rewrite Hcl, Hfull. reflexivity.
  - advance IH
            (Pool.set_worker i (Pool.Running k)
               (Pool.set_slots (wrap32 (Pool.slots s + dl)) s)).
    reflexivity.
  - (* WgDone *)
    change (w_wg (view s)) with (Pool.wg s) in Hex.
    destruct (Pool.wg s - 1 <? 0) eqn:Hwg; [discriminate|].
    advance IH (Pool.set_worker i (Pool.Running k) (Pool.set_wg (Pool.wg s - 1) s)).
    rewrite Hwg. reflexivity.
Qed.
End WorkerAlone.

Lemma run_app lib env (a b : list Pool.Tid) : forall s,
  Pool.run lib env (a ++ b) s =
  match Pool.run lib env a s with
  | Some s' => Pool.run lib env b s'
  | None => None
  end.
Proof.
  induction a as [|t a IH]; intros s; [reflexivity|].
  simpl. destruct (Pool.step lib env t s); [apply IH|reflexivity].
Qed.

Lemma scanTarget_done_agents (lib : Lib) (env : Env) (baseURL path : string)
    (uas : list string) (w w' : World ScanResult ScannerConfig) :
  exec env (Scan.scanTarget lib baseURL path uas) w = (w', Done tt) -> uas <> [].
Proof.
  intros H ->. unfold Scan.scanTarget, randIntn in H. cbn in H. discriminate.
Qed.

(** X4.  [runScanner] does not wait for the goroutine that collects the
    results.  For one path whose task sends one result [r], and at least
    one worker: when [runScanner] goes on as soon as the task is over, it
    writes the empty list and [r] is left in the channel; when the
    collector runs before the writing, [r] is written. *)
Theorem writer_does_not_wait_for_collector (lib : Lib) (env : Env)
    (cfg : ScannerConfig) (path : string)
    (w' : World ScanResult ScannerConfig) (r : ScanResult) :
  1 <= concurrent cfg ->
  exec env (Scan.scanTarget lib (baseURL cfg) path (userAgents cfg))
       (mkWorld cfg [] [] [] 0%nat 1 0) = (w', Done tt) ->
  w_chan w' = [r] ->
  let outcome := fun s => (Pool.main s, Pool.crashed s, Pool.written s,
                           Pool.buf (Pool.resultsChan s)) in
  exists n : nat,
    let task := ([Pool.Main] ++ replicate (2 + n) (Pool.Worker 0))%list in
    option_map outcome
      (Pool.run lib env (task ++ replicate 4 Pool.Main) (Pool.init cfg [path]))
    = Some (Pool.Exited, None, Some [], [r])
    /\ option_map outcome
         (Pool.run lib env
            (task ++ replicate 3 Pool.Main ++ replicate 2 Pool.Collector ++ [Pool.Main])
            (Pool.init cfg [path]))
       = Some (Pool.Exited, None, Some [r], []).
Proof.
  intros Hc Hex Hch. cbv zeta.
  pose proof (scanTarget_done_agents _ _ _ _ _ _ _ Hex) as Hne.
  pose proof (exec_scanTarget_shape env lib (baseURL cfg) path (userAgents cfg)
                (mkWorld cfg [] [] [] 0%nat 1 0) Hne ltac:(simpl; lia)) as Hshape.
  rewrite Hex in Hshape. destruct Hshape as [ua k j em _ _ _ _ _ _ _ Hwg _ _ _].
  simpl in Hwg.
  destruct (Z.to_nat (concurrent cfg)) as [|c] eqn:Hcap; [lia|].
  set (s3 := Pool.mkSys cfg (Pool.mkChan [] (S c) false) (Pool.mkChan [] (S c) false) 1
               (Pool.Seeding [])
               (Pool.Running (Scan.scanTarget lib (baseURL cfg) path (userAgents cfg))
                :: replicate c Pool.Receiving)
               Pool.Collecting [] None [] 0%nat [] 0 None).
  assert (Pool.run lib env ([Pool.Main] ++ replicate 2 (Pool.Worker 0))
                   (Pool.init cfg [path]) = Some s3) as Hstart.
  { unfold Pool.init. rewrite Hcap. reflexivity. }
  destruct (worker_alone lib env 0 _ s3 w' eq_refl eq_refl eq_refl Hex)
    as (n & s' & Hrun & Hmoved).
  { rewrite Hch. simpl. lia. }
  exists n.
  assert (Pool.run lib env ([Pool.Main] ++ replicate (2 + n) (Pool.Worker 0))
                   (Pool.init cfg [path]) = Some s') as Htask.
  { rewrite replicate_add, app_assoc.
    rewrite (run_app lib env ([Pool.Main] ++ replicate 2 (Pool.Worker 0))
                     (replicate n (Pool.Worker 0))), Hstart. exact Hrun. }
  assert (forall rest,
            Pool.run lib env (([Pool.Main] ++ replicate (2 + n) (Pool.Worker 0)) ++ rest)
                     (Pool.init cfg [path]) = Pool.run lib env rest s') as Hrest.
  { intros rest.
    rewrite (run_app lib env ([Pool.Main] ++ replicate (2 + n) (Pool.Worker 0)) rest), Htask.
    reflexivity. }
  rewrite !Hrest. clear Hrest Htask Hrun Hstart Hex Hne. subst s3.
  destruct Hmoved as (Hv & Hw & Hm & Ht & Hco & Hr & Hwr & Hcr & Hcl & Hcp).
  destruct s' as [config tasks [buf cap closed] wg main workers coll results written
                  reqs nrand sleeps slots crashed].
  unfold view in Hv. simpl in *. subst w'. simpl in *. subst.
  change (buf = [r]) in Hch. subst buf.
  split; reflexivity.
Qed.

Lemma writer_does_not_wait_for_collector_witness :
  let outcome := fun s => (Pool.main s, Pool.crashed s, Pool.written s,
                           Pool.buf (Pool.resultsChan s)) in
  let r := Scan.found "http://test.local" "/robots.txt" 200 in
  let s0 := Pool.init (Fixtures.cfg (100 * Millisecond)) ["/robots.txt"] in
  exists n : nat,
    let task := ([Pool.Main] ++ replicate (2 + n) (Pool.Worker 0))%list in
    option_map outcome
      (Pool.run Fixtures.lib_ok (Fixtures.always 200)
                (task ++ replicate 4 Pool.Main) s0)
    = Some (Pool.Exited, None, Some [], [r])
    /\ option_map outcome
         (Pool.run Fixtures.lib_ok (Fixtures.always 200)
            (task ++ replicate 3 Pool.Main ++ replicate 2 Pool.Collector ++ [Pool.Main])
            s0)
       = Some (Pool.Exited, None, Some [r], []).
Proof.
  apply (writer_does_not_wait_for_collector Fixtures.lib_ok (Fixtures.always 200)
           (Fixtures.cfg (100 * Millisecond)) "/robots.txt"
           (exec (Fixtures.always 200)
                 (Scan.scanTarget Fixtures.lib_ok "http://test.local" "/robots.txt"
                                  Fixtures.agents)
                 (mkWorld (Fixtures.cfg (100 * Millisecond)) [] [] [] 0%nat 1 0)).1
           (Scan.found "http://test.local" "/robots.txt" 200)).
  - simpl. lia.
  - reflexivity.
  - reflexivity.
Defined.

(** *** From [main] to the output file *)

Lemma defaultUserAgents_nonempty : defaultUserAgents <> [].
Proof. discriminate. Qed.

(** X5.  [main] calls [runScanner] only when the url, paths and
    output-file flags are all set, and with [defaultUserAgents].  When the
    paths cannot be loaded, the message is printed and nothing else
    happens.  A panic comes after the paths are loaded; it is that of
    [make] exactly when [concurrent] is negative or larger than the
    runtime allows.  When the pool ends, [concurrent] was in range and the
    results, no more than the paths, are saved: the file has the name of
    the [-f] flag, the fatal error for a missing file name never occurs,
    and a fatal error before the file exists is that of [os.Create]. *)
Theorem run_from_main_saves_under_flag (lib : Lib) (env : Env) (os : Root.Os)
    (fs : string -> Paths.File) (sched : list Pool.Tid) (fl : Root.Flags)
    (config : ScannerConfig) (outcome : Root.Outcome) :
  Root.main fl = Root.RunScanner config ->
  Root.runScanner lib env os fs sched config = Some outcome ->
  Root.flag_url fl <> "" /\ Root.flag_paths fl <> "" /\ Root.flag_f fl <> ""
  /\ userAgents config = defaultUserAgents
  /\ match outcome with
     | Root.NotStarted printed =>
         exists e, Paths.loadPaths fs (Root.flag_paths fl) = inr e
                   /\ printed = "Failed to load paths: " ++ e ++ nl
     | Root.Crashed msg =>
         (exists paths, Paths.loadPaths fs (Root.flag_paths fl) = inl paths)
         /\ (msg = "makechan: size out of range" <->
             Root.flag_concurrent fl < 0
             \/ Root.chan_limit os < Root.flag_concurrent fl)
     | Root.Finished e =>
         exists paths results,
           Paths.loadPaths fs (Root.flag_paths fl) = inl paths
           /\ 0 <= Root.flag_concurrent fl <= Root.chan_limit os
           /\ (length results <= length paths)%nat
           /\ e = Root.save os config results
           /\ match e with
              | Root.Fatal msg None =>
                  exists err, Root.Create os (Root.flag_f fl) = Some err
                              /\ msg = "Failed to create output file: " ++ err
              | Root.Fatal msg (Some name) => name = Root.flag_f fl
              | Root.Saved name _ => name = Root.flag_f fl
              end
     end.
Proof.
  intros Hmain Hrun. unfold Root.main in Hmain.
  destruct (String.eqb_spec (Root.flag_url fl) "") as [|Hu]; [discriminate|].
  destruct (String.eqb_spec (Root.flag_paths fl) "") as [|Hp]; [discriminate|].
  destruct (String.eqb_spec (Root.flag_f fl) "") as [|Hf]; [discriminate|].
  simpl in Hmain. injection Hmain as <-.
  split; [exact Hu|]. split; [exact Hp|]. split; [exact Hf|]. split; [reflexivity|].
  unfold Root.runScanner, Root.setup, Root.makechan_panics in Hrun.
  cbn [pathsFile concurrent] in Hrun.
  destruct (Paths.loadPaths fs (Root.flag_paths fl)) as [paths|e].
  - destruct (Z.ltb_spec (Root.flag_concurrent fl) 0) as [Hneg|Hpos];
      [|destruct (Z.ltb_spec (Root.chan_limit os) (Root.flag_concurrent fl))
          as [Hbig|Hfit]]; cbn [orb] in Hrun.
    + injection Hrun as <-. split; [eauto|]. split; auto.
    + injection Hrun as <-. split; [eauto|]. split; auto.
    + match type of Hrun with context [Pool.run lib env sched ?s0] =>
        destruct (Pool.run lib env sched s0) as [s|] eqn:Hpool; [|discriminate]
      end.
      match type of Hpool with Pool.run _ _ _ (Pool.init ?c _) = _ =>
        pose proof (pool_inv_run (fun _ => False) lib env c paths sched s
                      (or_introl defaultUserAgents_nonempty) Hpool) as Hinv
      end.
      destruct Hinv as [rs ss _ _ _ _ Hs _ _ _ Hwr Hcr].
      destruct Hcr as [Hc|[(msg & _ & [])|[Hc _]]]; rewrite Hc in Hrun.
      * destruct (Pool.written s) as [results|] eqn:Hw; [|discriminate].
        injection Hrun as <-. exists paths, results.
        destruct (Hwr results eq_refl) as [_ ->].
        rewrite length_app in Hs.
        split; [reflexivity|]. split; [lia|]. split; [lia|]. split; [reflexivity|].
        unfold Root.save. cbn [outputFile outputFormat].
        destruct (String.eqb_spec (Root.flag_f fl) "") as [|_]; [contradiction|].
        destruct (Root.Create os (Root.flag_f fl)) as [err|]; [eauto|].
        destruct (String.eqb (Root.flag_o fl) "json").
        { destruct (Root.json_MarshalIndent os (Pool.results s)); reflexivity. }
        destruct (String.eqb (Root.flag_o fl) "xml").
        { destruct (Root.xml_MarshalIndent os (Pool.results s)); reflexivity. }
        reflexivity.
      * injection Hrun as <-. split; [eauto|].
        split; [discriminate|]. intros [?|?]; lia.
  - injection Hrun as <-. exists e. auto.
Qed.

Lemma run_from_main_saves_under_flag_witness :
  let config :=
    {| baseURL := "http://test.local"; pathsFile := "paths.txt"; concurrent := 1;
       timeout := 10 * Second; userAgents := defaultUserAgents;
       adaptiveDelay := 100 * Millisecond; outputFormat := "text";
       outputFile := "out.txt" |} in
  let e := Root.Saved "out.txt"
             ("URL: http://test.local/robots.txt, Status: Found, HTTP Status Code: 200"
              ++ nl) in
  "http://test.local" <> "" /\ "paths.txt" <> "" /\ "out.txt" <> ""
  /\ userAgents config = defaultUserAgents
  /\ exists paths results,
       Paths.loadPaths Samples.one_path "paths.txt" = inl paths
       /\ 0 <= 1 <= 2 ^ 40
       /\ (length results <= length paths)%nat
       /\ e = Root.save Samples.os_ok config results
       /\ "out.txt" = "out.txt".
Proof.
  apply (run_from_main_saves_under_flag Fixtures.lib_ok (Fixtures.always 200)
           Samples.os_ok Samples.one_path Samples.in_order Samples.flags
           {| baseURL := "http://test.local"; pathsFile := "paths.txt"; concurrent := 1;
              timeout := 10 * Second; userAgents := defaultUserAgents;
              adaptiveDelay := 100 * Millisecond; outputFormat := "text";
              outputFile := "out.txt" |}
           (Root.Finished
              (Root.Saved "out.txt"
                 ("URL: http://test.local/robots.txt, Status: Found, HTTP Status Code: 200"
                  ++ nl)))).
  - reflexivity.
  - vm_compute. reflexivity.
Defined.

(** *** Single tasks *)

Section CmdMessages.
Variable env : Env.
Variable lib : Lib.
Variables baseURL path : string.
Variable uas : list string.
Let W := World string Cmd.ScannerConfig.
Let url := TrimSpace lib (baseURL ++ path).

Lemma exec_cmd_loop_messages n :
  NewRequest lib url = None -> uas <> [] ->
  forall delay (w : W),
  let rs := cmd_machine env uas url (w_nrand w) (length (w_reqs w)) n in
  let out := exec env (Cmd.loop lib baseURL path uas n delay) w in
  w_chan out.1 = (w_chan w ++ concat (map (cmd_message baseURL path) rs))%list
  /\ (answers env -> out.2 = Done tt).
Proof.
  intros Hreq Hne.
  assert (0 < Z.of_nat (length uas)) as Hlen by (destruct uas; [congruence | simpl; lia]).
  induction n as [|n IH]; intros delay w; cbv zeta.
  - simpl. rewrite app_nil_r. auto.
  - cbn [Cmd.loop cmd_machine]. rewrite exec_bind. unfold Cmd.loop_body. fold url.
    rewrite Hreq. rewrite exec_bind. unfold randIntn. cbn [exec].
    destruct (Z.leb_spec (Z.of_nat (length uas)) 0) as [?|_]; [lia|].
    destruct (@elem_at_draw string uas (rng env (w_nrand w)) Hne) as (ua & Hua & Hix).
    rewrite exec_bind, Hix. cbn [exec]. rewrite exec_bind.
    unfold clientDo. cbn [exec].
    change (uas !! Z.to_nat (rng env (w_nrand w) `mod` Z.of_nat (length uas)))
      with (agent_at env uas (w_nrand w)) in Hua.
    rewrite Hua. change (default "" (Some ua)) with ua.
    set (w1 := with_nrand (S (w_nrand w)) w).
    change (w_reqs w1) with (w_reqs w).
    pose proof (fun H : answers env => H (length (w_reqs w)) url ua) as Hans.
    set (r := server env (length (w_reqs w)) url ua) in *.
    set (w2 := with_reqs (w_reqs w ++ [(url, ua)]) w1).
    assert (forall (w3 : W) delay' msgs,
              w_reqs w3 = w_reqs w2 -> w_nrand w3 = S (w_nrand w) ->
              w_chan w3 = (w_chan w ++ msgs)%list ->
              let out := exec env (Cmd.loop lib baseURL path uas n delay') w3 in
              let rs := cmd_machine env uas url (S (w_nrand w)) (S (length (w_reqs w))) n in
              w_chan out.1 =
                (w_chan w ++ msgs ++ concat (map (cmd_message baseURL path) rs))%list
              /\ (answers env -> out.2 = Done tt))
      as Hnext.
    { intros w3 delay' msgs E1 E2 E3. cbv zeta.
      destruct (IH delay' w3) as [Hc Hd].
      rewrite E1, E2 in Hc. unfold w2 in Hc. simpl in Hc.
      rewrite length_app in Hc. simpl in Hc.
      replace (length (w_reqs w) + 1)%nat with (S (length (w_reqs w))) in Hc by lia.
      rewrite Hc, E3, <- app_assoc. auto. }
    clearbody r. destruct r as [[code|] [e|]]; unfold cmd_transition;
      cbn [do_err do_resp bind map concat cmd_message].
    + rewrite !exec_bind. unfold sleep. cbn [exec bind].
      apply (Hnext _ _ []); try reflexivity. simpl. symmetry. apply app_nil_r.
    + destruct ((200 <=? code) && (code <? 300)).
      * unfold send. cbn [bind exec fst snd]. simpl. rewrite ?app_nil_r. auto.
      * destruct (code =? StatusTooManyRequests).
        -- unfold send. cbn [bind exec fst snd]. simpl. rewrite ?app_nil_r. auto.
        -- unfold sleep. cbn [bind exec].
           apply (Hnext _ _ []); try reflexivity. simpl. symmetry. apply app_nil_r.
    + rewrite !exec_bind. unfold send, sleep. cbn [exec bind].
      apply (Hnext _ _ [Cmd.scan_failed baseURL path e]); reflexivity.
    + cbn [exec fst snd]. simpl. rewrite ?app_nil_r. split; [reflexivity|].
      intros Ha. exfalso. apply (Hans Ha); reflexivity.
Qed.
End CmdMessages.

Lemma wrap32_restore (s : Z) :
  - 2 ^ 31 <= s < 2 ^ 31 -> wrap32 (wrap32 (s + -1) + 1) = s.
Proof.
  intros Hs. unfold wrap32.
  destruct (Z.eq_dec s (- 2 ^ 31)) as [->|Hne].
  - reflexivity.
  - rewrite (Z.mod_small (s + -1 + 2 ^ 31)) by lia.
    rewrite Z.mod_small by lia. lia.
Qed.

(** X6.  A task of [cmd/main.go] whose request can be built sends its
    messages as the attempts are made, one attempt after the other: an
    error without a response sends the failure message, a status from 200
    to 299 the success message, a 429 the rate-limit message, anything
    else nothing.  At most three messages are sent. *)
Theorem cmd_task_reports_each_attempt (lib : Lib) (env : Env) (baseURL path : string)
    (uas : list string) (w : World string Cmd.ScannerConfig) :
  NewRequest lib (TrimSpace lib (baseURL ++ path)) = None ->
  uas <> [] ->
  let rs := cmd_machine env uas (TrimSpace lib (baseURL ++ path))
                        (w_nrand w) (length (w_reqs w)) 3 in
  let out := exec env (Cmd.scanTarget lib baseURL path uas) w in
  w_chan out.1 = (w_chan w ++ concat (map (cmd_message baseURL path) rs))%list
  /\ (length (concat (map (cmd_message baseURL path) rs)) <= 3)%nat.
Proof.
  intros Hreq Hne. cbv zeta. split.
  - unfold Cmd.scanTarget, atomicAdd, loadDelay. cbn [bind exec].
    rewrite exec_bind.
    set (w1 := with_slots (wrap32 (w_slots w + -1)) w).
    destruct (exec_cmd_loop_messages env lib baseURL path uas 3 Hreq Hne
                (get_delay (w_config w1)) w1) as [Hl _].
    change (w_nrand w1) with (w_nrand w) in Hl.
    change (w_reqs w1) with (w_reqs w) in Hl.
    change (w_chan w1) with (w_chan w) in Hl.
    destruct (exec env (Cmd.loop lib baseURL path uas 3 _) w1) as [w2 [[]|msg]];
      simpl in Hl; [|exact Hl].
    cbn [bind exec]. unfold wgDone. cbn [exec]. simpl w_wg.
    destruct (w_wg w2 - 1 <? 0); simpl; exact Hl.
  - generalize (w_nrand w) (length (w_reqs w)). intros k n0.
    assert (forall r, (length (cmd_message baseURL path r) <= 1)%nat) as H1.
    { intros [[code|] [e|]]; unfold cmd_message; simpl; try lia.
      destruct ((200 <=? code) && (code <? 300)); [simpl; lia|].
      destruct (code =? StatusTooManyRequests); simpl; lia. }
    assert (forall n k n0,
              (length (concat (map (cmd_message baseURL path)
                 (cmd_machine env uas (TrimSpace lib (baseURL ++ path)) k n0 n))) <= n)%nat)
      as Hn.
    { induction n as [|n IH]; intros k' n0'; [simpl; lia|].
      cbn [cmd_machine map concat]. rewrite length_app.
      pose proof (H1 (server env n0' (TrimSpace lib (baseURL ++ path))
                             (default "" (agent_at env uas k')))).
      destruct (cmd_transition _); [simpl; lia| |]; specialize (IH (S k') (S n0')); lia. }
    apply Hn.
Qed.

Lemma cmd_task_reports_each_attempt_witness :
  let rs := cmd_machine Fixtures.unreachable Fixtures.agents
                        "http://test.local/admin" 0 0 3 in
  let out := Fixtures.scan_cmd Fixtures.unreachable (100 * Millisecond) "/admin" in
  w_chan out.1 =
    ([] ++ concat (map (cmd_message "http://test.local" "/admin") rs))%list
  /\ (length (concat (map (cmd_message "http://test.local" "/admin") rs)) <= 3)%nat.
Proof.
  apply (cmd_task_reports_each_attempt Fixtures.lib_ok Fixtures.unreachable
           "http://test.local" "/admin" Fixtures.agents
           (Fixtures.fresh_world (Fixtures.cfg_cmd (100 * Millisecond)))).
  - reflexivity.
  - discriminate.
Defined.

Lemma exec_cmd_loop_done (env : Env) (lib : Lib) (baseURL path : string)
    (uas : list string) n :
  uas <> [] -> answers env ->
  forall delay (w : World string Cmd.ScannerConfig),
  (exec env (Cmd.loop lib baseURL path uas n delay) w).2 = Done tt.
Proof.
  intros Hne Hans.
  assert (0 < Z.of_nat (length uas)) as Hlen by (destruct uas; [congruence | simpl; lia]).
  induction n as [|n IH]; intros delay w; [reflexivity|].
  cbn [Cmd.loop]. rewrite exec_bind. unfold Cmd.loop_body.
  destruct (NewRequest lib (TrimSpace lib (baseURL ++ path))) as [e|].
  - unfold send. cbn [bind exec]. apply IH.
  - rewrite exec_bind. unfold randIntn. cbn [exec].
    destruct (Z.leb_spec (Z.of_nat (length uas)) 0) as [?|_]; [lia|].
    destruct (@elem_at_draw string uas (rng env (w_nrand w)) Hne) as (ua & Hua & Hix).
    rewrite exec_bind, Hix. cbn [exec]. rewrite exec_bind.
    unfold clientDo. cbn [exec].
    match goal with |- context [server env ?k ?u ?a] =>
      pose proof (Hans k u a) as Ha; destruct (server env k u a) as [[code|] [e|]]
    end; cbn [do_err do_resp bind].
    + rewrite !exec_bind. unfold sleep. cbn [exec bind]. apply IH.
    + destruct ((200 <=? code) && (code <? 300)).
      * reflexivity.
      * destruct (code =? StatusTooManyRequests); [reflexivity|].
        unfold sleep. cbn [bind exec]. apply IH.
    + rewrite !exec_bind. unfold send, sleep. cbn [exec bind]. apply IH.
    + exfalso. apply Ha; reflexivity.
Qed.

(** X7.  When [client.Do] returns a response or an error each time, a
    task of [cmd/main.go] returns normally and leaves the counter of free
    slots as it found it (one taken at the start, one given back by the
    deferred call), the wait-group counter one lower, and the
    configuration, the delay included, untouched. *)
Theorem cmd_task_restores_counter (lib : Lib) (env : Env) (baseURL path : string)
    (uas : list string) (w : World string Cmd.ScannerConfig) :
  uas <> [] ->
  answers env ->
  0 < w_wg w ->
  - 2 ^ 31 <= w_slots w < 2 ^ 31 ->
  let out := exec env (Cmd.scanTarget lib baseURL path uas) w in
  out.2 = Done tt
  /\ w_slots out.1 = w_slots w
  /\ w_wg out.1 = w_wg w - 1
  /\ w_config out.1 = w_config w.
Proof.
  intros Hne Hans Hwg Hs. cbv zeta.
  unfold Cmd.scanTarget, atomicAdd, loadDelay. cbn [bind exec].
  rewrite exec_bind.
  set (w1 := with_slots (wrap32 (w_slots w + -1)) w).
  pose proof (exec_cmd_loop_done env lib baseURL path uas 3 Hne Hans
                (get_delay (w_config w1)) w1) as Hd.
  destruct (exec_cmd_loop_shape env lib baseURL path uas 3 Hne
              (get_delay (w_config w1)) w1)
    as [j ags _ _ _ _ _ _ Hc Hw Hsl].
  destruct (exec env (Cmd.loop lib baseURL path uas 3 _) w1) as [w2 o].
  simpl in Hd, Hc, Hw, Hsl. subst o.
  cbn [bind exec]. unfold wgDone. cbn [exec]. simpl w_wg.
  destruct (Z.ltb_spec (w_wg w2 - 1) 0) as [?|_]; [lia|].
  simpl. rewrite Hsl, Hw, Hc. rewrite wrap32_restore by exact Hs. auto.
Qed.

Lemma cmd_task_restores_counter_witness :
  let out := Fixtures.scan_cmd Fixtures.unreachable (100 * Millisecond) "/admin" in
  out.2 = Done tt
  /\ w_slots out.1 = 1
  /\ w_wg out.1 = 1 - 1
  /\ w_config out.1 = Fixtures.cfg_cmd (100 * Millisecond).
Proof.
  apply (cmd_task_restores_counter Fixtures.lib_ok Fixtures.unreachable
           "http://test.local" "/admin" Fixtures.agents
           (Fixtures.fresh_world (Fixtures.cfg_cmd (100 * Millisecond)))).
  - discriminate.
  - intros n url ua _. discriminate.
  - reflexivity.
  - simpl. lia.
Defined.





Section SingleMachine.
Variable env : Env.
Variable lib : Lib.
Variables baseURL path ua : string.
Let W := World string Single.ScannerConfig.

End SingleMachine.



(** *** [main] of [cmd/main.go] under every schedule *)

Lemma residual_ok_mono {R A} (may : string -> Prop) (ok ok' : string -> Prop)
    (post : A -> nat -> nat -> bool -> Prop) r s o (p : Prog R A) :
  (forall url, ok url -> ok' url) ->
  residual may ok post r s o p -> residual may ok' post r s o p.
Proof.
  intros Hsub Hp. induction Hp; try (constructor; auto; fail).
Qed.

Section CmdResidual.
Variable ok : string -> Prop.
Variable lib : Lib.
Variables baseURL path : string.
Variable uas : list string.
Hypothesis Hok : ok (TrimSpace lib (baseURL ++ path)).
Hypothesis Hne : uas <> [].

Lemma cmd_loop_body_residual delay r s :
  residual cmd_may ok
    (fun (c : Cmd.Ctl) r' s' o' => o' = true /\ (r <= r')%nat /\ (s <= s')%nat)
    (S r) (S s) true (Cmd.loop_body lib baseURL path uas delay).
Proof.
  unfold Cmd.loop_body.
  destruct (NewRequest lib (TrimSpace lib (baseURL ++ path))) as [e|].
  - unfold send. cbn [bind]. repeat constructor; lia.
  - unfold randIntn. cbn [bind]. constructor.
    + left. destruct uas; [congruence|simpl; lia].
    + intros i Hi. destruct (@elem_at_in_range string uas i Hi) as [ua ->].
      cbn [bind]. unfold clientDo. cbn [bind]. constructor; [exact Hok|]. intros x.
      destruct (do_err x) as [e|]; [|destruct (do_resp x) as [code|]].
      * destruct (do_resp x); unfold send, sleep; cbn [bind]; repeat constructor; lia.
      * destruct ((200 <=? code) && (code <? 300));
          [|destruct (code =? StatusTooManyRequests)];
          unfold send, sleep; cbn [bind]; repeat constructor; lia.
      * constructor. reflexivity.
Qed.

Lemma cmd_loop_residual n : forall delay r s,
  (n <= r)%nat -> (n <= s)%nat ->
  residual cmd_may ok (fun _ _ _ o' => o' = true) r s true
           (Cmd.loop lib baseURL path uas n delay).
Proof.
  induction n as [|n IH]; intros delay r s Hr Hs.
  - simpl. constructor. reflexivity.
  - destruct r as [|r]; [lia|]. destruct s as [|s]; [lia|]. cbn [Cmd.loop].
    eapply residual_bind; [apply cmd_loop_body_residual|].
    intros c r' s' o' (-> & Hr' & Hs'). destruct c as [delay'|].
    + apply IH; lia.
    + constructor. reflexivity.
Qed.

Lemma cmd_scanTarget_residual :
  residual cmd_may ok finished 3 3 true (Cmd.scanTarget lib baseURL path uas).
Proof.
  unfold Cmd.scanTarget, atomicAdd, loadDelay, wgDone. cbn [bind].
  constructor. constructor. intros d.
  eapply residual_bind; [apply (cmd_loop_residual 3); lia|].
  intros _ r' s' o' ->. repeat constructor.
Qed.
End CmdResidual.

Section TasksLeft.
Variable ok : string -> Prop.

Lemma tasks_left_eq ps r s o r' s' o' :
  tasks_left ok ps r s o -> r = r' -> s = s' -> o = o' -> tasks_left ok ps r' s' o'.
Proof. intros H -> -> ->. exact H. Qed.

Lemma tasks_left_nonneg ps r s o : tasks_left ok ps r s o -> 0 <= o.
Proof.
  induction 1 as [|p ps r s o rs ss os _ _ IH]; [lia|].
  destruct o; simpl; lia.
Qed.

Lemma tasks_left_mono (ok' : string -> Prop) ps r s o :
  (forall url, ok url -> ok' url) ->
  tasks_left ok ps r s o -> tasks_left ok' ps r s o.
Proof.
  intros Hsub. induction 1; constructor; auto.
  eapply residual_ok_mono; eauto.
Qed.

Lemma tasks_left_snoc ps p rs ss os r s o :
  tasks_left ok ps rs ss os ->
  residual cmd_may ok finished r s o p ->
  tasks_left ok (ps ++ [p]) (rs + r) (ss + s) (os + owed o).
Proof.
  intros H Hp. induction H as [|p0 ps r0 s0 o0 rs ss os Hp0 _ IH].
  - simpl. eapply tasks_left_eq; [apply tl_cons; [exact Hp|constructor]|..]; lia.
  - simpl. eapply tasks_left_eq; [apply tl_cons; [exact Hp0|exact IH]|..]; lia.
Qed.

Lemma tasks_left_at ps i p rs ss os :
  tasks_left ok ps rs ss os -> ps !! i = Some p ->
  exists r s o rs0 ss0 os0,
    residual cmd_may ok finished r s o p
    /\ rs = (r + rs0)%nat /\ ss = (s + ss0)%nat /\ os = owed o + os0 /\ 0 <= os0
    /\ forall p' r' s' o',
         residual cmd_may ok finished r' s' o' p' ->
         tasks_left ok (<[i := p']> ps) (r' + rs0) (s' + ss0) (owed o' + os0).
Proof.
  intros H. revert i. induction H as [|p0 ps r s o rs ss os Hp Hps IH]; intros i Hi.
  - rewrite lookup_nil in Hi. discriminate.
  - destruct i as [|i]; simpl in Hi.
    + injection Hi as <-. exists r, s, o, rs, ss, os.
      repeat split; auto.
      * eapply tasks_left_nonneg; eauto.
      * intros p' r' s' o' Hp'. simpl. constructor; assumption.
    + destruct (IH i Hi) as (r1 & s1 & o1 & rs0 & ss0 & os0 & Hp1 & -> & -> & -> & H0 & Hput).
      exists r1, s1, o1, (r + rs0)%nat, (s + ss0)%nat, (owed o + os0).
      repeat split; auto; try lia.
      * destruct o; simpl; lia.
      * intros p' r' s' o' Hp'. simpl.
        eapply tasks_left_eq; [apply tl_cons; [exact Hp|exact (Hput _ _ _ _ Hp')]|..];
          lia.
Qed.

(** When no call of [wg.Done()] is owed, every goroutine has returned. *)
Lemma tasks_left_settled ps rs ss :
  tasks_left ok ps rs ss 0 -> Forall (fun p => p = Ret tt) ps.
Proof.
  intros H. remember 0 as z eqn:Hz. induction H as [|p ps r s o rs ss os Hp Hps IH].
  - constructor.
  - pose proof (tasks_left_nonneg _ _ _ _ Hps) as H0.
    destruct o; simpl in Hz; [lia|].
    constructor; [|apply IH; lia].
    inversion Hp as [a r' s' o' Hpost| | | | | | | | |]; subst. destruct a. reflexivity.
Qed.
End TasksLeft.

Lemma cmd_url_mono lib base ps ps' url :
  (forall p, In p ps -> In p ps') -> cmd_url lib base ps url -> cmd_url lib base ps' url.
Proof. intros Hsub (p & Hp & ->). exists p. auto. Qed.

Lemma userAgents_nonempty : CmdPool.userAgents <> [].
Proof. discriminate. Qed.

Section CmdInvariant.
Variable lib : Lib.
Variable env : Env.
Variable cfg : Cmd.ScannerConfig.
Variable paths : list string.

Lemma cmd_alive_spec s :
  CmdPool.alive s = true ->
  CmdPool.crashed s = None /\ CmdPool.main s <> CmdPool.Exited.
Proof.
  unfold CmdPool.alive. destruct (CmdPool.crashed s); [discriminate|].
  destruct (CmdPool.main s); (discriminate || (intros _; split; [reflexivity|discriminate])).
Qed.

Ltac cside :=
  try unfold unexamined in *; simpl; auto; try lia; try discriminate.

Lemma cmd_step_main_inv s s' :
  cmd_inv lib cfg paths s -> CmdPool.alive s = true ->
  CmdPool.step_main lib s = Some s' -> cmd_inv lib cfg paths s'.
Proof.
  intros [rs ss ex Hb Ht Hr Hs Hu Hp Hsp Hcl Hw Hc He Hcr] Hal H.
  apply cmd_alive_spec in Hal as [Hnc Hne].
  unfold CmdPool.step_main in H. unfold unexamined in *.
  destruct (CmdPool.main s) as [[|path rest]| |] eqn:Hm.
  - (* the loop is over *)
    injection H as <-.
    apply CmdInv with (rs := rs) (ss := ss) (examined := ex); cside.
    + intros [?|?]; discriminate.
    + intros Hcd. specialize (Hc Hcd). destruct (CmdPool.closer s) eqn:E; try discriminate.
      destruct Hcl as [_ Hcl]; [discriminate|]. exfalso. exact (Hcl [] eq_refl).
  - assert (CmdPool.closer s = CmdPool.Unstarted) as Hun.
    { destruct (CmdPool.closer s) eqn:E; [reflexivity|..];
        (destruct Hcl as [_ Hcl]; [discriminate|]; exfalso; exact (Hcl _ eq_refl)). }
    destruct (0 <? CmdPool.concurrent32 s).
    + (* a goroutine is started *)
      injection H as <-.
      apply CmdInv with (rs := (rs + 3)%nat) (ss := (ss + 3)%nat)
                        (examined := (ex ++ [path])%list); cside.
      * replace (CmdPool.wg s + 1) with (CmdPool.wg s + owed true) by reflexivity.
        apply tasks_left_snoc.
        -- eapply tasks_left_mono; [|exact Ht]. intros url. apply cmd_url_mono.
           intros p Hin. apply in_or_app. auto.
        -- rewrite Hb. apply cmd_scanTarget_residual; [|apply userAgents_nonempty].
           exists path. split; [apply in_or_app; right; left; reflexivity|reflexivity].
      * rewrite length_app. simpl. lia.
      * rewrite !length_app. rewrite length_app in Hs. simpl. lia.
      * eapply Forall_impl; [exact Hu|]. intros rq. apply cmd_url_mono.
        intros p Hin. apply in_or_app. auto.
      * rewrite Hp, <- app_assoc. reflexivity.
      * apply sublist_app; [exact Hsp|reflexivity].
      * rewrite Hun. intros []. reflexivity.
      * rewrite Hun. intros [?|?]; discriminate.
    + (* the path is passed over *)
      injection H as <-.
      apply CmdInv with (rs := rs) (ss := ss) (examined := (ex ++ [path])%list); cside.
      * rewrite Hp, <- app_assoc. reflexivity.
      * apply sublist_inserts_r. exact Hsp.
      * rewrite Hun. intros []. reflexivity.
  - (* printing *)
    destruct (Pool.buf (CmdPool.resultsChan s)) as [|r q] eqn:Hbuf.
    + destruct (Pool.closed (CmdPool.resultsChan s)) eqn:Hclosed; [|discriminate].
      injection H as <-.
      apply CmdInv with (rs := rs) (ss := ss) (examined := ex); cside.
      rewrite Hbuf. exact Hs.
    + injection H as <-.
      apply CmdInv with (rs := rs) (ss := ss) (examined := ex); cside;
        rewrite ?Hm; cside.
      rewrite Hbuf. simpl. rewrite <- app_assoc. exact Hs.
  - discriminate.
Qed.
Lemma cmd_step_closer_inv s s' :
  cmd_inv lib cfg paths s -> CmdPool.alive s = true ->
  CmdPool.step_closer s = Some s' -> cmd_inv lib cfg paths s'.
Proof.
  intros [rs ss ex Hb Ht Hr Hs Hu Hp Hsp Hcl Hw Hc He Hcr] Hal H.
  apply cmd_alive_spec in Hal as [Hnc Hne].
  unfold CmdPool.step_closer in H.
  destruct (CmdPool.closer s) eqn:Hcs; try discriminate.
  - destruct (Z.eqb_spec (CmdPool.wg s) 0) as [Hz|]; [|discriminate]. injection H as <-.
    apply CmdInv with (rs := rs) (ss := ss) (examined := ex); cside;
      try (intros _; apply Hcl; discriminate);
      try (intros Hcd; specialize (Hc Hcd); discriminate).
  - injection H as <-.
    apply CmdInv with (rs := rs) (ss := ss) (examined := ex); cside;
      try (intros _; apply Hcl; discriminate);
      try (intros Hm; contradiction).
Qed.

Ltac cput tac :=
  match goal with
  | Hput : forall p' r' s' o', residual _ _ _ r' s' o' p' -> _,
    Hwg : CmdPool.wg _ = _ |- _ =>
      eapply tasks_left_eq;
        [apply Hput; tac | simpl; lia | simpl; lia | rewrite Hwg; simpl; lia]
  end.

Lemma cmd_step_task_inv i s s' :
  cmd_inv lib cfg paths s -> CmdPool.alive s = true ->
  CmdPool.step_task env i s = Some s' -> cmd_inv lib cfg paths s'.
Proof.
  intros [rs ss ex Hb Ht Hr Hs Hu Hp Hsp Hcl Hw Hc He Hcr] Hal H.
  apply cmd_alive_spec in Hal as [Hnc Hne].
  unfold CmdPool.step_task in H.
  destruct (CmdPool.tasks s !! i) as [p|] eqn:Hi; [|discriminate].
  destruct (tasks_left_at _ _ i p _ _ _ Ht Hi)
    as (r & s0 & o & rs0 & ss0 & os0 & Hres & -> & -> & Hwg & Hos0 & Hput).
  assert (o = true -> CmdPool.closer s <> CmdPool.Closing
                      /\ CmdPool.closer s <> CmdPool.Closed) as Hopen.
  { intros ->. split; intros Hx.
    - rewrite Hw in Hwg by auto. simpl in Hwg. lia.
    - rewrite Hw in Hwg by auto. simpl in Hwg. lia. }
  destruct p as [a|msg|n k|url ua k|k|d k|d k|x k|delta k|k].
  - discriminate.
  - (* Panic *)
    injection H as <-. inversion Hres as [|msg' r1 s1 Hmay| | | | | | | |]; subst.
    apply CmdInv with (rs := (r + rs0)%nat) (ss := (s0 + ss0)%nat) (examined := ex); cside.
    + intros Hx. contradiction.
    + right. rewrite Hmay. reflexivity.
  - (* RandIntn *)
    inversion Hres as [|  |n' k' r1 s1 Hpos Hk| | | | | | |]; subst.
    destruct (Z.leb_spec n 0) as [Hn|Hn].
    + injection H as <-.
      destruct Hpos as [Hpos|Hm]; [lia|discriminate Hm].
    + injection H as <-.
      apply CmdInv with (rs := (r + rs0)%nat) (ss := (s0 + ss0)%nat) (examined := ex); cside.
      cput ltac:(apply Hk; apply Z.mod_pos_bound; exact Hn).
  - (* ClientDo *)
    inversion Hres as [| | |url' ua' k' r1 s1 Hok Hk| | | | | |]; subst.
    injection H as <-.
    apply CmdInv with (rs := (r1 + rs0)%nat) (ss := (s0 + ss0)%nat) (examined := ex); cside.
    + cput ltac:(apply Hk).
    + rewrite length_app. simpl. lia.
    + apply Forall_app. split; [exact Hu|]. constructor; [exact Hok|constructor].
  - (* LoadDelay *)
    inversion Hres as [| | | |k' r1 s1 Hk| | | | |]; subst.
    injection H as <-.
    apply CmdInv with (rs := (r + rs0)%nat) (ss := (s0 + ss0)%nat) (examined := ex); cside.
    cput ltac:(apply Hk).
  - (* StoreDelay *)
    inversion Hres as [| | | | |d' k' r1 s1 Hk| | | |]; subst.
    injection H as <-.
    apply CmdInv with (rs := (r + rs0)%nat) (ss := (s0 + ss0)%nat) (examined := ex); cside.
    cput ltac:(exact Hk).
  - (* Sleep *)
    inversion Hres as [| | | | | |d' k' r1 s1 Hk| | |]; subst.
    injection H as <-.
    apply CmdInv with (rs := (r + rs0)%nat) (ss := (s0 + ss0)%nat) (examined := ex); cside.
    cput ltac:(exact Hk).
  - (* Send *)
    inversion Hres as [| | | | | | |x' k' r1 s1 Hk| |]; subst.
    destruct (Hopen eq_refl) as [Hno1 Hno2].
    destruct (Pool.closed (CmdPool.resultsChan s)) eqn:Hclosed.
    + exfalso. apply Hno2. apply Hc. reflexivity.
    + destruct (Pool.full (CmdPool.resultsChan s)); [discriminate|]. injection H as <-.
      apply CmdInv with (rs := (r + rs0)%nat) (ss := (s1 + ss0)%nat) (examined := ex); cside.
      * cput ltac:(exact Hk).
      * rewrite app_assoc, length_app. simpl. lia.
      * rewrite Hclosed. discriminate.
      * intros Hm. contradiction.
  - (* AtomicAdd *)
    inversion Hres as [| | | | | | | |delta' k' r1 s1 Hk|]; subst.
    injection H as <-.
    apply CmdInv with (rs := (r + rs0)%nat) (ss := (s0 + ss0)%nat) (examined := ex); cside.
    cput ltac:(exact Hk).
  - (* WgDone *)
    inversion Hres as [| | | | | | | | |k' r1 s1 Hk]; subst.
    destruct (Hopen eq_refl) as [Hno1 Hno2].
    destruct (Z.ltb_spec (CmdPool.wg s - 1) 0) as [Hneg|_].
    + exfalso. rewrite Hwg in Hneg. simpl in Hneg. lia.
    + injection H as <-.
      apply CmdInv with (rs := (r + rs0)%nat) (ss := (s0 + ss0)%nat) (examined := ex); cside.
      * cput ltac:(exact Hk).
      * intros [?|?]; contradiction.
Qed.

Lemma cmd_step_inv t s s' :
  cmd_inv lib cfg paths s -> CmdPool.step lib env t s = Some s' ->
  cmd_inv lib cfg paths s'.
Proof.
  intros Hinv H. unfold CmdPool.step in H.
  destruct (CmdPool.alive s) eqn:Hal; [|discriminate].
  destruct t as [|i|].
  - eapply cmd_step_main_inv; eassumption.
  - eapply cmd_step_task_inv; eassumption.
  - eapply cmd_step_closer_inv; eassumption.
Qed.

Lemma cmd_run_inv sched : forall s s',
  cmd_inv lib cfg paths s -> CmdPool.run lib env sched s = Some s' ->
  cmd_inv lib cfg paths s'.
Proof.
  induction sched as [|t sched IH]; intros s s' Hinv H; simpl in H.
  - injection H as <-. exact Hinv.
  - destruct (CmdPool.step lib env t s) as [s1|] eqn:Hs; [|discriminate].
    eapply IH; [eapply cmd_step_inv; eassumption|exact H].
Qed.

Lemma cmd_init_inv : cmd_inv lib cfg paths (CmdPool.init cfg paths).
Proof.
  apply CmdInv with (rs := 0%nat) (ss := 0%nat) (examined := []); cside;
    try (intros Hx; exfalso; apply Hx; reflexivity);
    try (intros [?|?]; discriminate);
    constructor.
Qed.
End CmdInvariant.

Lemma cmd_inv_run (lib : Lib) (env : Env) (cfg : Cmd.ScannerConfig)
    (paths : list string) (sched : list CmdPool.Tid) (s' : CmdPool.Sys) :
  CmdPool.run lib env sched (CmdPool.init cfg paths) = Some s' ->
  cmd_inv lib cfg paths s'.
Proof.
  intros Hrun. eapply cmd_run_inv; [apply cmd_init_inv|exact Hrun].
Qed.

(** X10.  In [cmd/main.go] the results channel is closed only when every
    goroutine started has returned: under every schedule the wait-group
    counter stays at zero or above, no task sends on the closed channel,
    and when [main] returns, nothing has panicked, the channel is empty
    and every task is over. *)
Theorem cmd_results_close_after_tasks (lib : Lib) (env : Env)
    (cfg : Cmd.ScannerConfig) (paths : list string) (sched : list CmdPool.Tid)
    (s' : CmdPool.Sys) :
  CmdPool.run lib env sched (CmdPool.init cfg paths) = Some s' ->
  0 <= CmdPool.wg s'
  /\ (Pool.closed (CmdPool.resultsChan s') = true ->
      Forall (fun p => p = Ret tt) (CmdPool.tasks s'))
  /\ CmdPool.crashed s' <> Some "send on closed channel"
  /\ CmdPool.crashed s' <> Some "sync: negative WaitGroup counter"
  /\ (CmdPool.main s' = CmdPool.Exited ->
      CmdPool.crashed s' = None
      /\ Pool.buf (CmdPool.resultsChan s') = []
      /\ Forall (fun p => p = Ret tt) (CmdPool.tasks s')).
Proof.
  intros Hrun.
  destruct (cmd_inv_run lib env cfg paths sched s' Hrun)
    as [rs ss ex _ Ht _ _ _ _ _ _ Hw Hc He Hcr].
  assert (Pool.closed (CmdPool.resultsChan s') = true ->
          Forall (fun p => p = Ret tt) (CmdPool.tasks s')) as Hsettled.
  { intros Hcl. rewrite Hw in Ht by (right; apply Hc, Hcl).
    eapply tasks_left_settled. exact Ht. }
  split; [eapply tasks_left_nonneg; exact Ht|].
  split; [exact Hsettled|].
  split; [destruct Hcr as [->| ->]; discriminate|].
  split; [destruct Hcr as [->| ->]; discriminate|].
  intros Hm. destruct (He Hm) as (Hnc & Hbuf & Hcl). auto.
Qed.

Lemma cmd_results_close_after_tasks_witness :
  exists s',
    CmdPool.run Fixtures.lib_ok (Fixtures.always 200) Samples.cmd_in_order
                (CmdPool.init (Fixtures.cfg_cmd (100 * Millisecond)) ["/robots.txt"])
    = Some s'
    /\ 0 <= CmdPool.wg s'
    /\ (Pool.closed (CmdPool.resultsChan s') = true ->
        Forall (fun p => p = Ret tt) (CmdPool.tasks s'))
    /\ CmdPool.crashed s' <> Some "send on closed channel"
    /\ CmdPool.crashed s' <> Some "sync: negative WaitGroup counter"
    /\ (CmdPool.main s' = CmdPool.Exited ->
        CmdPool.crashed s' = None
        /\ Pool.buf (CmdPool.resultsChan s') = []
        /\ Forall (fun p => p = Ret tt) (CmdPool.tasks s')).
Proof.
  eexists. split; [vm_compute; reflexivity|].
  apply (cmd_results_close_after_tasks Fixtures.lib_ok (Fixtures.always 200)
           (Fixtures.cfg_cmd (100 * Millisecond)) ["/robots.txt"] Samples.cmd_in_order).
  vm_compute. reflexivity.
Defined.



(** While no goroutine has been started the counter keeps its first
    value. *)
Lemma cmd_never_starts (lib : Lib) (env : Env) (cfg : Cmd.ScannerConfig)
    (sched : list CmdPool.Tid) : forall s s',
  CmdPool.concurrent32 s <= 0 -> CmdPool.tasks s = [] -> CmdPool.spawned s = [] ->
  CmdPool.run lib env sched s = Some s' ->
  CmdPool.spawned s' = [] /\ CmdPool.tasks s' = []
  /\ CmdPool.reqs s' = CmdPool.reqs s
  /\ (length (unexamined s') <= length (unexamined s))%nat
  /\ exists k, CmdPool.sleeps s' =
               (CmdPool.sleeps s ++ replicate k (Cmd.AdaptiveDelay (CmdPool.config s)))%list
               /\ (k + length (unexamined s') = length (unexamined s))%nat.
Proof.
  induction sched as [|t sched IH]; intros s s' Hc Ht Hsp H; simpl in H.
  - injection H as <-. repeat split; auto. exists 0%nat. rewrite app_nil_r. auto.
  - destruct (CmdPool.step lib env t s) as [s1|] eqn:Hs; [|discriminate].
    assert (CmdPool.concurrent32 s1 <= 0 /\ CmdPool.tasks s1 = []
            /\ CmdPool.spawned s1 = [] /\ CmdPool.reqs s1 = CmdPool.reqs s
            /\ CmdPool.config s1 = CmdPool.config s
            /\ ((CmdPool.sleeps s1 = CmdPool.sleeps s /\ unexamined s1 = unexamined s)
                \/ (CmdPool.sleeps s1 =
                      (CmdPool.sleeps s ++ [Cmd.AdaptiveDelay (CmdPool.config s)])%list
                    /\ S (length (unexamined s1)) = length (unexamined s)))) as Hstep.
    { unfold CmdPool.step in Hs. destruct (CmdPool.alive s); [|discriminate].
      destruct t as [|i|].
      - unfold CmdPool.step_main in Hs. unfold unexamined.
        destruct (CmdPool.main s) as [[|path rest]| |] eqn:Hm.
        + injection Hs as <-. simpl. auto 10.
        + destruct (Z.ltb_spec 0 (CmdPool.concurrent32 s)) as [?|_]; [lia|].
          injection Hs as <-. simpl. auto 10.
        + destruct (Pool.buf (CmdPool.resultsChan s)).
          * destruct (Pool.closed (CmdPool.resultsChan s)); [|discriminate].
            injection Hs as <-. simpl. rewrite ?Hm. auto 10.
          * injection Hs as <-. simpl. rewrite ?Hm. auto 10.
        + discriminate.
      - unfold CmdPool.step_task in Hs. rewrite Ht, lookup_nil in Hs. discriminate.
      - unfold CmdPool.step_closer in Hs. unfold unexamined.
        destruct (CmdPool.closer s); try discriminate.
        + destruct (CmdPool.wg s =? 0); [|discriminate]. injection Hs as <-. simpl. auto 10.
        + injection Hs as <-. simpl. auto 10. }
    destruct Hstep as (Hc1 & Ht1 & Hsp1 & Hr1 & Hcf1 & Hsl1).
    destruct (IH s1 s' Hc1 Ht1 Hsp1 H) as (E1 & E2 & E3 & E4 & k & E5 & E6).
    rewrite Hcf1 in E5. split; [exact E1|]. split; [exact E2|].
    split; [congruence|].
    destruct Hsl1 as [[Hsl Hun]|[Hsl Hun]].
    + rewrite Hun in *. split; [exact E4|]. exists k. rewrite E5, Hsl. auto.
    + split; [lia|]. exists (S k). rewrite E5, Hsl, <- app_assoc. split; [reflexivity|lia].
Qed.

Lemma cmd_main_runs_ahead (lib : Lib) (env : Env) (rest : list string) : forall s,
  0 < CmdPool.concurrent32 s ->
  CmdPool.crashed s = None ->
  CmdPool.main s = CmdPool.Spawning rest ->
  exists s',
    CmdPool.run lib env (replicate (length rest) CmdPool.Main) s = Some s'
    /\ CmdPool.main s' = CmdPool.Spawning []
    /\ CmdPool.spawned s' = (CmdPool.spawned s ++ rest)%list
    /\ CmdPool.tasks s' =
       (CmdPool.tasks s ++
        map (fun path => Cmd.scanTarget lib (Cmd.BaseURL (CmdPool.config s)) path
                                        CmdPool.userAgents) rest)%list
    /\ CmdPool.wg s' = CmdPool.wg s + Z.of_nat (length rest)
    /\ CmdPool.concurrent32 s' = CmdPool.concurrent32 s
    /\ CmdPool.reqs s' = CmdPool.reqs s
    /\ CmdPool.sleeps s' = CmdPool.sleeps s.
Proof.
  induction rest as [|path rest IH]; intros s Hc Hcr Hm.
  - exists s. simpl. rewrite !app_nil_r. repeat split; auto. lia.
  - set (s1 := CmdPool.set_main (CmdPool.Spawning rest)
                 (CmdPool.spawn path
                    (Cmd.scanTarget lib (Cmd.BaseURL (CmdPool.config s)) path
                                    CmdPool.userAgents)
                    (CmdPool.set_wg (CmdPool.wg s + 1) s))).
    assert (CmdPool.step lib env CmdPool.Main s = Some s1) as Hstep.
    { unfold CmdPool.step, CmdPool.alive, CmdPool.step_main. rewrite Hcr, Hm.
      destruct (Z.ltb_spec 0 (CmdPool.concurrent32 s)) as [_|?]; [reflexivity|lia]. }
    destruct (IH s1 Hc Hcr eq_refl) as (s' & Hrun & E1 & E2 & E3 & E4 & E5 & E6 & E7).
    exists s'. cbn [length replicate CmdPool.run]. rewrite Hstep.
    split; [exact Hrun|]. split; [exact E1|].
    rewrite E2, E3, E4, E5, E6, E7. simpl. rewrite <- !app_assoc.
    repeat split; auto. lia.
Qed.

(** X12.  The [-concurrent] value of [cmd/main.go] is no bound on the
    goroutines: when it is positive (as an [int32]), [main] can start a
    goroutine for every path before any of them has run, the counter
    unchanged. *)
Theorem cmd_limit_does_not_bound (lib : Lib) (env : Env) (cfg : Cmd.ScannerConfig)
    (paths : list string) :
  0 < wrap32 (Cmd.Concurrent cfg) ->
  exists s',
    CmdPool.run lib env (replicate (length paths) CmdPool.Main)
                (CmdPool.init cfg paths) = Some s'
    /\ CmdPool.spawned s' = paths
    /\ CmdPool.tasks s' =
       map (fun path => Cmd.scanTarget lib (Cmd.BaseURL cfg) path CmdPool.userAgents)
           paths
    /\ CmdPool.wg s' = Z.of_nat (length paths)
    /\ CmdPool.concurrent32 s' = wrap32 (Cmd.Concurrent cfg).
Proof.
  intros Hc.
  destruct (cmd_main_runs_ahead lib env paths (CmdPool.init cfg paths) Hc eq_refl eq_refl)
    as (s' & Hrun & _ & E2 & E3 & E4 & E5 & _).
  exists s'. simpl in *. auto.
Qed.

Lemma cmd_limit_does_not_bound_witness :
  exists s',
    CmdPool.run Fixtures.lib_ok (Fixtures.always 200) (replicate 3 CmdPool.Main)
                (CmdPool.init (Fixtures.cfg_cmd (100 * Millisecond)) ["/a"; "/b"; "/c"])
    = Some s'
    /\ CmdPool.spawned s' = ["/a"; "/b"; "/c"]
    /\ CmdPool.tasks s' =
       map (fun path => Cmd.scanTarget Fixtures.lib_ok "http://test.local" path
                                       CmdPool.userAgents)
           ["/a"; "/b"; "/c"]
    /\ CmdPool.wg s' = 3
    /\ CmdPool.concurrent32 s' = 1.
Proof.
  apply (cmd_limit_does_not_bound Fixtures.lib_ok (Fixtures.always 200)
           (Fixtures.cfg_cmd (100 * Millisecond)) ["/a"; "/b"; "/c"]).
  reflexivity.
Defined.

Lemma cmd_main_passes_over (lib : Lib) (env : Env) (rest : list string) : forall s,
  CmdPool.concurrent32 s <= 0 ->
  CmdPool.crashed s = None ->
  CmdPool.main s = CmdPool.Spawning rest ->
  exists s',
    CmdPool.run lib env (replicate (length rest) CmdPool.Main) s = Some s'
    /\ CmdPool.main s' = CmdPool.Spawning []
    /\ CmdPool.spawned s' = CmdPool.spawned s
    /\ CmdPool.tasks s' = CmdPool.tasks s
    /\ CmdPool.sleeps s' =
       (CmdPool.sleeps s ++
        replicate (length rest) (Cmd.AdaptiveDelay (CmdPool.config s)))%list.
Proof.
  induction rest as [|path rest IH]; intros s Hc Hcr Hm.
  - exists s. simpl. rewrite !app_nil_r. repeat split; auto.
  - set (s1 := CmdPool.set_main (CmdPool.Spawning rest)
                 (CmdPool.set_sleeps
                    (CmdPool.sleeps s ++ [Cmd.AdaptiveDelay (CmdPool.config s)]) s)).
    assert (CmdPool.step lib env CmdPool.Main s = Some s1) as Hstep.
    { unfold CmdPool.step, CmdPool.alive, CmdPool.step_main. rewrite Hcr, Hm.
      destruct (Z.ltb_spec 0 (CmdPool.concurrent32 s)) as [?|_]; [lia|reflexivity]. }
    destruct (IH s1 Hc Hcr eq_refl) as (s' & Hrun & E1 & E2 & E3 & E4).
    exists s'. cbn [length replicate CmdPool.run]. rewrite Hstep.
    split; [exact Hrun|]. split; [exact E1|].
    rewrite E2, E3, E4. simpl. rewrite <- !app_assoc. auto.
Qed.

(** X13.  A path reached by the loop of [main] in [cmd/main.go] while the
    counter is not positive is passed over: [main] sleeps for the delay
    and goes to the next path.  With a counter that starts at zero or
    below no goroutine is started and no request made, under every
    schedule.  With a counter of 1 and a first task that has taken its
    slot, every further path is passed over. *)
Theorem cmd_passes_over_paths (lib : Lib) (env : Env) (cfg : Cmd.ScannerConfig) :
  (forall paths sched s',
     wrap32 (Cmd.Concurrent cfg) <= 0 ->
     CmdPool.run lib env sched (CmdPool.init cfg paths) = Some s' ->
     CmdPool.spawned s' = [] /\ CmdPool.reqs s' = []
     /\ exists k, CmdPool.sleeps s' = replicate k (Cmd.AdaptiveDelay cfg)
                  /\ (k + length (unexamined s') = length paths)%nat)
  /\ (forall path rest,
        wrap32 (Cmd.Concurrent cfg) = 1 ->
        exists s',
          CmdPool.run lib env
            ([CmdPool.Main; CmdPool.Task 0] ++ replicate (length rest) CmdPool.Main)
            (CmdPool.init cfg (path :: rest)) = Some s'
          /\ CmdPool.main s' = CmdPool.Spawning []
          /\ CmdPool.spawned s' = [path]
          /\ CmdPool.sleeps s' = replicate (length rest) (Cmd.AdaptiveDelay cfg)).
Proof.
  split.
  - intros paths sched s' Hc Hrun.
    destruct (cmd_never_starts lib env cfg sched (CmdPool.init cfg paths) s' Hc
                eq_refl eq_refl Hrun) as (E1 & _ & E3 & _ & k & E5 & E6).
    split; [exact E1|]. split; [exact E3|]. exists k. auto.
  - intros path rest Hc.
    set (task := Cmd.scanTarget lib (Cmd.BaseURL cfg) path CmdPool.userAgents).
    set (s2 := CmdPool.mkSys cfg (Pool.make (length (path :: rest))) 1 0
                 (CmdPool.Spawning rest)
                 [delay <- loadDelay ;;
                  Cmd.loop lib (Cmd.BaseURL cfg) path CmdPool.userAgents 3 delay ;;
                  atomicAdd 1 ;; wgDone]
                 [path] CmdPool.Unstarted [] [] 0%nat [] None).
    assert (CmdPool.run lib env [CmdPool.Main; CmdPool.Task 0]
                        (CmdPool.init cfg (path :: rest)) = Some s2) as Hstart.
    { unfold CmdPool.init. cbn [CmdPool.run]. unfold CmdPool.step at 1.
      cbn [CmdPool.alive CmdPool.crashed CmdPool.main CmdPool.step_main
           CmdPool.concurrent32].
      rewrite Hc. reflexivity. }
    destruct (cmd_main_passes_over lib env rest s2 ltac:(simpl; lia) eq_refl eq_refl)
      as (s' & Hrun & E1 & E2 & _ & E4).
    exists s'. split; [|auto].
    change ([CmdPool.Main; CmdPool.Task 0] ++ replicate (length rest) CmdPool.Main)%list
      with (CmdPool.Main :: CmdPool.Task 0 :: replicate (length rest) CmdPool.Main).
    cbn [CmdPool.run] in Hstart |- *.
    destruct (CmdPool.step lib env CmdPool.Main (CmdPool.init cfg (path :: rest)))
      as [s1|]; [|discriminate].
    destruct (CmdPool.step lib env (CmdPool.Task 0) s1) as [s2'|]; [|discriminate].
    injection Hstart as ->. exact Hrun.
Qed.

Lemma cmd_passes_over_paths_witness :
  exists s',
    CmdPool.run Fixtures.lib_ok (Fixtures.always 200)
      ([CmdPool.Main; CmdPool.Task 0] ++ replicate 2 CmdPool.Main)
      (CmdPool.init (Fixtures.cfg_cmd (100 * Millisecond)) ["/a"; "/b"; "/c"]) = Some s'
    /\ CmdPool.main s' = CmdPool.Spawning []
    /\ CmdPool.spawned s' = ["/a"]
    /\ CmdPool.sleeps s' = replicate 2 (100 * Millisecond).
Proof.
  apply (proj2 (cmd_passes_over_paths Fixtures.lib_ok (Fixtures.always 200)
                  (Fixtures.cfg_cmd (100 * Millisecond))) "/a" ["/b"; "/c"]).
  reflexivity.
Defined.

(** *** The DNS caches *)

Lemma resolve_lookups net host s :
  Dns.lookups (Dns.resolve net host s).1 = (Dns.lookups s ++ [host])%list.
Proof.
  unfold Dns.resolve.
  destruct (Dns.LookupHost net (length (Dns.lookups s)) host) as [[|a rest]|e]; reflexivity.
Qed.

Lemma resolve_entries net host s h :
  h <> host ->
  Dns.entries (Dns.resolve net host s).1 !! h = Dns.entries s !! h.
Proof.
  intros Hne. unfold Dns.resolve.
  destruct (Dns.LookupHost net (length (Dns.lookups s)) host) as [[|a rest]|e];
    simpl; try reflexivity.
  apply lookup_insert_ne. congruence.
Qed.

Lemma resolve_keeps net host s h :
  is_Some (Dns.entries s !! h) ->
  is_Some (Dns.entries (Dns.resolve net host s).1 !! h).
Proof.
  intros Hs. destruct (decide (h = host)) as [->|Hne].
  - unfold Dns.resolve.
    destruct (Dns.LookupHost net (length (Dns.lookups s)) host) as [[|a rest]|e];
      simpl; try exact Hs.
    rewrite lookup_insert_eq. eauto.
  - rewrite resolve_entries by exact Hne. exact Hs.
Qed.

Lemma resolve_dials net host s :
  Dns.dials (Dns.resolve net host s).1 = Dns.dials s.
Proof.
  unfold Dns.resolve.
  destruct (Dns.LookupHost net (length (Dns.lookups s)) host) as [[|a rest]|e]; reflexivity.
Qed.

Lemma lookup_cases net host s :
  Dns.lookup net host s = Dns.resolve net host s
  \/ exists e, Dns.entries s !! host = Some e /\ Dns.clock s - Dns.timestamp e < 5 * Minute
               /\ Dns.lookup net host s = (s, Done (Dns.ip e, None)).
Proof.
  unfold Dns.lookup. destruct (Dns.entries s !! host) as [e|]; [|left; reflexivity].
  destruct (Dns.fresh (Dns.clock s) e) eqn:Hf; [|left; reflexivity].
  right. exists e. apply fresh_iff in Hf. auto.
Qed.

(** X14.  [lookup] of a host leaves the entries of all other hosts as
    they are, removes no entry, calls the resolver once at most, and does
    not dial. *)
Theorem lookup_touches_one_entry (net : Dns.Net) (host : string) (s : Dns.State) :
  let out := Dns.lookup net host s in
  (forall h, h <> host -> Dns.entries out.1 !! h = Dns.entries s !! h)
  /\ (forall h, is_Some (Dns.entries s !! h) -> is_Some (Dns.entries out.1 !! h))
  /\ (Dns.lookups out.1 = Dns.lookups s
      \/ Dns.lookups out.1 = (Dns.lookups s ++ [host])%list)
  /\ Dns.dials out.1 = Dns.dials s.
Proof.
  cbv zeta.
  destruct (lookup_cases net host s) as [->|(e & He & Hage & ->)].
  - split; [|split; [|split]].
    + intros h Hne. apply resolve_entries, Hne.
    + intros h. apply resolve_keeps.
    + right. apply resolve_lookups.
    + apply resolve_dials.
  - simpl. auto.
Qed.

Lemma lookup_touches_one_entry_witness :
  Dns.entries (Dns.lookup Fixtures.resolver_up "other.test" Fixtures.warm_cache).1
    !! "test.local"
  = Dns.entries Fixtures.warm_cache !! "test.local".
Proof.
  apply (proj1 (lookup_touches_one_entry Fixtures.resolver_up "other.test"
                  Fixtures.warm_cache)).
  discriminate.
Defined.

(** X15.  After a lookup that had to ask the resolver and got the
    addresses [a :: rest], a later lookup of the same host, the entry
    still in the cache, returns [a] without asking the resolver when less
    than five minutes have passed, whatever the resolver would say then;
    from five minutes on the resolver is asked again. *)
Theorem second_lookup_within_five_minutes (net net' : Dns.Net) (host a : string)
    (rest : list string) (s s2 : Dns.State) :
  (forall e, Dns.entries s !! host = Some e ->
             5 * Minute <= Dns.clock s - Dns.timestamp e) ->
  Dns.LookupHost net (length (Dns.lookups s)) host = inl (a :: rest) ->
  let s1 := (Dns.lookup net host s).1 in
  Dns.entries s2 !! host = Dns.entries s1 !! host ->
  (Dns.clock s2 - Dns.clock s1 < 5 * Minute ->
   Dns.lookup net' host s2 = (s2, Done (a, None)))
  /\ (5 * Minute <= Dns.clock s2 - Dns.clock s1 ->
      Dns.lookup net' host s2 = Dns.resolve net' host s2
      /\ Dns.lookups (Dns.lookup net' host s2).1 = (Dns.lookups s2 ++ [host])%list).
Proof.
  intros Hstale Hres. cbv zeta. rewrite (lookup_stale net host s Hstale).
  unfold Dns.resolve at 1 2 3. rewrite Hres. cbn [fst Dns.entries Dns.clock].
  rewrite lookup_insert_eq. intros Hsame. split.
  - intros Hage. unfold Dns.lookup. rewrite Hsame.
    assert (Dns.fresh (Dns.clock s2)
              {| Dns.ip := a;
                 Dns.timestamp := Dns.clock s + Dns.took net (length (Dns.lookups s)) |}
            = true) as -> by (apply fresh_iff; exact Hage).
    reflexivity.
  - intros Hage.
    assert (Dns.lookup net' host s2 = Dns.resolve net' host s2) as E.
    { apply lookup_stale. intros e He. rewrite Hsame in He. injection He as <-. exact Hage. }
    split; [exact E|]. rewrite E. apply resolve_lookups.
Qed.

Lemma second_lookup_within_five_minutes_witness :
  (Dns.lookup Fixtures.resolver_down "test.local" (Samples.later (1 * Minute))
   = (Samples.later (1 * Minute), Done ("192.0.2.7", None)))
  /\ Dns.lookups (Dns.lookup Fixtures.resolver_down "test.local"
                             (Samples.later (6 * Minute))).1
     = (Dns.lookups (Samples.later (6 * Minute)) ++ ["test.local"])%list.
Proof.
  split.
  - apply (second_lookup_within_five_minutes Fixtures.resolver_up Fixtures.resolver_down
             "test.local" "192.0.2.7" ["192.0.2.8"] (Dns.newDNSCache 0)
             (Samples.later (1 * Minute))).
    + intros e He. simpl in He. rewrite lookup_empty in He. discriminate.
    + reflexivity.
    + reflexivity.
    + vm_compute. reflexivity.
  - apply (second_lookup_within_five_minutes Fixtures.resolver_up Fixtures.resolver_down
             "test.local" "192.0.2.7" ["192.0.2.8"] (Dns.newDNSCache 0)
             (Samples.later (6 * Minute))).
    + intros e He. simpl in He. rewrite lookup_empty in He. discriminate.
    + reflexivity.
    + reflexivity.
    + vm_compute. discriminate.
Defined.

Lemma cmd_resolve_keeps {IP} (net : CmdDns.Net IP) (host h : string)
    (s : CmdDns.State IP) (ip : IP) :
  CmdDns.cache s !! h = Some ip ->
  CmdDns.cache (CmdDns.resolve net host s).1 !! h = Some ip.
Proof.
  intros Hh. unfold CmdDns.resolve.
  destruct (CmdDns.cache s !! host) as [ip'|] eqn:Hhost; [exact Hh|].
  destruct (CmdDns.LookupHost net (length (CmdDns.lookups s)) host) as [[|a rest]|e];
    simpl; try exact Hh.
  rewrite lookup_insert_ne; [exact Hh|]. intros ->. congruence.
Qed.

Lemma cmd_resolve_all_keeps {IP} (net : CmdDns.Net IP) (h : string) (ip : IP)
    (hosts : list string) : forall s s',
  CmdDns.cache s !! h = Some ip ->
  resolve_all net hosts s = Some s' ->
  CmdDns.cache s' !! h = Some ip.
Proof.
  induction hosts as [|host rest IH]; intros s s' Hh H; simpl in H.
  - injection H as <-. exact Hh.
  - pose proof (cmd_resolve_keeps net host h s ip Hh) as H1.
    destruct (CmdDns.resolve net host s) as [s1 [r|msg]]; [|discriminate].
    eapply IH; eassumption.
Qed.

(** X16.  [resolve] of [cmd/main.go] never returns an error: a failure of
    the resolver is a panic, by [check], and so is an empty list of
    addresses, by [ips[0]].  An address once returned stays: after any
    further calls, for any hosts, the same host resolves to the same
    address without asking the resolver, as entries never expire. *)
Theorem cmd_resolve_caches_for_good {IP} (net net' : CmdDns.Net IP)
    (host : string) (s : CmdDns.State IP) :
  (forall ip err, (CmdDns.resolve net host s).2 = Done (ip, err) -> err = None)
  /\ (forall e, CmdDns.cache s !! host = None ->
                CmdDns.LookupHost net (length (CmdDns.lookups s)) host = inr e ->
                (CmdDns.resolve net host s).2 = Panicked e)
  /\ (CmdDns.cache s !! host = None ->
      CmdDns.LookupHost net (length (CmdDns.lookups s)) host = inl [] ->
      (CmdDns.resolve net host s).2 = Panicked "index out of range")
  /\ (forall s1 ip hosts s2,
        CmdDns.resolve net host s = (s1, Done (ip, None)) ->
        resolve_all net' hosts s1 = Some s2 ->
        CmdDns.resolve net' host s2 = (s2, Done (ip, None))).
Proof.
  split; [|split; [|split]].
  - intros ip err. unfold CmdDns.resolve.
    destruct (CmdDns.cache s !! host) as [ip'|]; [simpl; congruence|].
    destruct (CmdDns.LookupHost net (length (CmdDns.lookups s)) host) as [[|a rest]|e];
      simpl; congruence.
  - intros e Hc He. unfold CmdDns.resolve. rewrite Hc, He. reflexivity.
  - intros Hc He. unfold CmdDns.resolve. rewrite Hc, He. reflexivity.
  - intros s1 ip hosts s2 Hres Hall.
    assert (CmdDns.cache s1 !! host = Some ip) as Hin.
    { unfold CmdDns.resolve in Hres.
      destruct (CmdDns.cache s !! host) as [ip'|] eqn:Hc.
      - injection Hres as <- <-. exact Hc.
      - destruct (CmdDns.LookupHost net (length (CmdDns.lookups s)) host)
          as [[|a rest]|e]; simpl in Hres; try discriminate.
        injection Hres as <- <-. simpl. apply lookup_insert_eq. }
    pose proof (cmd_resolve_all_keeps net' host ip hosts s1 s2 Hin Hall) as Hin2.
    unfold CmdDns.resolve. rewrite Hin2. reflexivity.
Qed.

Lemma cmd_resolve_caches_for_good_witness :
  CmdDns.resolve Samples.cmd_resolver_down "test.local"
    (CmdDns.resolve Samples.cmd_resolver_up "test.local" (CmdDns.mkState ∅ [])).1
  = ((CmdDns.resolve Samples.cmd_resolver_up "test.local" (CmdDns.mkState ∅ [])).1,
     Done ("192.0.2.7", None)).
Proof.
  apply (proj2 (proj2 (proj2 (cmd_resolve_caches_for_good
           Samples.cmd_resolver_up Samples.cmd_resolver_down "test.local"
           (CmdDns.mkState ∅ []))))
           (CmdDns.resolve Samples.cmd_resolver_up "test.local" (CmdDns.mkState ∅ [])).1
           "192.0.2.7" []
           (CmdDns.resolve Samples.cmd_resolver_up "test.local" (CmdDns.mkState ∅ [])).1).
  - reflexivity.
  - reflexivity.
Defined.

(** *** Reading a file of paths back *)

Lemma split_lf_line (l rest : string) :
  no_lf l ->
  Paths.split_lf (l ++ String lf rest) = (l, Paths.Split rest).
Proof.
  unfold Paths.Split. induction l as [|c l IH]; intros Hno.
  - change ("" ++ String lf rest) with (String lf rest).
    cbn [Paths.split_lf]. destruct (Paths.split_lf rest) as [a b].
    rewrite Ascii.eqb_refl. reflexivity.
  - change (String c l ++ String lf rest) with (String c (l ++ String lf rest)).
    cbn [Paths.split_lf]. rewrite IH.
    + destruct (Paths.split_lf rest) as [a b].
      destruct (Ascii.eqb c lf) eqn:Hc; [|reflexivity].
      apply Ascii.eqb_eq in Hc. exfalso. apply Hno. left. exact Hc.
    + intros H. apply Hno. right. exact H.
Qed.

Lemma split_lf_last (l : string) :
  no_lf l -> Paths.split_lf l = (l, []).
Proof.
  induction l as [|c l IH]; intros Hno; [reflexivity|].
  cbn [Paths.split_lf]. rewrite IH.
  - destruct (Ascii.eqb c lf) eqn:Hc; [|reflexivity].
    apply Ascii.eqb_eq in Hc. exfalso. apply Hno. left. exact Hc.
  - intros H. apply Hno. right. exact H.
Qed.

Lemma Split_unlines (ls : list string) :
  Forall no_lf ls -> Paths.Split (unlines ls) = (ls ++ [""])%list.
Proof.
  induction ls as [|l ls IH]; intros Hf; [reflexivity|].
  apply Forall_cons in Hf as [Hl Hls].
  change (unlines (l :: ls)) with (l ++ String lf (unlines ls)).
  unfold Paths.Split at 1. rewrite split_lf_line by exact Hl.
  rewrite IH by exact Hls. reflexivity.
Qed.

Lemma Split_join_lf (ls : list string) :
  Forall no_lf ls -> ls <> [] -> Paths.Split (join_lf ls) = ls.
Proof.
  induction ls as [|l [|l' ls] IH]; intros Hf Hne; [congruence| |].
  - apply Forall_cons in Hf as [Hl _]. unfold Paths.Split. cbn [join_lf].
    rewrite split_lf_last by exact Hl. reflexivity.
  - apply Forall_cons in Hf as [Hl Hls].
    change (join_lf (l :: l' :: ls)) with (l ++ String lf (join_lf (l' :: ls))).
    unfold Paths.Split at 1. rewrite split_lf_line by exact Hl.
    rewrite IH; [reflexivity | exact Hls | discriminate].
Qed.

Lemma drop_empty_last_snoc (ls : list string) :
  Paths.drop_empty_last (ls ++ [""]) = ls.
Proof.
  induction ls as [|l [|l' ls] IH]; [reflexivity| |].
  - reflexivity.
  - change (Paths.drop_empty_last ((l :: l' :: ls) ++ [""]))
      with (l :: Paths.drop_empty_last ((l' :: ls) ++ [""])).
    rewrite IH. reflexivity.
Qed.

Lemma drop_empty_last_keeps (ls : list string) :
  last ls <> Some "" -> Paths.drop_empty_last ls = ls.
Proof.
  induction ls as [|l [|l' ls] IH]; intros Hlast; [reflexivity| |].
  - cbn [Paths.drop_empty_last]. destruct (String.eqb l "") eqn:He; [|reflexivity].
    apply String.eqb_eq in He as ->. exfalso. apply Hlast. reflexivity.
  - change (Paths.drop_empty_last (l :: l' :: ls))
      with (l :: Paths.drop_empty_last (l' :: ls)).
    rewrite IH; [reflexivity|]. rewrite last_cons_cons in Hlast. exact Hlast.
Qed.

Lemma dropCR_snoc (l : string) : Paths.dropCR (l ++ String cr "") = l.
Proof.
  induction l as [|c l IH]; [reflexivity|].
  change (String c l ++ String cr "") with (String c (l ++ String cr "")).
  destruct l as [|d l].
  - reflexivity.
  - change (String d l ++ String cr "") with (String d (l ++ String cr "")) in *.
    change (Paths.dropCR (String c (String d (l ++ String cr ""))))
      with (String c (Paths.dropCR (String d (l ++ String cr "")))).
    rewrite IH. reflexivity.
Qed.

Lemma dropCR_plain (l : string) :
  (forall l', l <> l' ++ String cr "") -> Paths.dropCR l = l.
Proof.
  intros Hno. destruct (dropCR_spec l) as [(l' & Hl & _)|[H _]]; [|exact H].
  exfalso. exact (Hno l' Hl).
Qed.

Lemma no_lf_snoc_cr (l : string) : no_lf l -> no_lf (l ++ String cr "").
Proof.
  unfold no_lf. induction l as [|c l IH]; intros Hno.
  - intros [H|[]]. discriminate H.
  - change (String c l ++ String cr "") with (String c (l ++ String cr "")).
    intros [H|H]; [apply Hno; left; exact H|].
    apply IH; [|exact H]. intros H'. apply Hno. right. exact H'.
Qed.

Lemma len_snoc (l : string) (c : ascii) : len (l ++ String c "") = len l + 1.
Proof.
  unfold len. rewrite string_length_append. simpl. lia.
Qed.

Lemma existsb_too_long (ls : list string) :
  Forall (fun l => len l < Paths.MaxScanTokenSize) ls ->
  existsb Paths.too_long ls = false.
Proof.
  induction 1 as [|l ls Hl _ IH]; [reflexivity|].
  simpl. rewrite IH, orb_false_r. unfold Paths.too_long. apply Z.leb_gt. exact Hl.
Qed.

(** X17.  [loadPaths] reads back the lines that were written.  For
    paths without a line feed: a file that holds each path followed by a
    line feed yields these paths, and so does the file without its last
    line feed (the last path not empty), when no path ends with a
    carriage return and every path is shorter than the scanner's buffer;
    a file that ends each path with CR LF yields the paths without the
    carriage returns. *)
Theorem loadPaths_reads_back (fs : string -> Paths.File) (filePath : string)
    (paths : list string) :
  Forall no_lf paths ->
  (Forall (fun p => forall p', p <> p' ++ String cr "") paths ->
   Forall (fun p => len p < Paths.MaxScanTokenSize) paths ->
   (fs filePath = Paths.Contents (unlines paths) None ->
    Paths.loadPaths fs filePath = inl paths)
   /\ (last paths <> Some "" ->
       fs filePath = Paths.Contents (join_lf paths) None ->
       Paths.loadPaths fs filePath = inl paths))
  /\ (Forall (fun p => len p + 1 < Paths.MaxScanTokenSize) paths ->
      fs filePath = Paths.Contents (unlines (map (fun p => p ++ String cr "") paths)) None ->
      Paths.loadPaths fs filePath = inl paths).
Proof.
  intros Hlf. split.
  - intros Hcr Hlen.
    assert (map Paths.dropCR paths = paths) as Hmap.
    { clear Hlf Hlen. induction Hcr as [|p ps Hp _ IH]; [reflexivity|].
      simpl. rewrite IH, dropCR_plain by exact Hp. reflexivity. }
    split.
    + intros Hfile. unfold Paths.loadPaths. rewrite Hfile.
      rewrite Split_unlines by exact Hlf. rewrite drop_empty_last_snoc.
      rewrite existsb_too_long by exact Hlen. rewrite Hmap. reflexivity.
    + intros Hlast Hfile. unfold Paths.loadPaths. rewrite Hfile.
      destruct paths as [|p ps]; [reflexivity|].
      rewrite Split_join_lf by (auto; discriminate).
      rewrite drop_empty_last_keeps by exact Hlast.
      rewrite existsb_too_long by exact Hlen. rewrite Hmap. reflexivity.
  - intros Hlen Hfile. unfold Paths.loadPaths. rewrite Hfile.
    rewrite Split_unlines.
    + rewrite drop_empty_last_snoc. rewrite existsb_too_long.
      * rewrite map_map. f_equal. clear. induction paths as [|p ps IH]; [reflexivity|].
        simpl. rewrite dropCR_snoc, IH. reflexivity.
      * clear Hlf Hfile. induction Hlen as [|p ps Hp _ IH]; constructor; [|exact IH].
        rewrite len_snoc. exact Hp.
    + clear Hlen Hfile. induction Hlf as [|p ps Hp _ IH]; constructor; [|exact IH].
      apply no_lf_snoc_cr, Hp.
Qed.

Lemma loadPaths_reads_back_witness :
  Paths.loadPaths (fun _ => Paths.Contents ("/admin" ++ nl ++ "/login" ++ nl) None)
                  "paths.txt"
  = inl ["/admin"; "/login"]
  /\ Paths.loadPaths
       (fun _ => Paths.Contents ("/admin" ++ String cr nl ++ "/login" ++ String cr nl) None)
       "paths.txt"
     = inl ["/admin"; "/login"].
Proof.
  assert (Forall no_lf ["/admin"; "/login"]) as Hlf.
  { repeat constructor; intros H; simpl in H;
      repeat (destruct H as [H|H]; [discriminate H|]); exact H. }
  split.
  - destruct (loadPaths_reads_back
                (fun _ => Paths.Contents ("/admin" ++ nl ++ "/login" ++ nl) None)
                "paths.txt" ["/admin"; "/login"] Hlf) as [Hplain _].
    refine (proj1 (Hplain _ _) eq_refl).
    + constructor; [|constructor; [|constructor]]; intros p' H;
        repeat (destruct p' as [|? p']; simpl in H;
                [discriminate H | injection H as _ H]);
        destruct p'; discriminate H.
    + repeat constructor.
  - apply (proj2 (loadPaths_reads_back
             (fun _ => Paths.Contents
                         ("/admin" ++ String cr nl ++ "/login" ++ String cr nl) None)
             "paths.txt" ["/admin"; "/login"] Hlf)).
    + repeat constructor.
    + reflexivity.
Defined.

(** X18.  [loadPaths] of [cmd/main.go] reads back the lines that were
    written: for paths without a line feed none of which is blank, a file
    that holds the paths joined by line feeds yields them, and so does the
    file with a final line feed, the empty string being blank. *)
Theorem loadPaths_cmd_reads_back (lib : Lib) (fs : string -> Paths.File)
    (filePath : string) (paths : list string) :
  Forall no_lf paths ->
  Forall (fun p => 0 < len (TrimSpace lib p)) paths ->
  (len (TrimSpace lib "") = 0 ->
   fs filePath = Paths.Contents (unlines paths) None ->
   Paths.loadPaths_cmd lib fs filePath = inl paths)
  /\ (paths <> [] ->
      fs filePath = Paths.Contents (join_lf paths) None ->
      Paths.loadPaths_cmd lib fs filePath = inl paths).
Proof.
  intros Hlf Hnb.
  assert (List.filter (fun line => 0 <? len (TrimSpace lib line)) paths = paths) as Hkeep.
  { clear Hlf. induction Hnb as [|p ps Hp _ IH]; [reflexivity|].
    simpl. rewrite IH. apply Z.ltb_lt in Hp. rewrite Hp. reflexivity. }
  split.
  - intros Hempty Hfile. unfold Paths.loadPaths_cmd. rewrite Hfile.
    rewrite Split_unlines by exact Hlf. rewrite List.filter_app, Hkeep.
    simpl. rewrite Hempty. simpl. rewrite app_nil_r. reflexivity.
  - intros Hne Hfile. unfold Paths.loadPaths_cmd. rewrite Hfile.
    rewrite Split_join_lf by assumption. rewrite Hkeep. reflexivity.
Qed.

Lemma loadPaths_cmd_reads_back_witness :
  Paths.loadPaths_cmd Fixtures.lib_ok
    (fun _ => Paths.Contents ("/admin" ++ nl ++ "/login" ++ nl) None) "paths.txt"
  = inl ["/admin"; "/login"].
Proof.
  apply (proj1 (loadPaths_cmd_reads_back Fixtures.lib_ok
           (fun _ => Paths.Contents ("/admin" ++ nl ++ "/login" ++ nl) None)
           "paths.txt" ["/admin"; "/login"]
           ltac:(repeat constructor; intros H; simpl in H;
                 repeat (destruct H as [H|H]; [discriminate H|]); exact H)
           ltac:(repeat constructor))).
  - reflexivity.
  - reflexivity.
Defined.
